(** * Job aggregator: scoring, de-duplication, persistence and digest selection

    A shallow embedding of the Apps Script sources [output.gs], [appending.gs],
    [email.gs], [scraper.gs] and [input.gs].

    Conventions of the embedding.
    - A JavaScript string is a [string]; [toLowerCase] folds the ASCII letters
      and leaves every other character as it is.
    - A number is an integer ([Z]): weights, scores, [minScore] and [topN].
    - The two conventions above are those of the pipeline. The scorer and the
      reader of the Filters tab are also given for the [toLowerCase] and the
      numbers of any runtime, in the module [Runtime]; what is proved of
      them there holds for the letters of every script and for doubles.
    - The sheet answers every call, but in the module [SheetFailure], where
      the writes of [appendJobs] and [updateNotifiedJobs] may throw.
    - A property that may be absent from an object is an [option]; [None] is
      [undefined]. A spreadsheet row is the same twelve-column object.
    - A [throw] is the [Throw] result; [try { .. } catch (e) { log; throw e }]
      wrappers re-throw what they catch and are therefore left implicit.
    - [logMessage] never throws (it swallows its own failures) and does not
      touch the Jobs tab, so it is not part of the state. *)

From Stdlib Require Import ZArith Ascii String List Sorting.Sorted Permutation.
From stdpp Require Import base option list sorting gmap strings sets pretty.

Local Open Scope Z_scope.
#[local] Set Warnings "-clear-no-such-hyp,-register-all".
#[local] Arguments String.append !_ _ / : simpl nomatch.

(** ** JavaScript strings *)

Module Js.

(** [c.toLowerCase()] on one ASCII code unit: A..Z is 65..90. *)
Definition lower_ascii (c : ascii) : ascii :=
  let n := N_of_ascii c in
  if ((65 <=? n) && (n <=? 90))%N then ascii_of_N (n + 32) else c.

(** [s.toLowerCase()] *)
Fixpoint toLowerCase (s : string) : string :=
  match s with
  | EmptyString => EmptyString
  | String c s' => String (lower_ascii c) (toLowerCase s')
  end.

(** [s.startsWith(p)] *)
Fixpoint startsWith (s p : string) {struct p} : bool :=
  match p, s with
  | EmptyString, _ => true
  | String _ _, EmptyString => false
  | String a p', String b s' => if Ascii.eqb a b then startsWith s' p' else false
  end.

(** [s.includes(kw)]: [kw] occurs at some position of [s]. *)
Fixpoint includes (s kw : string) : bool :=
  if startsWith s kw then true
  else match s with
       | EmptyString => false
       | String _ s' => includes s' kw
       end.

(** [`${v}`]: the string conversion of a template literal; [undefined]
    prints as the nine letters of its name. *)
Definition template (v : option string) : string :=
  match v with
  | Some s => s
  | None => "undefined"
  end.

(** [!!v] for a string-valued property: [undefined] and [''] are falsy. *)
Definition truthy (v : option string) : bool :=
  match v with
  | Some s => negb (String.eqb s "")
  | None => false
  end.

(** [!!n] for a number-valued property: [undefined] and [0] are falsy. *)
Definition truthy_num (v : option Z) : bool :=
  match v with
  | Some n => negb (n =? 0)
  | None => false
  end.

(** [a || b] on string-valued properties. *)
Definition or_else (v : option string) (d : string) : string :=
  match v with
  | Some s => if String.eqb s "" then d else s
  | None => d
  end.

(** [xs.join(sep)] *)
Fixpoint join (sep : string) (xs : list string) : string :=
  match xs with
  | [] => ""
  | [x] => x
  | x :: rest => x +:+ sep +:+ join sep rest
  end.

(** [xs.slice(0, n)]: a negative [n] counts from the end of the array. *)
Definition slice0 {A} (xs : list A) (n : Z) : list A :=
  if n <? 0 then take (Z.to_nat (Z.of_nat (length xs) + n)) xs
  else take (Z.to_nat n) xs.

(** [s] between double quotes, as in the message ['dedupeBy must be "link"']. *)
Definition quoted (s : string) : string :=
  String (ascii_of_N 34) (s +:+ String (ascii_of_N 34) EmptyString).

(** [t] occurs in [s]: the meaning of substring containment. *)
Definition Substring (t s : string) : Prop :=
  exists a b, s = a +:+ t +:+ b.

End Js.

(** ** Exceptions *)

Inductive Exn : Type :=
| Error (msg : string)
| TypeError (msg : string).

Inductive Result (A : Type) : Type :=
| Ok (a : A)
| Throw (e : Exn).
Arguments Ok {A} a.
Arguments Throw {A} e.

#[global] Instance Result_ret : MRet Result := fun A a => Ok a.
#[global] Instance Result_bind : MBind Result := fun A B k m =>
  match m with
  | Ok a => k a
  | Throw e => Throw e
  end.

(** [for (const x of xs) body]: the loop state is threaded through the
    iterations and a throw leaves the loop at once. [continue] is an
    iteration that returns the state it was given. *)
Fixpoint for_of {A S : Type} (body : S -> A -> Result S) (xs : list A) (s : S)
  : Result S :=
  match xs with
  | [] => Ok s
  | x :: xs' => s' ← body s x; for_of body xs' s'
  end.

(** ** Data model *)

(** A row of the Filters tab as [getActiveFilters] returns it. *)
Record Filter : Type := mkFilter {
  Keyword : string;
  Weight : Z;
  Type_ : string
}.

(** A job object: the eight properties the scraper sets and the four that
    [processJobs] adds. The rows of the Jobs tab have the same twelve
    columns. *)
Record Job : Type := mkJob {
  ID : option string;
  DateFound : option string;
  Title : option string;
  Company : option string;
  Location : option string;
  Link : option string;
  Source : option string;
  Snippet : option string;
  Score : option Z;
  MatchedKeywords : option string;
  Status : option string;
  DateNotified : option string
}.

(** A cell of the Config tab. *)
Inductive Cell : Type :=
| CStr (s : string)
| CNum (n : Z).

(** [!!v] for the value of a cell. *)
Definition truthy_cell (v : Cell) : bool :=
  match v with
  | CStr s => negb (String.eqb s "")
  | CNum n => negb (n =? 0)
  end.

(** The config object of [getConfig]. [minScore] and [topN] are [None] when
    the property is absent or NaN. *)
Record Config : Type := mkConfig {
  emailRecipient : option string;
  minScore : option Z;
  topN : option Z;
  dedupeBy : option string;
  dateFormat : option string;
  coverLetterDocId : option Cell
}.

(** A row of the Sources tab as [getActiveSources] returns it. *)
Record SourceRow : Type := mkSource {
  SourceName : option string;
  URL : option string;
  Notes : option string
}.

#[global] Instance Exn_eq_dec : EqDecision Exn.
Proof. solve_decision. Defined.
#[global] Instance Filter_eq_dec : EqDecision Filter.
Proof. solve_decision. Defined.
#[global] Instance Job_eq_dec : EqDecision Job.
Proof. solve_decision. Defined.

(** ** output.gs *)

Record ScoreResult : Type := mkScore {
  score : Z;
  matchedKeywords : list string
}.

(** [`${job.Title} ${job.Company} ${job.Location} ${job.Snippet}`.toLowerCase()] *)
Definition allText (job : Job) : string :=
  Js.toLowerCase
    (Js.template (Title job) +:+ " " +:+ Js.template (Company job) +:+ " " +:+
     Js.template (Location job) +:+ " " +:+ Js.template (Snippet job)).

(** The test of one filter: [job.Title.toLowerCase()] throws a [TypeError]
    when the job has no [Title]. *)
Definition isMatch (job : Job) (allText : string) (filter : Filter) : Result bool :=
  let keyword := Js.toLowerCase (Keyword filter) in
  if String.eqb (Type_ filter) "title" then
    match Title job with
    | Some title => Ok (Js.includes (Js.toLowerCase title) keyword)
    | None => Throw (TypeError "Cannot read properties of undefined (reading 'toLowerCase')")
    end
  else if String.eqb (Type_ filter) "any" || String.eqb (Type_ filter) "negative" then
    Ok (Js.includes allText keyword)
  else Ok false.

(** The body of the loop over the filters. *)
Definition score_step (job : Job) (allText : string) (acc : ScoreResult)
    (filter : Filter) : Result ScoreResult :=
  m ← isMatch job allText filter;
  if m : bool then
    Ok {| score := score acc + Weight filter;
          matchedKeywords := matchedKeywords acc ++ [Keyword filter] |}
  else Ok acc.

(** [calculateScore(job, filters)]; an argument that is [undefined], [null]
    or otherwise falsy is [None]. *)
Definition calculateScore (job : option Job) (filters : option (list Filter))
  : Result ScoreResult :=
  match job, filters with
  | Some job, Some filters =>
      for_of (score_step job (allText job)) filters
             {| score := 0; matchedKeywords := [] |}
  | _, _ => Throw (Error "Invalid job or filters")
  end.

(** The state of the loop of [processJobs]: the output array, the set of
    links seen in this batch and the number of identifiers generated. *)
Record ProcState : Type := mkProc {
  processedJobs : list Job;
  seenLinks : gset (option string);
  generated : nat
}.

Section Output.

(** [generateUniqueID n] is the identifier the [n]-th call of
    [generateUniqueID()] made by [processJobs] returns. *)
Variable generateUniqueID : nat -> string.

Definition process_step (filters : list Filter) (config : Config)
    (st : ProcState) (job : Job) : Result ProcState :=
  if negb (Js.truthy (Title job)) || negb (Js.truthy (Link job))
     || negb (Js.truthy (Source job)) then Ok st
  else if bool_decide (dedupeBy config = Some "link")
          && bool_decide (Link job ∈ seenLinks st) then Ok st
  else
    let seen := {[ Link job ]} ∪ seenLinks st in
    r ← calculateScore (Some job) (Some filters);
    let fresh := negb (Js.truthy (ID job)) in
    let processedJob :=
      {| ID := if fresh then Some (generateUniqueID (generated st)) else ID job;
         DateFound := DateFound job;
         Title := Title job;
         Company := Some (Js.or_else (Company job) "");
         Location := Some (Js.or_else (Location job) "");
         Link := Link job;
         Source := Source job;
         Snippet := Some (Js.template (Title job) +:+ " from " +:+ Js.template (Source job));
         Score := Some (score r);
         MatchedKeywords := Some (Js.join ", " (matchedKeywords r));
         Status := Some (match minScore config with
                         | Some m => if m <=? score r then "New" else "Ignore"
                         | None => "Ignore"
                         end);
         DateNotified := Some "" |} in
    Ok {| processedJobs := processedJobs st ++ [processedJob];
          seenLinks := seen;
          generated := if fresh then S (generated st) else generated st |}.

(** [processJobs(rawJobs, filters, config)] for arrays [rawJobs] and
    [filters]; a falsy [config] is [None]. *)
Definition processJobs (rawJobs : list Job) (filters : list Filter)
    (config : option Config) : Result (list Job) :=
  match config with
  | None => Throw (Error "Invalid input: rawJobs, filters, or config is missing/invalid")
  | Some config =>
      if negb (Js.truthy_num (minScore config)) || negb (Js.truthy (dedupeBy config))
      then Throw (Error "Missing required config fields: minScore or dedupeBy")
      else
        st ← for_of (process_step filters config) rawJobs
                    {| processedJobs := []; seenLinks := ∅; generated := 0%nat |};
        Ok (processedJobs st)
  end.

End Output.

(** ** The spreadsheet and the mail service *)

(** What a digest mail carries: the recipient and the jobs its table was
    built from. *)
Record Mail : Type := mkMail {
  recipient : string;
  digest : list Job
}.

(** The part of the outside world the persistence and notification code
    touches. [JobsTab] is [None] when the spreadsheet has no Jobs tab and is
    otherwise the data rows below the header row, so that [getLastRow()] is
    one more than their number. [gmailFailure] is what [GmailApp.sendEmail]
    throws, and [None] when the send goes through. *)
Record World : Type := mkWorld {
  SHEET_ID : option string;
  JobsTab : option (list Job);
  gmailFailure : option Exn;
  outbox : list Mail
}.

Definition setJobsTab (w : World) (rows : list Job) : World :=
  {| SHEET_ID := SHEET_ID w; JobsTab := Some rows;
     gmailFailure := gmailFailure w; outbox := outbox w |}.

(** The same world with the mail service up ([None]) or failing. *)
Definition withGmail (w : World) (failure : option Exn) : World :=
  {| SHEET_ID := SHEET_ID w; JobsTab := JobsTab w;
     gmailFailure := failure; outbox := outbox w |}.

Definition pushMail (w : World) (m : Mail) : World :=
  {| SHEET_ID := SHEET_ID w; JobsTab := JobsTab w;
     gmailFailure := gmailFailure w; outbox := outbox w ++ [m] |}.

(** Opening the spreadsheet and its Jobs tab, as [appendJobs] and
    [sendJobDigest] both do. *)
Definition openJobsSheet (w : World) : Result (list Job) :=
  if negb (Js.truthy (SHEET_ID w)) then Throw (Error "SHEET_ID not set in Script Properties")
  else match JobsTab w with
       | None => Throw (Error "Jobs tab not found")
       | Some rows => Ok rows
       end.

(** ** appending.gs *)

(** The test of [getExistingLinks] on one cell of the Link column:
    [link && typeof link === 'string' && link.includes('http')]. *)
Definition isExistingLink (link : option string) : bool :=
  match link with
  | Some l => negb (String.eqb l "") && Js.includes l "http"
  | None => false
  end.

(** [getExistingLinks(jobsSheet)] *)
Definition getExistingLinks (rows : list Job) : gset (option string) :=
  match rows with
  | [] => ∅
  | _ => list_to_set (List.filter isExistingLink (Link <$> rows))
  end.

(** The required-fields test of [appendJobs]; [=== undefined] asks for the
    property to be absent. *)
Definition missingFields (job : Job) : bool :=
  negb (Js.truthy (ID job)) || negb (Js.truthy (DateFound job))
  || negb (Js.truthy (Title job)) || negb (Js.truthy (Link job))
  || negb (Js.truthy (Source job)) || negb (Js.truthy (Snippet job))
  || bool_decide (Score job = None) || negb (Js.truthy (MatchedKeywords job))
  || negb (Js.truthy (Status job)) || bool_decide (DateNotified job = None).

Definition validStatuses : list string :=
  ["New"; "Ignore"; "Applied"; "Interviewing"; "Rejected"].

(** The row [appendJobs] pushes, after it has reset an unknown status. *)
Definition toRow (job : Job) : Job :=
  {| ID := ID job; DateFound := DateFound job; Title := Title job;
     Company := Company job; Location := Location job; Link := Link job;
     Source := Source job; Snippet := Snippet job; Score := Score job;
     MatchedKeywords := MatchedKeywords job;
     Status := if bool_decide (Status job ∈ (Some <$> validStatuses))
               then Status job else Some "Ignore";
     DateNotified := DateNotified job |}.

(** The state of the loop of [appendJobs]. *)
Record AppendState : Type := mkAppend {
  seenLinksInBatch : gset (option string);
  jobsToAppend : list Job
}.

Definition append_step (existingLinks : gset (option string))
    (st : AppendState) (job : Job) : AppendState :=
  if missingFields job then st
  else if bool_decide (Link job ∈ existingLinks)
          || bool_decide (Link job ∈ seenLinksInBatch st) then st
  else {| seenLinksInBatch := {[ Link job ]} ∪ seenLinksInBatch st;
          jobsToAppend := jobsToAppend st ++ [toRow job] |}.

(** [appendJobs(processedJobs, config)] for an array [processedJobs]: the
    outcome and the world it leaves. *)
Definition appendJobs (processedJobs : list Job) (config : option Config)
    (w : World) : Result nat * World :=
  match config with
  | None => (Throw (Error "Invalid input: processedJobs or config is missing/invalid"), w)
  | Some config =>
      if negb (Js.truthy (dedupeBy config)) || negb (Js.truthy_num (minScore config))
      then (Throw (Error "Missing required config fields: dedupeBy or minScore"), w)
      else if negb (bool_decide (dedupeBy config = Some "link"))
      then (Throw (Error ("dedupeBy must be " +:+ Js.quoted "link")), w)
      else
        match openJobsSheet w with
        | Throw e => (Throw e, w)
        | Ok rows =>
            let existingLinks := getExistingLinks rows in
            let st := fold_left (append_step existingLinks) processedJobs
                        {| seenLinksInBatch := ∅; jobsToAppend := [] |} in
            match jobsToAppend st with
            | [] => (Ok 0%nat, w)
            | _ => (Ok (length (jobsToAppend st)),
                    setJobsTab w (rows ++ jobsToAppend st))
            end
        end
  end.

(** ** email.gs *)

(** A blank Score cell is read as [''], which [>=] and [-] convert to 0. *)
Definition cellNumber (v : option Z) : Z :=
  match v with
  | Some n => n
  | None => 0
  end.

(** [xs.sort(cmp)]: the sort is stable, and for a comparator that orders the
    elements consistently its result is the one of any stable sort. [put]
    places [x], which came before every element of [xs], in front of the
    first element that must not precede it. *)
Fixpoint put {A} (cmp : A -> A -> Z) (x : A) (xs : list A) : list A :=
  match xs with
  | [] => [x]
  | y :: ys => if cmp x y <=? 0 then x :: y :: ys else y :: put cmp x ys
  end.

Fixpoint sort {A} (cmp : A -> A -> Z) (xs : list A) : list A :=
  match xs with
  | [] => []
  | x :: xs' => put cmp x (sort cmp xs')
  end.

(** The filter of the digest:
    [job.Status === 'New' && job.Score >= config.minScore && !job.DateNotified];
    a comparison with an absent [minScore] is false. *)
Definition eligible (config : Config) (job : Job) : bool :=
  bool_decide (Status job = Some "New")
  && match minScore config with
     | Some m => m <=? cellNumber (Score job)
     | None => false
     end
  && negb (Js.truthy (DateNotified job)).

(** [(a, b) => b.Score - a.Score] *)
Definition byScoreDesc (a b : Job) : Z :=
  cellNumber (Score b) - cellNumber (Score a).

(** [jobs.filter(..).sort(..).slice(0, config.topN)]; [slice(0, undefined)]
    keeps the whole array. *)
Definition eligibleJobs (config : Config) (jobs : list Job) : list Job :=
  let sorted := sort byScoreDesc (List.filter (eligible config) jobs) in
  match topN config with
  | Some n => Js.slice0 sorted n
  | None => sorted
  end.

(** A row of the table in the digest mail: the title with its link, the
    snippet under it when there is one, the company and the score. *)
Record TableRow : Type := mkTableRow {
  role : string;
  href : string;
  snippetLine : option string;
  company : string;
  scoreBadge : option Z
}.

(** The row [buildHtmlTable] makes of a job that has a title and a link:
    the company falls back on the source and then on the word Unknown, and
    a snippet of more than 60 characters is cut there, three dots added. *)
Definition tableRow (job : Job) : TableRow :=
  {| role := Js.template (Title job);
     href := Js.template (Link job);
     snippetLine :=
       if Js.truthy (Snippet job) then
         let snippet := Js.template (Snippet job) in
         Some (if (60 <? String.length snippet)%nat
               then String.substring 0 60 snippet +:+ "..." else snippet)
       else None;
     company := Js.or_else (Company job) (Js.or_else (Source job) "Unknown");
     scoreBadge := Score job |}.

(** The body of the loop of [buildHtmlTable]: a job without a title or
    without a link is skipped. *)
Definition table_step (table : list TableRow) (job : Job) : list TableRow :=
  if negb (Js.truthy (Title job)) || negb (Js.truthy (Link job)) then table
  else table ++ [tableRow job].

(** [buildHtmlTable(jobs)] for an array [jobs]: the rows of the table it
    returns, without their markup. *)
Definition buildHtmlTable (jobs : list Job) : Result (list TableRow) :=
  match jobs with
  | [] => Throw (Error "No jobs provided for table")
  | _ => Ok (fold_left table_step jobs [])
  end.

Section Email.

(** [formatDate fmt] is [formatDate(new Date(), fmt)] at the time of the run;
    it never throws. *)
Variable formatDate : option string -> string.

(** The rows of the Jobs tab after [updateNotifiedJobs]. *)
Definition markNotified (emailedJobs : list Job) (today : string) (row : Job) : Job :=
  if existsb (fun job => bool_decide (ID job = ID row)) emailedJobs then
    {| ID := ID row; DateFound := DateFound row; Title := Title row;
       Company := Company row; Location := Location row; Link := Link row;
       Source := Source row; Snippet := Snippet row; Score := Score row;
       MatchedKeywords := MatchedKeywords row;
       Status := Some "Notified";
       DateNotified := Some today |}
  else row.

(** [updateNotifiedJobs(jobsSheet, emailedJobs, dateFormat)]: the number of
    rows updated and the rows it leaves. *)
Definition updateNotifiedJobs (rows : list Job) (emailedJobs : list Job)
    (dateFormat : option string) : nat * list Job :=
  let today := formatDate dateFormat in
  (length (List.filter
             (fun row => existsb (fun job => bool_decide (ID job = ID row)) emailedJobs)
             rows),
   markNotified emailedJobs today <$> rows).

(** [GmailApp.sendEmail(..)]. The table, the template and the cover letter
    that go into the message cannot fail the run before this point:
    [buildHtmlTable] is given a non-empty selection and a failure to read
    the cover letter is caught. *)
Definition sendEmail (to : string) (jobs : list Job) (w : World) : Result unit * World :=
  match gmailFailure w with
  | None => (Ok (), pushMail w {| recipient := to; digest := jobs |})
  | Some e => (Throw e, w)
  end.

(** [sendJobDigest(config)]: the number of jobs mailed and the world it
    leaves. *)
Definition sendJobDigest (config : option Config) (w : World) : Result nat * World :=
  match config with
  | None => (Throw (Error "Missing required config: emailRecipient, topN, or coverLetterDocId"), w)
  | Some config =>
      if negb (Js.truthy (emailRecipient config)) || negb (Js.truthy_num (topN config))
         || negb (from_option truthy_cell false (coverLetterDocId config))
      then (Throw (Error "Missing required config: emailRecipient, topN, or coverLetterDocId"), w)
      else
        match openJobsSheet w with
        | Throw e => (Throw e, w)
        | Ok [] => (Ok 0%nat, w)
        | Ok jobs =>
            match eligibleJobs config jobs with
            | [] => (Ok 0%nat, w)
            | selected =>
                match sendEmail (Js.template (emailRecipient config)) selected w with
                | (Throw e, w') => (Throw e, w')
                | (Ok _, w') =>
                    let '(_, rows) := updateNotifiedJobs jobs selected (dateFormat config) in
                    (Ok (length selected), setJobsTab w' rows)
                end
            end
        end
  end.

End Email.

(** ** scraper.gs *)

Section Scraper.

(** [fetchSingleRSS url sourceName today]: what fetching and parsing that
    feed gives during this run, a list of jobs or a throw. *)
Variable fetchSingleRSS : string -> string -> string -> Result (list Job).

(** [formatDate(new Date(), 'yyyy-MM-dd')] *)
Variable today : string.

(** The body of the loop over the sources: an invalid source is skipped,
    and so is one whose fetch throws. *)
Definition scrape_step (jobs : list Job) (source : SourceRow) : list Job :=
  if negb (Js.truthy (SourceName source)) || negb (Js.truthy (URL source)) then jobs
  else
    match fetchSingleRSS (Js.template (URL source)) (Js.template (SourceName source)) today with
    | Ok sourceJobs => jobs ++ sourceJobs
    | Throw _ => jobs
    end.

(** [scrapeJobs(sources)] for an array [sources]. *)
Definition scrapeJobs (sources : list SourceRow) : Result (list Job) :=
  match sources with
  | [] => Throw (Error "No valid sources provided")
  | _ => Ok (fold_left scrape_step sources [])
  end.

End Scraper.

(** ** input.gs *)

Definition digit_of (c : ascii) : option Z :=
  let n := N_of_ascii c in
  if ((48 <=? n) && (n <=? 57))%N then Some (Z.of_N (n - 48)) else None.

Fixpoint digits (s : string) (acc : Z) : option Z :=
  match s with
  | EmptyString => Some acc
  | String c s' => d ← digit_of c; digits s' (10 * acc + d)
  end.

(** [Number(v)] on a cell, for the integer literals: the empty string is 0,
    a text that is not a decimal integer is NaN ([None]). *)
Definition Number (v : Cell) : option Z :=
  match v with
  | CNum n => Some n
  | CStr EmptyString => Some 0
  | CStr (String "-" (String c s)) => Z.opp <$> digits (String c s) 0
  | CStr s => digits s 0
  end.

#[global] Instance Cell_eq_dec : EqDecision Cell.
Proof. solve_decision. Defined.

(** The body of the loop that builds the config object from the rows of the
    Config tab, whose Key column holds text. *)
Definition config_step (config : gmap string Cell) (row : string * Cell)
  : gmap string Cell :=
  let '(setting, value) := row in
  if String.eqb setting "" || bool_decide (value = CStr "") then config
  else <[ setting := value ]> config.

Definition requiredFields : list string :=
  ["emailRecipient"; "minScore"; "topN"; "dedupeBy"; "dateFormat"].

(** [getConfig()] on the values of the Config tab, header row first. *)
Definition getConfig (data : list (string * Cell)) : Result Config :=
  match data with
  | [] | [_] => Throw (Error "Config tab is empty or missing headers")
  | header :: rows =>
      if negb (bool_decide (header = ("Key", CStr "Value")))
      then Throw (Error "Config tab headers incorrect")
      else
        let config := fold_left config_step rows ∅ in
        _ ← for_of (fun (_ : unit) field =>
                      match config !! field with
                      | Some _ => Ok ()
                      | None => Throw (Error ("Missing required config field: " +:+ field))
                      end) requiredFields ();
        match config !! "minScore" ≫= Number, config !! "topN" ≫= Number with
        | Some m, Some n =>
            match config !! "emailRecipient" with
            | Some (CStr recipient) =>
                if negb (Js.includes recipient "@")
                then Throw (Error "Invalid emailRecipient")
                else if negb (bool_decide (config !! "dedupeBy" = Some (CStr "link")))
                then Throw (Error ("dedupeBy must be " +:+ Js.quoted "link"))
                else if negb (bool_decide (config !! "dateFormat" = Some (CStr "yyyy-MM-dd")))
                then Throw (Error "Invalid dateFormat")
                else Ok {| emailRecipient := Some recipient;
                           minScore := Some m;
                           topN := Some n;
                           dedupeBy := Some "link";
                           dateFormat := Some "yyyy-MM-dd";
                           coverLetterDocId := config !! "coverLetterDocId" |}
            | _ => Throw (TypeError "config.emailRecipient.includes is not a function")
            end
        | _, _ => Throw (Error "minScore and topN must be numeric")
        end
  end.

(** A cell of the Sources or the Filters tab as [getValues()] gives it:
    text (a blank cell is ['']), a number, or the boolean of a checkbox. A
    date cell behaves in every test below as a non-zero number does. *)
Inductive Value : Type :=
| VStr (s : string)
| VNum (n : Z)
| VBool (b : bool).

#[global] Instance Value_eq_dec : EqDecision Value.
Proof. solve_decision. Defined.

(** [!!v] *)
Definition truthy_value (v : Value) : bool :=
  match v with
  | VStr s => negb (String.eqb s "")
  | VNum n => negb (n =? 0)
  | VBool b => b
  end.

(** [typeof v === 'boolean'] *)
Definition isBoolean (v : Value) : bool :=
  match v with
  | VBool _ => true
  | _ => false
  end.

(** [Number(v)], [None] for NaN. *)
Definition NumberOf (v : Value) : option Z :=
  match v with
  | VStr s => Number (CStr s)
  | VNum n => Some n
  | VBool b => Some (if b then 1 else 0)
  end.

(** A row of the Sources tab, the header row included. The SourceName and
    Notes columns hold text, which is what the returned objects carry. *)
Record SourcesTabRow : Type := mkSourcesRow {
  sourceNameCell : string;
  urlCell : Value;
  notesCell : string;
  sourceActiveCell : Value
}.

#[global] Instance SourceRow_eq_dec : EqDecision SourceRow.
Proof. solve_decision. Defined.
#[global] Instance SourcesTabRow_eq_dec : EqDecision SourcesTabRow.
Proof. solve_decision. Defined.

(** The body of the loop over the rows of the Sources tab;
    [url.includes] is not a function when the URL cell is not text. *)
Definition sources_step (sources : list SourceRow) (row : SourcesTabRow)
  : Result (list SourceRow) :=
  let sourceName := sourceNameCell row in
  let url := urlCell row in
  let notes := Js.or_else (Some (notesCell row)) "" in
  let active := sourceActiveCell row in
  if String.eqb sourceName "" || negb (truthy_value url) || negb (isBoolean active)
  then Ok sources
  else if truthy_value active then
    match url with
    | VStr u =>
        if negb (Js.includes u "http") then Ok sources
        else Ok (sources ++ [mkSource (Some sourceName) (Some u) (Some notes)])
    | _ => Throw (TypeError "url.includes is not a function")
    end
  else Ok sources.

(** [getActiveSources()] on the Sources tab, [None] when the spreadsheet
    has no such tab. *)
Definition getActiveSources (tab : option (list SourcesTabRow)) : Result (list SourceRow) :=
  match tab with
  | None => Throw (Error "Sources tab not found")
  | Some [] | Some [_] => Throw (Error "Sources tab is empty or missing headers")
  | Some (header :: rows) =>
      if negb (bool_decide (header = mkSourcesRow "SourceName" (VStr "URL") "Notes"
                                                  (VStr "Active")))
      then Throw (Error "Sources tab headers incorrect")
      else for_of sources_step rows []
  end.

(** A row of the Filters tab, the header row included. The Keyword column
    holds text, which is what [Filter] carries. *)
Record FiltersTabRow : Type := mkFiltersRow {
  keywordCell : string;
  weightCell : Value;
  typeCell : Value;
  filterActiveCell : Value
}.

#[global] Instance FiltersTabRow_eq_dec : EqDecision FiltersTabRow.
Proof. solve_decision. Defined.

Definition filterTypes : list string := ["title"; "any"; "negative"].

(** The body of the loop over the rows of the Filters tab;
    [type.toLowerCase] is not a function when the Type cell is not text. *)
Definition filters_step (filters : list Filter) (row : FiltersTabRow)
  : Result (list Filter) :=
  let keyword := keywordCell row in
  let type := typeCell row in
  let active := filterActiveCell row in
  match NumberOf (weightCell row) with
  | None => Ok filters
  | Some weight =>
      if String.eqb keyword "" || negb (truthy_value type) || negb (isBoolean active)
      then Ok filters
      else if truthy_value active then
        match type with
        | VStr t =>
            if negb (bool_decide (Js.toLowerCase t ∈ filterTypes)) then Ok filters
            else Ok (filters ++ [mkFilter keyword weight (Js.toLowerCase t)])
        | _ => Throw (TypeError "type.toLowerCase is not a function")
        end
      else Ok filters
  end.

(** [getActiveFilters()] on the Filters tab, [None] when the spreadsheet
    has no such tab. *)
Definition getActiveFilters (tab : option (list FiltersTabRow)) : Result (list Filter) :=
  match tab with
  | None => Throw (Error "Filters tab not found")
  | Some [] | Some [_] => Throw (Error "Filters tab is empty or missing headers")
  | Some (header :: rows) =>
      if negb (bool_decide (header = mkFiltersRow "Keyword" (VStr "Weight") (VStr "Type")
                                                  (VStr "Active")))
      then Throw (Error "Filters tab headers incorrect")
      else for_of filters_step rows []
  end.

(** ** scraper.gs: one feed *)

(** What [UrlFetchApp.fetch] returns. *)
Record HTTPResponse : Type := mkResponse {
  getResponseCode : Z;
  getContentText : string
}.

(** An element of a parsed document: its name, its text and its child
    elements in document order. *)
Inductive Element : Type :=
| mkElement (name : string) (text : string) (children : list Element).

Definition elementName (e : Element) : string :=
  match e with mkElement name _ _ => name end.
Definition getText (e : Element) : string :=
  match e with mkElement _ text _ => text end.
Definition elementChildren (e : Element) : list Element :=
  match e with mkElement _ _ children => children end.

(** [e.getChildren(name)] *)
Definition getChildren (name : string) (e : Element) : list Element :=
  List.filter (fun c => String.eqb (elementName c) name) (elementChildren e).

(** [e.getChild(name)]: the first child of that name, [null] when there is
    none. *)
Definition getChild (name : string) (e : Element) : option Element :=
  head (getChildren name e).

(** [e.getChildText(name)] *)
Definition getChildText (name : string) (e : Element) : option string :=
  getText <$> getChild name e.

(** [error.message] *)
Definition message (e : Exn) : string :=
  match e with
  | Error msg => msg
  | TypeError msg => msg
  end.

Section Feed.

(** [UrlFetchApp.fetch(url, ..)] and [XmlService.parse(text)] during this
    run: each returns or throws. With [muteHttpExceptions] a response whose
    code is not 200 is returned, not thrown. *)
Variable fetch : string -> Result HTTPResponse.
Variable parse : string -> Result Element.

(** [generateUniqueID n] is the identifier the [n]-th call of
    [generateUniqueID('INFO')] made for this feed returns. *)
Variable generateUniqueID : nat -> string.

(** The body of the loop over the items; the state is the array of jobs and
    the number of identifiers generated. *)
Definition item_step (sourceName today : string) (st : list Job * nat) (item : Element)
  : list Job * nat :=
  let title := Js.or_else (getChildText "title" item) "Unknown Title" in
  let link := Js.or_else (getChildText "link" item) "" in
  let description := Js.or_else (getChildText "description" item) "" in
  let company := Js.or_else (getChildText "company" item) "" in
  let location := Js.or_else (getChildText "location" item) "" in
  if String.eqb link "" then st
  else (st.1 ++ [{| ID := Some (generateUniqueID st.2);
                    DateFound := Some today;
                    Title := Some title;
                    Company := Some company;
                    Location := Some location;
                    Link := Some link;
                    Source := Some sourceName;
                    Snippet := Some (String.substring 0 500 description);
                    Score := None; MatchedKeywords := None;
                    Status := None; DateNotified := None |}],
        S st.2).

(** [fetchSingleRSS(url, sourceName, today)] on three strings. *)
Definition fetchSingleRSS (url sourceName today : string) : Result (list Job) :=
  if String.eqb url "" || String.eqb sourceName "" || String.eqb today ""
  then Throw (Error ("Invalid parameters: url=" +:+ url +:+ ", sourceName=" +:+ sourceName
                     +:+ ", today=" +:+ today))
  else
    match fetch url with
    | Throw fetchError => Throw (Error ("HTTP fetch failed: " +:+ message fetchError))
    | Ok response =>
        if negb (getResponseCode response =? 200)
        then Throw (Error ("HTTP error " +:+ pretty (getResponseCode response) +:+ ": "
                           +:+ String.substring 0 100 (getContentText response)))
        else
          match parse (getContentText response) with
          | Throw parseError =>
              Throw (Error ("XML parsing failed: " +:+ message parseError))
          | Ok root =>
              match getChild "channel" root with
              | None => Throw (Error "No channel found in RSS feed")
              | Some channel =>
                  let items := Js.slice0 (getChildren "item" channel) 50 in
                  Ok (fold_left (item_step sourceName today) items ([], 0%nat)).1
              end
          end
    end.

End Feed.

(** ** main.gs *)

(** The spreadsheet with its four tabs and the services around it. A tab
    that does not exist is [None]. *)
Record Workbook : Type := mkWorkbook {
  ConfigTab : option (list (string * Cell));
  SourcesTab : option (list SourcesTabRow);
  FiltersTab : option (list FiltersTabRow);
  services : World
}.

(** [getConfig()] from its first line: the script property, the tab, and
    then the rows. *)
Definition readConfig (wb : Workbook) : Result Config :=
  if negb (Js.truthy (SHEET_ID (services wb)))
  then Throw (Error "SHEET_ID not set in Script Properties")
  else match ConfigTab wb with
       | None => Throw (Error "Config tab not found")
       | Some data => getConfig data
       end.

Section Main.

Variable fetchSingleRSS : string -> string -> string -> Result (list Job).
Variable today : string.
Variable formatDate : option string -> string.
Variable generateUniqueID : nat -> string.

(** [runJobSearch()]: the outcome and the world it leaves. The error a
    stage throws is thrown again after it has been logged. *)
Definition runJobSearch (wb : Workbook) : Result unit * World :=
  let w := services wb in
  match readConfig wb with
  | Throw e => (Throw e, w)
  | Ok config =>
      match getActiveSources (SourcesTab wb) with
      | Throw e => (Throw e, w)
      | Ok sources =>
          match getActiveFilters (FiltersTab wb) with
          | Throw e => (Throw e, w)
          | Ok filters =>
              match sources with
              | [] => (Ok (), w)
              | _ =>
                  match scrapeJobs fetchSingleRSS today sources with
                  | Throw e => (Throw e, w)
                  | Ok rawJobs =>
                      match processJobs generateUniqueID rawJobs filters (Some config) with
                      | Throw e => (Throw e, w)
                      | Ok processedJobs =>
                          match appendJobs processedJobs (Some config) w with
                          | (Throw e, w') => (Throw e, w')
                          | (Ok appendedCount, w') =>
                              match sendJobDigest formatDate (Some config) w' with
                              | (Throw e, w'') => (Throw e, w'')
                              | (Ok emailedCount, w'') => (Ok (), w'')
                              end
                          end
                      end
                  end
              end
          end
      end
  end.

End Main.

(** ** The run when a call to the sheet fails *)

(** [appendJobs] and [updateNotifiedJobs] throw again what their sheet
    calls throw, and [updateNotifiedJobs] runs after [GmailApp.sendEmail].
    The definitions above take the sheet to answer every call; here it may
    fail one. [appendFailure] is what [setValues] throws in [appendJobs],
    [None] when the write goes through. [markFailure] is [None] when every
    sheet call of [updateNotifiedJobs] goes through and [Some (n, e)] when
    its call number [n] throws [e]: call 0 is [getLastRow], call 1 is
    [getValues], and the cell writes follow, two for each row to mark, the
    status first and the day second. A write that throws writes nothing. *)
Module SheetFailure.

Section Definitions.

Variable fetchSingleRSS : string → string → string → Result (list Job).
Variable today : string.
Variable formatDate : option string → string.
Variable generateUniqueID : nat → string.
Variable appendFailure : option Exn.
Variable markFailure : option (nat * Exn).

(** [appendJobs(processedJobs, config)] *)
Definition appendJobs (processedJobs : list Job) (config : option Config)
    (w : World) : Result nat * World :=
  match config with
  | None => (Throw (Error "Invalid input: processedJobs or config is missing/invalid"), w)
  | Some config =>
      if negb (Js.truthy (dedupeBy config)) || negb (Js.truthy_num (minScore config))
      then (Throw (Error "Missing required config fields: dedupeBy or minScore"), w)
      else if negb (bool_decide (dedupeBy config = Some "link"))
      then (Throw (Error ("dedupeBy must be " +:+ Js.quoted "link")), w)
      else
        match openJobsSheet w with
        | Throw e => (Throw e, w)
        | Ok rows =>
            let existingLinks := getExistingLinks rows in
            let st := fold_left (append_step existingLinks) processedJobs
                        {| seenLinksInBatch := ∅; jobsToAppend := [] |} in
            match jobsToAppend st with
            | [] => (Ok 0%nat, w)
            | _ =>
                match appendFailure with
                | Some e => (Throw e, w)
                | None => (Ok (length (jobsToAppend st)),
                           setJobsTab w (rows ++ jobsToAppend st))
                end
            end
        end
  end.

(** The row after [setValue('Notified')] on its Status cell. *)
Definition setStatus (row : Job) : Job :=
  {| ID := ID row; DateFound := DateFound row; Title := Title row;
     Company := Company row; Location := Location row; Link := Link row;
     Source := Source row; Snippet := Snippet row; Score := Score row;
     MatchedKeywords := MatchedKeywords row;
     Status := Some "Notified";
     DateNotified := DateNotified row |}.

(** The loop of [updateNotifiedJobs] when the sheet takes [n] writes and
    throws on the next: the rows it leaves, and whether that next write was
    asked for. *)
Fixpoint markWrites (emailedJobs : list Job) (today : string) (n : nat) (rows : list Job)
  : list Job * bool :=
  match rows with
  | [] => ([], false)
  | row :: rest =>
      if existsb (fun job => bool_decide (ID job = ID row)) emailedJobs then
        match n with
        | O => (row :: rest, true)
        | S O => (setStatus row :: rest, true)
        | S (S n') =>
            let '(rest', thrown) := markWrites emailedJobs today n' rest in
            (markNotified emailedJobs today row :: rest', thrown)
        end
      else
        let '(rest', thrown) := markWrites emailedJobs today n rest in
        (row :: rest', thrown)
  end.

(** [updateNotifiedJobs(jobsSheet, emailedJobs, dateFormat)]: the outcome
    and the rows it leaves. *)
Definition updateNotifiedJobs (rows : list Job) (emailedJobs : list Job)
    (dateFormat : option string) : Result nat * list Job :=
  let updated := updateNotifiedJobs formatDate rows emailedJobs dateFormat in
  match markFailure with
  | None => (Ok updated.1, updated.2)
  | Some (O, e) => (Throw e, rows)
  | Some (S n, e) =>
      match rows with
      | [] => (Ok 0%nat, rows)
      | _ =>
          match n with
          | O => (Throw e, rows)
          | S writes =>
              match markWrites emailedJobs (formatDate dateFormat) writes rows with
              | (rows', true) => (Throw e, rows')
              | (rows', false) => (Ok updated.1, rows')
              end
          end
      end
  end.

(** [sendJobDigest(config)] *)
Definition sendJobDigest (config : option Config) (w : World) : Result nat * World :=
  match config with
  | None => (Throw (Error "Missing required config: emailRecipient, topN, or coverLetterDocId"), w)
  | Some config =>
      if negb (Js.truthy (emailRecipient config)) || negb (Js.truthy_num (topN config))
         || negb (from_option truthy_cell false (coverLetterDocId config))
      then (Throw (Error "Missing required config: emailRecipient, topN, or coverLetterDocId"), w)
      else
        match openJobsSheet w with
        | Throw e => (Throw e, w)
        | Ok [] => (Ok 0%nat, w)
        | Ok jobs =>
            match eligibleJobs config jobs with
            | [] => (Ok 0%nat, w)
            | selected =>
                match sendEmail (Js.template (emailRecipient config)) selected w with
                | (Throw e, w') => (Throw e, w')
                | (Ok _, w') =>
                    match updateNotifiedJobs jobs selected (dateFormat config) with
                    | (Throw e, rows) => (Throw e, setJobsTab w' rows)
                    | (Ok _, rows) => (Ok (length selected), setJobsTab w' rows)
                    end
                end
            end
        end
  end.

(** [runJobSearch()] *)
Definition runJobSearch (wb : Workbook) : Result unit * World :=
  let w := services wb in
  match readConfig wb with
  | Throw e => (Throw e, w)
  | Ok config =>
      match getActiveSources (SourcesTab wb) with
      | Throw e => (Throw e, w)
      | Ok sources =>
          match getActiveFilters (FiltersTab wb) with
          | Throw e => (Throw e, w)
          | Ok filters =>
              match sources with
              | [] => (Ok (), w)
              | _ =>
                  match scrapeJobs fetchSingleRSS today sources with
                  | Throw e => (Throw e, w)
                  | Ok rawJobs =>
                      match processJobs generateUniqueID rawJobs filters (Some config) with
                      | Throw e => (Throw e, w)
                      | Ok processedJobs =>
                          match appendJobs processedJobs (Some config) w with
                          | (Throw e, w') => (Throw e, w')
                          | (Ok appendedCount, w') =>
                              match sendJobDigest (Some config) w' with
                              | (Throw e, w'') => (Throw e, w'')
                              | (Ok emailedCount, w'') => (Ok (), w'')
                              end
                          end
                      end
                  end
              end
          end
      end
  end.

End Definitions.

End SheetFailure.

(** ** utils.gs *)

Module Utils.

(** The white space [trim] and [parseInt] skip, among the ASCII code
    units: tab, line feed, vertical tab, form feed, carriage return and
    space. *)
Definition isSpace (c : ascii) : bool :=
  let n := N_of_ascii c in
  (((9 <=? n) && (n <=? 13)) || (n =? 32))%N.

Fixpoint trimStart (s : string) : string :=
  match s with
  | EmptyString => EmptyString
  | String c s' => if isSpace c then trimStart s' else s
  end.

Fixpoint trimEnd (s : string) : string :=
  match s with
  | EmptyString => EmptyString
  | String c s' =>
      match trimEnd s' with
      | EmptyString => if isSpace c then EmptyString else String c EmptyString
      | t => String c t
      end
  end.

(** [s.trim()] *)
Definition trim (s : string) : string := trimEnd (trimStart s).

(** [c.toUpperCase()] on one ASCII code unit: a..z is 97..122. *)
Definition upper_ascii (c : ascii) : ascii :=
  let n := N_of_ascii c in
  if ((97 <=? n) && (n <=? 122))%N then ascii_of_N (n - 32) else c.

(** [s.toUpperCase()] *)
Fixpoint toUpperCase (s : string) : string :=
  match s with
  | EmptyString => EmptyString
  | String c s' => String (upper_ascii c) (toUpperCase s')
  end.

(** The number the leading decimal digits of [s] write, after the digits
    read so far; [None] when there has been no digit. *)
Fixpoint digitsPrefix (s : string) (acc : option Z) : option Z :=
  match s with
  | EmptyString => acc
  | String c s' =>
      match digit_of c with
      | Some d => digitsPrefix s' (Some (10 * default 0 acc + d))
      | None => acc
      end
  end.

(** [parseInt(s, 10)], [None] for NaN: white space, a sign and then as
    many digits as there are. *)
Definition parseInt (s : string) : option Z :=
  match trimStart s with
  | String "-" s' => Z.opp <$> digitsPrefix s' None
  | String "+" s' => digitsPrefix s' None
  | s' => digitsPrefix s' None
  end.

(** [String(n)] and [n.toString()] for an integer or NaN. *)
Definition numberToString (n : option Z) : string :=
  match n with
  | Some n => pretty n
  | None => "NaN"
  end.

Fixpoint repeatChar (n : nat) (c : ascii) : string :=
  match n with
  | O => EmptyString
  | S n' => String c (repeatChar n' c)
  end.

(** [s.padStart(n, c)] for a pad string of one character. *)
Definition padStart (n : nat) (c : ascii) (s : string) : string :=
  repeatChar (n - String.length s) c +:+ s.

(** The name of the counter of a type, and the type as it is printed:
    [type] is [None] when the argument is not a string. *)
Definition safeType (type : option string) : string :=
  match type with
  | Some t => if negb (String.eqb (trim t) "") then trim t else "INFO"
  | None => "INFO"
  end.

Definition counterKey (type : option string) : string :=
  toUpperCase (safeType type) +:+ "_COUNTER".

(** [generateUniqueID(type)] on the script properties: the identifier and
    the properties it leaves. *)
Definition generateUniqueID (type : option string) (props : gmap string string)
  : string * gmap string string :=
  let key := counterKey type in
  let counter := (fun n => n + 1) <$> parseInt (Js.or_else (props !! key) "0") in
  (toUpperCase (safeType type) +:+ "-" +:+ padStart 3 "0" (numberToString counter),
   <[ key := numberToString counter ]> props).

(** [n] calls in a row: the identifiers in the order they were returned. *)
Fixpoint generateMany (type : option string) (n : nat) (props : gmap string string)
  : list string * gmap string string :=
  match n with
  | O => ([], props)
  | S n' =>
      let '(id, props') := generateUniqueID type props in
      let '(ids, props'') := generateMany type n' props' in
      (id :: ids, props'')
  end.

(** A [Date] that is valid: what [getFullYear()], [getMonth()] and
    [getDate()] return, and the day part of [toISOString()], which is the
    day in UTC. *)
Record Date : Type := mkDate {
  getFullYear : Z;
  getMonth : Z;
  getDate : Z;
  isoDay : string
}.

Fixpoint dropChars (n : nat) (s : string) : string :=
  match n, s with
  | S n', String _ s' => dropChars n' s'
  | _, _ => s
  end.

(** [s.replace(pattern, replacement)] for a pattern that is a string and a
    replacement without a dollar sign: the first occurrence is replaced. *)
Fixpoint replace (s pattern replacement : string) : string :=
  if Js.startsWith s pattern
  then replacement +:+ dropChars (String.length pattern) s
  else match s with
       | EmptyString => EmptyString
       | String c s' => String c (replace s' pattern replacement)
       end.

(** [formatDate(date, format)]; [format] is [None] when it is not a
    string, in which case [format.replace] throws and the catch returns the
    day of [toISOString()]. *)
Definition formatDate (date : Date) (format : option string) : string :=
  match format with
  | Some format =>
      let year := pretty (getFullYear date) in
      let month := padStart 2 "0" (pretty (getMonth date + 1)) in
      let day := padStart 2 "0" (pretty (getDate date)) in
      replace (replace (replace format "yyyy" year) "MM" month) "dd" day
  | None => isoDay date
  end.

End Utils.

(** ** [output.gs] and the Filters tab on the runtime's strings and numbers *)

(** [calculateScore] and [getActiveFilters] once more, from the same lines,
    without the two conventions on letters and numbers. [toLowerCase] is
    whatever [String.prototype.toLowerCase] computes on the runtime, for the
    letters of every script. A number is whatever the runtime counts with,
    the doubles of Apps Script; the code uses the number [0], [a + b],
    [Number(v)], [isNaN(v)] and [!v]. The Keyword of a rule is the value of
    its cell, which need not be text. *)
Module Runtime.

Section Definitions.

Variable toLowerCase : string → string.
Variable Num : Type.
Variable zero : Num.
Variable add : Num → Num → Num.

(** A cell as [getValues()] gives it: text (a blank cell is ['']), a
    number, or the boolean of a checkbox. A date cell behaves in every test
    below as a number that is not 0 does. *)
Inductive Value : Type :=
| VStr (s : string)
| VNum (n : Num)
| VBool (b : bool).

(** A rule as [getActiveFilters] pushes it. *)
Record Filter : Type := mkFilter {
  Keyword : Value;
  Weight : Num;
  Type_ : string
}.

(** Only a text Keyword gets as far as [matchedKeywords.push]. *)
Record ScoreResult : Type := mkScore {
  score : Num;
  matchedKeywords : list string
}.

(** [`${job.Title} ${job.Company} ${job.Location} ${job.Snippet}`.toLowerCase()] *)
Definition allText (job : Job) : string :=
  toLowerCase
    (Js.template (Title job) +:+ " " +:+ Js.template (Company job) +:+ " " +:+
     Js.template (Location job) +:+ " " +:+ Js.template (Snippet job)).

(** The test of one filter, given its lowercased keyword;
    [job.Title.toLowerCase()] throws a [TypeError] when the job has no
    [Title]. *)
Definition isMatch (job : Job) (allText : string) (filter : Filter) (keyword : string)
  : Result bool :=
  if String.eqb (Type_ filter) "title" then
    match Title job with
    | Some title => Ok (Js.includes (toLowerCase title) keyword)
    | None => Throw (TypeError "Cannot read properties of undefined (reading 'toLowerCase')")
    end
  else if String.eqb (Type_ filter) "any" || String.eqb (Type_ filter) "negative" then
    Ok (Js.includes allText keyword)
  else Ok false.

(** The body of the loop over the filters; [filter.Keyword.toLowerCase()]
    comes first and is not a function on a number or a boolean. *)
Definition score_step (job : Job) (allText : string) (acc : ScoreResult)
    (filter : Filter) : Result ScoreResult :=
  match Keyword filter with
  | VStr text =>
      m ← isMatch job allText filter (toLowerCase text);
      if m : bool then
        Ok {| score := add (score acc) (Weight filter);
              matchedKeywords := matchedKeywords acc ++ [text] |}
      else Ok acc
  | _ => Throw (TypeError "filter.Keyword.toLowerCase is not a function")
  end.

(** [calculateScore(job, filters)]; an argument that is [undefined], [null]
    or otherwise falsy is [None]. *)
Definition calculateScore (job : option Job) (filters : option (list Filter))
  : Result ScoreResult :=
  match job, filters with
  | Some job, Some filters =>
      for_of (score_step job (allText job)) filters
             {| score := zero; matchedKeywords := [] |}
  | _, _ => Throw (Error "Invalid job or filters")
  end.

(** [!!n] on a number: false on [0] and on NaN. *)
Variable truthy_num : Num → bool.

(** [Number(v)] *)
Variable Number : Value → Num.

(** [isNaN(n)] on a number. *)
Variable isNaN : Num → bool.

(** [!!v] *)
Definition truthy_value (v : Value) : bool :=
  match v with
  | VStr s => negb (String.eqb s "")
  | VNum n => truthy_num n
  | VBool b => b
  end.

(** [typeof v === 'boolean'] *)
Definition isBoolean (v : Value) : bool :=
  match v with
  | VBool _ => true
  | _ => false
  end.

(** [v === s] for a text [s]. *)
Definition strictEquals (v : Value) (s : string) : bool :=
  match v with
  | VStr t => String.eqb t s
  | _ => false
  end.

(** A row of the Filters tab, the header row included. *)
Record FiltersTabRow : Type := mkFiltersRow {
  keywordCell : Value;
  weightCell : Value;
  typeCell : Value;
  filterActiveCell : Value
}.

(** The body of the loop over the rows of the Filters tab;
    [type.toLowerCase] is not a function when the Type cell is not text. *)
Definition filters_step (filters : list Filter) (row : FiltersTabRow)
  : Result (list Filter) :=
  let keyword := keywordCell row in
  let weight := weightCell row in
  let type := typeCell row in
  let active := filterActiveCell row in
  if negb (truthy_value keyword) || isNaN (Number weight) || negb (truthy_value type)
     || negb (isBoolean active)
  then Ok filters
  else if truthy_value active then
    match type with
    | VStr t =>
        if negb (bool_decide (toLowerCase t ∈ filterTypes)) then Ok filters
        else Ok (filters ++ [mkFilter keyword (Number weight) (toLowerCase t)])
    | _ => Throw (TypeError "type.toLowerCase is not a function")
    end
  else Ok filters.

(** [getActiveFilters()] on the Filters tab, [None] when the spreadsheet
    has no such tab. *)
Definition getActiveFilters (tab : option (list FiltersTabRow)) : Result (list Filter) :=
  match tab with
  | None => Throw (Error "Filters tab not found")
  | Some [] | Some [_] => Throw (Error "Filters tab is empty or missing headers")
  | Some (header :: rows) =>
      if negb (strictEquals (keywordCell header) "Keyword")
         || negb (strictEquals (weightCell header) "Weight")
         || negb (strictEquals (typeCell header) "Type")
         || negb (strictEquals (filterActiveCell header) "Active")
      then Throw (Error "Filters tab headers incorrect")
      else for_of filters_step rows []
  end.

End Definitions.

Arguments VStr {Num} s.
Arguments VNum {Num} n.
Arguments VBool {Num} b.
Arguments mkFilter {Num} Keyword Weight Type_.
Arguments Keyword {Num} f.
Arguments Weight {Num} f.
Arguments Type_ {Num} f.
Arguments mkScore {Num} score matchedKeywords.
Arguments score {Num} s.
Arguments matchedKeywords {Num} s.
Arguments isMatch toLowerCase {Num} job allText filter keyword.
Arguments score_step toLowerCase {Num} add job allText acc filter.
Arguments calculateScore toLowerCase {Num} zero add job filters.
Arguments truthy_value {Num} truthy_num v.
Arguments isBoolean {Num} v.
Arguments strictEquals {Num} v s.
Arguments mkFiltersRow {Num} keywordCell weightCell typeCell filterActiveCell.
Arguments keywordCell {Num} f.
Arguments weightCell {Num} f.
Arguments typeCell {Num} f.
Arguments filterActiveCell {Num} f.
Arguments filters_step toLowerCase {Num} truthy_num Number isNaN filters row.
Arguments getActiveFilters toLowerCase {Num} truthy_num Number isNaN tab.

End Runtime.

(** ** What the claims speak of *)

(** The scorer in the words of the data model, for the [toLowerCase] and the
    numbers of any runtime. *)
Module Scoring.

Section Vocabulary.

Variable toLowerCase : string → string.
Context {Num : Type}.

(** The text of a field of a listing; an absent field reads as the word
    undefined. *)
Definition fieldText (field : option string) : string := default "undefined" field.

(** The any-field search corpus: title, organization, location and snippet
    joined by single spaces and lowercased once. *)
Definition corpus (job : Job) : string :=
  toLowerCase (String.concat " " [fieldText (Title job); fieldText (Company job);
                                  fieldText (Location job); fieldText (Snippet job)]).

(** The keyword of a rule, when it is text. *)
Definition keywordText (rule : Runtime.Filter Num) : option string :=
  match Runtime.Keyword rule with
  | Runtime.VStr keyword => Some keyword
  | _ => None
  end.

(** The listing has a title and [kw] occurs in its lowercased text. *)
Definition TitleContains (job : Job) (kw : string) : Prop :=
  ∃ title, Title job = Some title ∧ Js.Substring kw (toLowerCase title).

(** The matching condition of a rule against a listing: a title-only rule
    looks for its lowercased keyword in the lowercased title, an any-field
    or negative rule in the corpus. *)
Definition RuleHolds (job : Job) (rule : Runtime.Filter Num) : Prop :=
  ∃ keyword, keywordText rule = Some keyword ∧
    ((Runtime.Type_ rule = "title" ∧ TitleContains job (toLowerCase keyword))
     ∨ ((Runtime.Type_ rule = "any" ∨ Runtime.Type_ rule = "negative") ∧
        Js.Substring (toLowerCase keyword) (corpus job))).

(** The scorer can read what it needs: a text keyword in every rule, and
    the title of the listing unless no rule of the list is a title rule. *)
Definition Readable (job : Job) (filters : list (Runtime.Filter Num)) : Prop :=
  Forall (λ rule, is_Some (keywordText rule)) filters ∧
  (is_Some (Title job) ∨ Forall (λ rule, Runtime.Type_ rule ≠ "title") filters).

(** The weights added up one after the other, from the number 0. *)
Definition total (zero : Num) (add : Num → Num → Num) (weights : list Num) : Num :=
  fold_left add weights zero.

End Vocabulary.

End Scoring.

(** The any-field search corpus with the letters of ASCII folded. *)
Definition corpus (job : Job) : string := Scoring.corpus Js.toLowerCase job.

(** The listing has a title and [kw] occurs in its lowercased text. *)
Definition TitleContains (job : Job) (kw : string) : Prop :=
  ∃ title, Title job = Some title ∧ Js.Substring kw (Js.toLowerCase title).

(** The matching condition of a rule against a listing: a title-only rule
    looks for its lowercased keyword in the lowercased title, an any-field
    or negative rule in the corpus. *)
Definition RuleHolds (job : Job) (rule : Filter) : Prop :=
  (Type_ rule = "title" ∧ TitleContains job (Js.toLowerCase (Keyword rule)))
  ∨ ((Type_ rule = "any" ∨ Type_ rule = "negative") ∧
     Js.Substring (Js.toLowerCase (Keyword rule)) (corpus job)).

(** The sum of a list of weights. *)
Definition sumZ (xs : list Z) : Z := foldr Z.add 0 xs.

(** The scorer can read what it needs of the listing: the title, unless no
    rule of the list is a title rule. *)
Definition Scorable (job : Job) (filters : list Filter) : Prop :=
  is_Some (Title job) ∨ Forall (λ rule, Type_ rule ≠ "title") filters.

(** A raw listing passes the validity test of [processJobs]. *)
Definition validRaw (job : Job) : bool :=
  Js.truthy (Title job) && Js.truthy (Link job) && Js.truthy (Source job).

(** The status [processJobs] gives to a score. *)
Definition statusOf (config : Config) (s : Z) : string :=
  match minScore config with
  | Some m => if m <=? s then "New" else "Ignore"
  | None => "Ignore"
  end.

(** [p] is the output entry made from the raw listing [job]. *)
Definition Emitted (filters : list Filter) (config : Config) (job p : Job) : Prop :=
  ∃ r, calculateScore (Some job) (Some filters) = Ok r ∧
       Link p = Link job ∧ Title p = Title job ∧ Source p = Source job ∧
       DateFound p = DateFound job ∧
       Score p = Some (score r) ∧
       MatchedKeywords p = Some (Js.join ", " (matchedKeywords r)) ∧
       Status p = Some (statusOf config (score r)) ∧
       DateNotified p = Some "".

(** The row [updateNotifiedJobs] writes for an emailed job. *)
Definition notified (today : string) (row : Job) : Job :=
  {| ID := ID row; DateFound := DateFound row; Title := Title row;
     Company := Company row; Location := Location row; Link := Link row;
     Source := Source row; Snippet := Snippet row; Score := Score row;
     MatchedKeywords := MatchedKeywords row;
     Status := Some "Notified";
     DateNotified := Some today |}.

(** What one source contributes to the result of [scrapeJobs]: its jobs
    when it is valid and its fetch returns, nothing otherwise. *)
Definition fetched (fetchSingleRSS : string → string → string → Result (list Job))
    (today : string) (source : SourceRow) : list Job :=
  if Js.truthy (SourceName source) && Js.truthy (URL source) then
    match fetchSingleRSS (Js.template (URL source)) (Js.template (SourceName source)) today with
    | Ok sourceJobs => sourceJobs
    | Throw _ => []
    end
  else [].

(** ** Test data *)

(** The listing [{Title: 'POWER'}] and the rule
    [{Keyword: 'power', Type: 'title', Weight: 5}]. *)
Definition listing_POWER : Job :=
  mkJob None None (Some "POWER") None None None None None None None None None.

Definition rule_power : Filter := mkFilter "power" 5 "title".

(** The same rule as its cell values, its weight a number of whatever
    kind. *)
Definition rule_power_of {Num : Type} (five : Num) : Runtime.Filter Num :=
  Runtime.mkFilter (Runtime.VStr "power") five "title".

(** A [toLowerCase] on texts spelled in Latin-1 that folds the capital
    letters of that alphabet too, À to Þ (192 to 222, the sign × apart). *)
Definition lower_latin1 (c : ascii) : ascii :=
  let n := N_of_ascii c in
  if (((65 <=? n) && (n <=? 90)) || ((192 <=? n) && (n <=? 222) && negb (n =? 215)))%N
  then ascii_of_N (n + 32) else c.

Fixpoint latin1_toLowerCase (s : string) : string :=
  match s with
  | EmptyString => EmptyString
  | String c s' => String (lower_latin1 c) (latin1_toLowerCase s')
  end.

(** The listing [{Title: 'BÜRO Leitung'}] and the rule
    [{Keyword: 'büro', Type: 'title', Weight: 5}], in Latin-1. *)
Definition listing_BUERO : Job :=
  mkJob None None (Some ("B" +:+ String (ascii_of_N 220) "RO Leitung")) None None None
        None None None None None None.

Definition rule_buero : Runtime.Filter Z :=
  Runtime.mkFilter (Runtime.VStr ("b" +:+ String (ascii_of_N 252) "ro")) 5 "title".

(** A listing without a title, and a rule whose Keyword cell holds the
    number 2025. *)
Definition listing_untitled : Job :=
  mkJob None None None (Some "Energy Grid Co") None None None None None None None None.

Definition rule_2025 : Runtime.Filter Z :=
  Runtime.mkFilter (Runtime.VNum 2025) 3 "any".

(** The listing [{Title: 'Job'}]: no organization, location or snippet. *)
Definition listing_Job : Job :=
  mkJob None None (Some "Job") None None None None None None None None None.

(** The batch of [testOutput]: two listings and a third with the link of the
    first, scored against three rules with a minimum score of 1. *)
Definition mockConfig : Config :=
  mkConfig None (Some 1) None (Some "link") (Some "yyyy-MM-dd") None.

Definition mockFilters : list Filter :=
  [mkFilter "Power Systems" 10 "title"; mkFilter "Germany" 4 "any";
   mkFilter "Intern" (-10) "negative"].

Definition mockJob (id title company location link : string) : Job :=
  mkJob (Some id) (Some "2025-09-13") (Some title) (Some company) (Some location)
        (Some link) (Some "TestSource") (Some (title +:+ " from TestSource"))
        None None None None.

Definition mockJobs : list Job :=
  [mockJob "INFO-001" "Senior Power Systems Engineer" "Energy Grid Co" "Berlin, Germany"
           "https://example.com/job1";
   mockJob "INFO-002" "Intern Developer" "Startup Inc" "Munich" "https://example.com/job2";
   mockJob "INFO-003" "Power Systems Duplicate" "Energy Grid Co" "Berlin, Germany"
           "https://example.com/job1"].

Definition mockIDs (n : nat) : string := "INFO-000".

(** The Config tab of the README with a minimum score of 0. *)
Definition zeroConfigTab : list (string * Cell) :=
  [("Key", CStr "Value");
   ("emailRecipient", CStr "your.email@gmail.com");
   ("topN", CNum 10);
   ("minScore", CNum 0);
   ("dedupeBy", CStr "link");
   ("dateFormat", CStr "yyyy-MM-dd")].

(** The config [getConfig] makes of it. *)
Definition zeroConfig : Config :=
  mkConfig (Some "your.email@gmail.com") (Some 0) (Some 10) (Some "link")
           (Some "yyyy-MM-dd") None.

(** A Jobs tab of six rows: two eligible rows tie at score 5, one row was
    notified before, one scores below the minimum, one is rejected. *)
Definition digestRow (id : string) (s : Z) (status notified : string) : Job :=
  mkJob (Some id) (Some "2025-09-13") (Some ("Job " +:+ id)) (Some "") (Some "")
        (Some ("https://example.com/" +:+ id)) (Some "TestSource")
        (Some ("Job " +:+ id +:+ " from TestSource")) (Some s) (Some "CIO")
        (Some status) (Some notified).

Definition digestRows : list Job :=
  [digestRow "A" 5 "New" ""; digestRow "B" 10 "New" "";
   digestRow "C" 5 "New" ""; digestRow "D" 10 "New" "2025-09-12";
   digestRow "E" 0 "New" ""; digestRow "F" 7 "Ignore" ""].

Definition digestConfig : Config :=
  mkConfig (Some "test@example.com") (Some 1) (Some 2) (Some "link")
           (Some "yyyy-MM-dd") (Some (CStr "mockDocId123")).

Definition digestWorld : World :=
  mkWorld (Some "sheet-id") (Some digestRows) None [].

Definition digestDay (fmt : option string) : string := "2025-09-14".

(** The feeds of [testScraper]: the first returns one job, the second
    throws. *)
Definition mockFetch (url sourceName today : string) : Result (list Job) :=
  if String.eqb url "https://example.com/feed" then
    Ok [mkJob (Some "INFO-001") (Some today) (Some "Test Job") (Some "") (Some "")
              (Some "https://example.com/job1") (Some sourceName)
              (Some "Test job description") None None None None]
  else if String.eqb url "https://example.com/invalid-feed" then
    Throw (Error "XML parsing failed: Invalid XML structure")
  else Throw (Error "HTTP fetch failed: Request timed out").

Definition mockSources : list SourceRow :=
  [mkSource (Some "Invalid RSS") (Some "https://example.com/invalid-feed") (Some "");
   mkSource (Some "Mock RSS") (Some "https://example.com/feed") (Some "");
   mkSource (Some "Timeout RSS") (Some "https://example.com/slow-feed") (Some "")].

(** A feed item whose link is a mail address: a well-formed link with an
    explicit scheme and without the text http. *)
Definition mailtoJobs : list Job :=
  [mockJob "INFO-004" "Power Systems Engineer" "Energy Grid Co" "Berlin, Germany"
           "mailto:jobs@energygrid.example"].

Definition emptyJobsTab : World := mkWorld (Some "sheet-id") (Some []) None [].

(** ** What the further properties speak of *)

(** The cell holds an integer that [Number] reads exactly: a number, or a
    text of decimal digits after an optional minus sign, of magnitude up to
    2^53. Cells with blanks around the digits, a plus sign, a fraction, an
    exponent or a hexadecimal numeral, and numbers with a fraction, are
    not of this kind. *)
Definition integerCell (v : Cell) : bool :=
  match Number v with
  | Some n => Z.abs n <=? 2 ^ 53
  | None => false
  end.

(** The [minScore] and [topN] rows of a Config tab hold such integers. *)
Definition integerSettings (data : list (string * Cell)) : Prop :=
  Forall (λ row, row.1 = "minScore" ∨ row.1 = "topN" → integerCell row.2 = true) data.

(** A job without its identifier. The identifiers of the jobs of a feed
    come from the counter that every log line of the run advances, so they
    differ from one run to the next. *)
Definition eraseID (job : Job) : Job :=
  {| ID := None; DateFound := DateFound job; Title := Title job;
     Company := Company job; Location := Location job; Link := Link job;
     Source := Source job; Snippet := Snippet job; Score := Score job;
     MatchedKeywords := MatchedKeywords job; Status := Status job;
     DateNotified := DateNotified job |}.

(** A feed answers the same in two runs: it fails in both, or gives the
    same jobs in both, identifiers apart. *)
Definition sameFeed (a b : Result (list Job)) : Prop :=
  match a, b with
  | Ok jobs, Ok jobs' => eraseID <$> jobs = eraseID <$> jobs'
  | Throw _, Throw _ => True
  | _, _ => False
  end.

(** The job can be shown in the table of the digest: it has a title and a
    link. *)
Definition shown (job : Job) : bool := Js.truthy (Title job) && Js.truthy (Link job).

(** What [updateNotifiedJobs] can leave of a row when one of its writes
    fails: the row untouched, the row with its status written, or the row
    with its status and the day written. *)
Definition partlyNotified (day : string) (row row' : Job) : Prop :=
  row' = row ∨ row' = SheetFailure.setStatus row ∨ row' = notified day row.

(** A runtime that counts with the integers and NaN ([None]), and whose
    [Number] reads the integer literals only: the numbers of the pipeline. *)
Definition intNumber (v : Runtime.Value (option Z)) : option Z :=
  match v with
  | Runtime.VStr s => Number (CStr s)
  | Runtime.VNum n => n
  | Runtime.VBool b => Some (if b then 1 else 0)
  end.

Definition intTruthy (n : option Z) : bool := Js.truthy_num n.

Definition intIsNaN (n : option Z) : bool := bool_decide (n = None).

(** A rule of the pipeline on that runtime. *)
Definition integerRule (rule : Filter) : Runtime.Filter (option Z) :=
  Runtime.mkFilter (Runtime.VStr (Keyword rule)) (Some (Weight rule)) (Type_ rule).

(** A cell and a row of the Filters tab of the pipeline, on that runtime. *)
Definition runtimeValue (v : Value) : Runtime.Value (option Z) :=
  match v with
  | VStr s => Runtime.VStr s
  | VNum n => Runtime.VNum (Some n)
  | VBool b => Runtime.VBool b
  end.

Definition runtimeRow (row : FiltersTabRow) : Runtime.FiltersTabRow (option Z) :=
  Runtime.mkFiltersRow (Runtime.VStr (keywordCell row)) (runtimeValue (weightCell row))
                       (runtimeValue (typeCell row)) (runtimeValue (filterActiveCell row)).

(** The header row of the Filters tab reads Keyword, Weight, Type, Active. *)
Definition isFiltersHeader {Num : Type} (row : Runtime.FiltersTabRow Num) : bool :=
  Runtime.strictEquals (Runtime.keywordCell row) "Keyword"
  && Runtime.strictEquals (Runtime.weightCell row) "Weight"
  && Runtime.strictEquals (Runtime.typeCell row) "Type"
  && Runtime.strictEquals (Runtime.filterActiveCell row) "Active".

Section FiltersTabRows.

Variable toLowerCase : string → string.
Context {Num : Type}.
Variable truthy_num : Num → bool.
Variable Number : Runtime.Value Num → Num.
Variable isNaN : Num → bool.

(** The row has a keyword, a weight that is a number and a ticked
    checkbox. *)
Definition activeRow (row : Runtime.FiltersTabRow Num) : bool :=
  Runtime.truthy_value truthy_num (Runtime.keywordCell row)
  && negb (isNaN (Number (Runtime.weightCell row)))
  && match Runtime.filterActiveCell row with
     | Runtime.VBool true => true
     | _ => false
     end.

(** What a row of the Filters tab stands for: the rule it gives when it is
    active and its type is a text, not blank, that is title, any or
    negative in any letter case, and nothing otherwise. The rule carries the keyword cell as it
    is. *)
Definition activeRule (row : Runtime.FiltersTabRow Num) : option (Runtime.Filter Num) :=
  match Runtime.typeCell row with
  | Runtime.VStr t =>
      if activeRow row && negb (String.eqb t "")
         && bool_decide (toLowerCase t ∈ filterTypes)
      then Some (Runtime.mkFilter (Runtime.keywordCell row)
                                  (Number (Runtime.weightCell row)) (toLowerCase t))
      else None
  | _ => None
  end.

(** An active row whose type is a number other than 0 or a ticked
    checkbox: the row on which [type.toLowerCase] is not a function. *)
Definition typeNotText (row : Runtime.FiltersTabRow Num) : bool :=
  activeRow row
  && match Runtime.typeCell row with
     | Runtime.VStr _ => false
     | v => Runtime.truthy_value truthy_num v
     end.

End FiltersTabRows.

(** A rule with a text keyword and an integer weight as the runtime holds
    it: [ofZ] gives the number of the runtime for an integer. *)
Definition ruleOf {Num : Type} (ofZ : Z → Num) (rule : Filter) : Runtime.Filter Num :=
  Runtime.mkFilter (Runtime.VStr (Keyword rule)) (ofZ (Weight rule)) (Type_ rule).

(** The magnitudes of a list of weights, added up. *)
Definition sumAbs (xs : list Z) : Z := foldr (λ x acc, Z.abs x + acc) 0 xs.

(** Two fields differ in letter case at most: both are absent, or both are
    texts that [toLowerCase] makes the same. *)
Definition sameField (toLowerCase : string → string) (a b : option string) : Prop :=
  match a, b with
  | Some x, Some y => toLowerCase x = toLowerCase y
  | None, None => True
  | _, _ => False
  end.

(** Two rules differ in the letter case of their keyword at most. *)
Definition sameRule (toLowerCase : string → string) {Num : Type}
    (a b : Runtime.Filter Num) : Prop :=
  match Runtime.Keyword a, Runtime.Keyword b with
  | Runtime.VStr x, Runtime.VStr y => toLowerCase x = toLowerCase y
  | Runtime.VStr _, _ | _, Runtime.VStr _ => False
  | _, _ => True
  end
  ∧ Runtime.Weight a = Runtime.Weight b ∧ Runtime.Type_ a = Runtime.Type_ b.

(** Two outcomes of the scorer differ in the letter case of the matched
    keywords at most. *)
Definition sameOutcome (toLowerCase : string → string) {Num : Type}
    (a b : Result (Runtime.ScoreResult Num)) : Prop :=
  match a, b with
  | Ok r, Ok r' =>
      Runtime.score r = Runtime.score r' ∧
      Forall2 (λ k k', toLowerCase k = toLowerCase k')
              (Runtime.matchedKeywords r) (Runtime.matchedKeywords r')
  | Throw e, Throw e' => e = e'
  | _, _ => False
  end.

(** What a row of the Sources tab stands for: the source it names when it
    has a name, a text URL with the letters http in it and a ticked
    checkbox, and nothing otherwise. *)
Definition activeSource (row : SourcesTabRow) : option SourceRow :=
  match urlCell row, sourceActiveCell row with
  | VStr u, VBool true =>
      if negb (String.eqb (sourceNameCell row) "") && Js.includes u "http"
      then Some (mkSource (Some (sourceNameCell row)) (Some u) (Some (notesCell row)))
      else None
  | _, _ => None
  end.

Definition sourcesHeader : SourcesTabRow :=
  mkSourcesRow "SourceName" (VStr "URL") "Notes" (VStr "Active").

Definition filtersHeader : FiltersTabRow :=
  mkFiltersRow "Keyword" (VStr "Weight") (VStr "Type") (VStr "Active").

(** What [fetchSingleRSS] puts into a job it makes for the source
    [sourceName] on the day [today]: a title, a link, the source and the
    day, an identifier, and a company, a location and a snippet of at most
    500 characters that are texts, blank at worst; no score and no status
    yet. *)
Definition FeedJob (sourceName today : string) (job : Job) : Prop :=
  Js.truthy (Title job) = true ∧ Js.truthy (Link job) = true ∧
  Source job = Some sourceName ∧ DateFound job = Some today ∧
  is_Some (ID job) ∧ is_Some (Company job) ∧ is_Some (Location job) ∧
  (∃ snippet, Snippet job = Some snippet ∧ (String.length snippet ≤ 500)%nat) ∧
  Score job = None ∧ MatchedKeywords job = None ∧ Status job = None ∧
  DateNotified job = None.

(** Two rows show the same listing: they agree on everything but the status
    and the day of notification. *)
Definition sameListing (a b : Job) : Prop :=
  ID a = ID b ∧ DateFound a = DateFound b ∧ Title a = Title b ∧
  Company a = Company b ∧ Location a = Location b ∧ Link a = Link b ∧
  Source a = Source b ∧ Snippet a = Snippet b ∧ Score a = Score b ∧
  MatchedKeywords a = MatchedKeywords b.

Definition afterRun (wb : Workbook) (w : World) : Workbook :=
  mkWorkbook (ConfigTab wb) (SourcesTab wb) (FiltersTab wb) w.

(** The identifier of the type [type] with the number [n]. *)
Definition idOf (type : option string) (n : Z) : string :=
  Utils.toUpperCase (Utils.safeType type) +:+ "-" +:+ Utils.padStart 3 "0" (pretty n).

(** The number the counter of [type] holds, as the next call reads it. *)
Definition counterOf (type : option string) (props : gmap string string) : option Z :=
  Utils.parseInt (Js.or_else (props !! Utils.counterKey type) "0").

(** The string begins with a decimal digit. *)
Definition startsDigit (s : string) : Prop :=
  match s with
  | String c _ => is_Some (digit_of c)
  | EmptyString => False
  end.

(** The character [c] occurs in [s]. *)
Fixpoint occurs (c : ascii) (s : string) : bool :=
  match s with
  | EmptyString => false
  | String x s' => Ascii.eqb x c || occurs c s'
  end.

(** A numeral holds digits and at most a minus sign. *)
Definition numeric (c : ascii) : bool :=
  let n := N_of_ascii c in (((48 <=? n) && (n <=? 57)) || (n =? 45))%N.

(** ** Further test data *)

(** An addition that rounds: a sum above 8 comes down to 8. *)
Definition saturating (a b : Z) : Z := Z.min 8 (a + b).

(** The feeds of [mockFetch] in a later run: the same jobs under another
    identifier. *)
Definition laterFetch (url sourceName today : string) : Result (list Job) :=
  match mockFetch url sourceName today with
  | Ok jobs =>
      Ok ((λ job, mkJob (Some "INFO-042") (DateFound job) (Title job) (Company job)
                        (Location job) (Link job) (Source job) (Snippet job) (Score job)
                        (MatchedKeywords job) (Status job) (DateNotified job)) <$> jobs)
  | Throw e => Throw e
  end.

(** A Jobs tab with two eligible rows, the better one with a blank
    title. *)
Definition blankTitleRows : list Job :=
  [digestRow "A" 5 "New" "";
   mkJob (Some "B") (Some "2025-09-13") (Some "") (Some "") (Some "")
         (Some "https://example.com/B") (Some "TestSource") (Some "") (Some 10) (Some "CIO")
         (Some "New") (Some "")].

Definition blankTitleWorld : World :=
  mkWorld (Some "sheet-id") (Some blankTitleRows) None [].

(** A Filters tab with a row whose keyword is the number 2025. *)
Definition numericKeywordTab : list (Runtime.FiltersTabRow (option Z)) :=
  [Runtime.mkFiltersRow (Runtime.VStr "Keyword") (Runtime.VStr "Weight")
                        (Runtime.VStr "Type") (Runtime.VStr "Active");
   Runtime.mkFiltersRow (Runtime.VStr "Power Systems") (Runtime.VNum (Some 10))
                        (Runtime.VStr "Title") (Runtime.VBool true);
   Runtime.mkFiltersRow (Runtime.VNum (Some 2025)) (Runtime.VStr "4")
                        (Runtime.VStr "any") (Runtime.VBool true);
   Runtime.mkFiltersRow (Runtime.VStr "Intern") (Runtime.VStr "many")
                        (Runtime.VStr "negative") (Runtime.VBool true);
   Runtime.mkFiltersRow (Runtime.VStr "Remote") (Runtime.VNum (Some 2))
                        (Runtime.VStr "anywhere") (Runtime.VBool true);
   Runtime.mkFiltersRow (Runtime.VStr "DevOps") (Runtime.VNum (Some 3))
                        (Runtime.VNum (Some 7)) (Runtime.VBool false)].

Definition numericKeywordRules : list (Runtime.Filter (option Z)) :=
  [Runtime.mkFilter (Runtime.VStr "Power Systems") (Some 10) "title";
   Runtime.mkFilter (Runtime.VNum (Some 2025)) (Some 4) "any"].

(** The batch [processJobs] makes of [mockJobs]. *)
Definition mockBatch : list Job :=
  match processJobs mockIDs mockJobs mockFilters (Some mockConfig) with
  | Ok out => out
  | Throw _ => []
  end.

Definition mockAppended : World := (appendJobs mockBatch (Some mockConfig) emptyJobsTab).2.

(** A listing that no rule matches, with a minimum score low enough to
    accept it. *)
Definition plainJobs : list Job :=
  [mockJob "INFO-005" "Gardener" "Parks" "Kassel" "https://example.com/job5"].

Definition lenientConfig : Config :=
  mkConfig None (Some (-5)) None (Some "link") (Some "yyyy-MM-dd") None.

(** The Config tab of the README as it comes: a minimum score of 1, no
    cover letter document. *)
Definition readmeConfigTab : list (string * Cell) :=
  [("Key", CStr "Value");
   ("emailRecipient", CStr "your.email@gmail.com");
   ("topN", CNum 10);
   ("minScore", CNum 1);
   ("dedupeBy", CStr "link");
   ("dateFormat", CStr "yyyy-MM-dd");
   ("coverLetterDocId", CStr "");
   ("keywords", CStr "Grid Connection,Power Systems,DevOps,German,Berlin")].

Definition readmeConfig : Config :=
  mkConfig (Some "your.email@gmail.com") (Some 1) (Some 10) (Some "link")
           (Some "yyyy-MM-dd") None.

(** The Sources tab of the README, and a Filters tab in the same style. *)
Definition readmeSourcesTab : list SourcesTabRow :=
  [sourcesHeader;
   mkSourcesRow "We Work Remotely" (VStr "https://weworkremotely.com/remote-jobs.rss")
                "Remote tech jobs" (VBool true);
   mkSourcesRow "Remotive" (VStr "https://remotive.com/feed") "Curated remote jobs"
                (VBool true)].

Definition readmeSources : list SourceRow :=
  [mkSource (Some "We Work Remotely") (Some "https://weworkremotely.com/remote-jobs.rss")
            (Some "Remote tech jobs");
   mkSource (Some "Remotive") (Some "https://remotive.com/feed")
            (Some "Curated remote jobs")].

Definition sampleFiltersTab : list FiltersTabRow :=
  [filtersHeader;
   mkFiltersRow "Power Systems" (VNum 10) (VStr "Title") (VBool true);
   mkFiltersRow "Germany" (VStr "4") (VStr "any") (VBool true);
   mkFiltersRow "Intern" (VNum (-10)) (VStr "NEGATIVE") (VBool true);
   mkFiltersRow "DevOps" (VNum 3) (VStr "any") (VBool false);
   mkFiltersRow "Berlin" (VNum 3) (VStr "any") (VStr "TRUE");
   mkFiltersRow "Remote" (VNum 2) (VStr "anywhere") (VBool true);
   mkFiltersRow "" (VNum 2) (VStr "any") (VBool true)].

(** A feed of three items, the second without a link, and the services of
    a run in which it is the only feed that answers. *)
Definition sampleItem (title link : string) : Element :=
  mkElement "item" ""
    [mkElement "title" title []; mkElement "link" link [];
     mkElement "pubDate" "2025-09-13" []; mkElement "description" "Test job description" []].

Definition sampleFeed : Element :=
  mkElement "rss" ""
    [mkElement "channel" ""
       [mkElement "title" "Mock RSS" [];
        sampleItem "Power Systems Engineer" "https://example.com/job1";
        sampleItem "No Link" "";
        sampleItem "" "https://example.com/job3"]].

Definition sampleFetch (url : string) : Result HTTPResponse :=
  if String.eqb url "https://example.com/feed" then Ok (mkResponse 200 "<rss/>")
  else if String.eqb url "https://example.com/gone" then Ok (mkResponse 404 "Not Found")
  else Throw (Error "Request timed out").

Definition sampleParse (text : string) : Result Element :=
  if String.eqb text "<rss/>" then Ok sampleFeed else Throw (Error "Invalid XML structure").

Definition sampleIDs (n : nat) : string := "INFO-" +:+ pretty n.


(** Workbooks: the one the README describes, which has no Filters tab; one
    with the Config tab of the README, three sources and the sample
    filters; and the same with a cover letter document or a minimum score
    of 0 in its Config tab. *)
Definition sampleSourcesTab : list SourcesTabRow :=
  [sourcesHeader;
   mkSourcesRow "Gone RSS" (VStr "https://example.com/gone") "" (VBool true);
   mkSourcesRow "Mock RSS" (VStr "https://example.com/feed") "" (VBool true);
   mkSourcesRow "Paused RSS" (VStr "https://example.com/feed") "" (VBool false);
   mkSourcesRow "Slow RSS" (VStr "https://example.com/slow-feed") "" (VBool true)].

Definition fullConfigTab : list (string * Cell) :=
  [("Key", CStr "Value");
   ("emailRecipient", CStr "your.email@gmail.com");
   ("topN", CNum 10);
   ("minScore", CNum 1);
   ("dedupeBy", CStr "link");
   ("dateFormat", CStr "yyyy-MM-dd");
   ("coverLetterDocId", CStr "mockDocId123")].


Definition sampleWorkbook (config : list (string * Cell)) : Workbook :=
  mkWorkbook (Some config) (Some sampleSourcesTab) (Some sampleFiltersTab) emptyJobsTab.

(** The run on the sample feeds. *)
Definition sampleRun (wb : Workbook) : Result unit * World :=
  runJobSearch (fetchSingleRSS sampleFetch sampleParse sampleIDs) "2025-09-13" digestDay
               mockIDs wb.

Definition zeroWorkbook : Workbook := sampleWorkbook zeroConfigTab.

(** ** Loops *)

Lemma for_of_cons {A S : Type} (body : S → A → Result S) (x : A) (xs : list A) (s : S) :
  for_of body (x :: xs) s = body s x ≫= for_of body xs.
Proof. reflexivity. Qed.

(** ** Strings *)

Section StringFacts.

Lemma append_assoc (a b c : string) : (a +:+ b) +:+ c = a +:+ b +:+ c.
Proof. induction a as [|x a IH]; simpl; [done | by rewrite IH]. Qed.

Lemma toLowerCase_app (a b : string) :
  Js.toLowerCase (a +:+ b) = Js.toLowerCase a +:+ Js.toLowerCase b.
Proof. induction a as [|x a IH]; simpl; [done | by rewrite IH]. Qed.

Lemma startsWith_spec (s p : string) :
  Js.startsWith s p = true ↔ ∃ r, s = p +:+ r.
Proof.
  revert s. induction p as [|a p IH]; intros s; simpl.
  - split; [intros _; by exists s | done].
  - destruct s as [|b s].
    + split; [done | intros [r Hr]; discriminate].
    + destruct (Ascii.eqb_spec a b) as [->|Hab].
      * rewrite IH. split; intros [r Hr]; exists r; [by rewrite Hr | by injection Hr].
      * split; [done | intros [r Hr]; injection Hr; congruence].
Qed.

Lemma includes_unfold (s kw : string) :
  Js.includes s kw =
  if Js.startsWith s kw then true
  else match s with
       | EmptyString => false
       | String _ s' => Js.includes s' kw
       end.
Proof. by destruct s. Qed.

Lemma includes_spec (s kw : string) :
  Js.includes s kw = true ↔ Js.Substring kw s.
Proof.
  split.
  - induction s as [|c s IH]; rewrite includes_unfold;
      destruct (Js.startsWith _ kw) eqn:Hp; try done.
    + intros _. apply startsWith_spec in Hp as [r Hr]. by exists "", r.
    + intros _. apply startsWith_spec in Hp as [r Hr]. by exists "", r.
    + intros H. destruct (IH H) as (a & b & ->). by exists (String c a), b.
  - intros (a & b & ->). induction a as [|c a IH]; rewrite includes_unfold.
    + assert (Js.startsWith ("" +:+ kw +:+ b) kw = true) as ->; [|done].
      apply startsWith_spec. by exists b.
    + simpl. rewrite IH. by destruct (Js.startsWith _ kw).
Qed.

Lemma Substring_app_l (t s a : string) : Js.Substring t s → Js.Substring t (a +:+ s).
Proof.
  intros (x & y & ->). exists (a +:+ x), y. by rewrite append_assoc.
Qed.

Lemma Substring_app_r (t s b : string) : Js.Substring t s → Js.Substring t (s +:+ b).
Proof.
  intros (x & y & ->). exists x, (y +:+ b). by rewrite !append_assoc.
Qed.

Lemma Substring_trans (t u s : string) :
  Js.Substring t u → Js.Substring u s → Js.Substring t s.
Proof.
  intros (x & y & ->) Hs. destruct Hs as (a & b & ->).
  exists (a +:+ x), (y +:+ b). by rewrite !append_assoc.
Qed.

End StringFacts.

#[global] Instance Substring_dec (t s : string) : Decision (Js.Substring t s).
Proof.
  destruct (Js.includes s t) eqn:H.
  - left. by apply includes_spec.
  - right. intros Hs. apply includes_spec in Hs. congruence.
Defined.

#[global] Instance TitleContains_dec (job : Job) (kw : string) :
  Decision (TitleContains job kw).
Proof.
  unfold TitleContains. destruct (Title job) as [title|].
  - destruct (decide (Js.Substring kw (Js.toLowerCase title))) as [Hs|Hs].
    + left. by exists title.
    + right. intros (t & Ht & Hsub). by injection Ht as <-.
  - right. by intros (t & Ht & _).
Defined.

#[global] Instance RuleHolds_dec (job : Job) (rule : Filter) : Decision (RuleHolds job rule).
Proof. unfold RuleHolds. apply _. Defined.

(** ** The scorer *)

Section Scorer.

Lemma allText_corpus (job : Job) : allText job = corpus job.
Proof. reflexivity. Qed.

Lemma includes_decide (s kw : string) :
  Js.includes s kw = bool_decide (Js.Substring kw s).
Proof.
  destruct (Js.includes s kw) eqn:H; symmetry.
  - apply bool_decide_eq_true_2. by apply includes_spec.
  - apply bool_decide_eq_false_2. rewrite <- includes_spec. congruence.
Qed.

(** The test the loop makes is the matching condition; it can only throw on
    a title rule against a listing without a title. *)
Lemma isMatch_RuleHolds (job : Job) (rule : Filter) :
  (Type_ rule = "title" → is_Some (Title job)) →
  isMatch job (allText job) rule = Ok (bool_decide (RuleHolds job rule)).
Proof.
  intros Ht. unfold isMatch.
  destruct (String.eqb_spec (Type_ rule) "title") as [E|E].
  - destruct (Ht E) as [title Htitle]. rewrite Htitle, includes_decide. f_equal.
    apply bool_decide_ext. unfold RuleHolds, TitleContains. rewrite E, Htitle. split.
    + intros Hs. left. split; [done|]. by exists title.
    + intros [(_ & t & [= <-] & Hs)|([?|?] & _)]; done.
  - rewrite allText_corpus.
    destruct (String.eqb_spec (Type_ rule) "any") as [Ea|Ea];
      [|destruct (String.eqb_spec (Type_ rule) "negative") as [En|En]]; simpl;
      rewrite ?includes_decide; f_equal.
    + apply bool_decide_ext. unfold RuleHolds. intuition congruence.
    + apply bool_decide_ext. unfold RuleHolds. intuition congruence.
    + symmetry. apply bool_decide_eq_false_2. unfold RuleHolds. intuition congruence.
Qed.

Lemma score_step_RuleHolds (job : Job) (acc : ScoreResult) (rule : Filter) :
  (Type_ rule = "title" → is_Some (Title job)) →
  score_step job (allText job) acc rule =
  Ok (if bool_decide (RuleHolds job rule)
      then {| score := score acc + Weight rule;
              matchedKeywords := matchedKeywords acc ++ [Keyword rule] |}
      else acc).
Proof.
  intros Ht. unfold score_step. rewrite isMatch_RuleHolds by done. simpl.
  by destruct (bool_decide _).
Qed.

(** A step can only throw the [TypeError] of a missing title. *)
Lemma score_step_throw (job : Job) (acc : ScoreResult) (rule : Filter) (e : Exn) :
  score_step job (allText job) acc rule = Throw e → ∃ msg, e = TypeError msg.
Proof.
  unfold score_step, isMatch.
  destruct (String.eqb _ "title"); [destruct (Title job)|]; simpl.
  - by destruct (Js.includes _ _).
  - intros [= <-]. eauto.
  - destruct (_ || _); simpl; [by destruct (Js.includes _ _) | done].
Qed.

Lemma score_loop (job : Job) (filters : list Filter) (acc : ScoreResult) :
  (∀ rule, rule ∈ filters → Type_ rule = "title" → is_Some (Title job)) →
  for_of (score_step job (allText job)) filters acc =
  Ok {| score := score acc + sumZ (Weight <$> filter (RuleHolds job) filters);
        matchedKeywords := matchedKeywords acc ++ (Keyword <$> filter (RuleHolds job) filters) |}.
Proof.
  revert acc. induction filters as [|rule filters IH]; intros acc Ht.
  - destruct acc as [s ks]. simpl. by rewrite Z.add_0_r, app_nil_r.
  - rewrite for_of_cons, score_step_RuleHolds by (apply Ht; left). simpl.
    rewrite IH by (intros r Hin; apply Ht; by right).
    rewrite filter_cons. destruct (decide (RuleHolds job rule)) as [Hr|Hr].
    + rewrite bool_decide_eq_true_2 by done. simpl.
      f_equal. f_equal; [by rewrite <- Z.add_assoc | by rewrite <- app_assoc].
    + by rewrite bool_decide_eq_false_2 by done.
Qed.

Lemma score_loop_throw (job : Job) (filters : list Filter) (acc : ScoreResult) (e : Exn) :
  for_of (score_step job (allText job)) filters acc = Throw e →
  ∃ msg, e = TypeError msg.
Proof.
  revert acc. induction filters as [|rule filters IH]; intros acc; [done|].
  rewrite for_of_cons.
  destruct (score_step job (allText job) acc rule) as [acc'|e'] eqn:Hstep; simpl.
  - apply IH.
  - intros [= <-]. by apply score_step_throw in Hstep.
Qed.

(** On a scorable listing the scorer returns, and what it returns is the sum
    over the rules that hold. *)
Lemma calculateScore_scorable (job : Job) (filters : list Filter) :
  Scorable job filters →
  calculateScore (Some job) (Some filters) =
  Ok {| score := sumZ (Weight <$> filter (RuleHolds job) filters);
        matchedKeywords := Keyword <$> filter (RuleHolds job) filters |}.
Proof.
  intros Hs. unfold calculateScore. rewrite score_loop; [done|].
  intros rule Hin Ht. destruct Hs as [Hs|Hs]; [done|].
  rewrite Forall_forall in Hs. by destruct (Hs rule Hin).
Qed.

End Scorer.

(** ** The scorer on the runtime's strings and numbers *)

#[global] Instance Scoring_TitleContains_dec (toLowerCase : string → string)
    (job : Job) (kw : string) : Decision (Scoring.TitleContains toLowerCase job kw).
Proof.
  unfold Scoring.TitleContains. destruct (Title job) as [title|].
  - destruct (decide (Js.Substring kw (toLowerCase title))) as [Hs|Hs].
    + left. by exists title.
    + right. intros (t & Ht & Hsub). by injection Ht as <-.
  - right. by intros (t & Ht & _).
Defined.

#[global] Instance Scoring_RuleHolds_dec (toLowerCase : string → string) {Num : Type}
    (job : Job) (rule : Runtime.Filter Num) :
  Decision (Scoring.RuleHolds toLowerCase job rule).
Proof.
  unfold Scoring.RuleHolds. destruct (Scoring.keywordText rule) as [keyword|].
  - destruct (decide
      ((Runtime.Type_ rule = "title" ∧
        Scoring.TitleContains toLowerCase job (toLowerCase keyword))
       ∨ ((Runtime.Type_ rule = "any" ∨ Runtime.Type_ rule = "negative") ∧
          Js.Substring (toLowerCase keyword) (Scoring.corpus toLowerCase job))))
      as [H|H].
    + left. by exists keyword.
    + right. intros (k & [= <-] & Hk). by apply H.
  - right. by intros (k & Hk & _).
Defined.

Section RuntimeScorer.

Variable toLowerCase : string → string.
Context {Num : Type}.
Variable zero : Num.
Variable add : Num → Num → Num.

#[local] Abbreviation holds := (Scoring.RuleHolds toLowerCase).
#[local] Abbreviation step job :=
  (Runtime.score_step toLowerCase add job (Runtime.allText toLowerCase job)).

Lemma runtime_allText_corpus (job : Job) :
  Runtime.allText toLowerCase job = Scoring.corpus toLowerCase job.
Proof. reflexivity. Qed.

(** The test the loop makes is the matching condition; it can only throw on
    a title rule against a listing without a title. *)
Lemma runtime_isMatch_RuleHolds (job : Job) (rule : Runtime.Filter Num) (keyword : string) :
  Scoring.keywordText rule = Some keyword →
  (Runtime.Type_ rule = "title" → is_Some (Title job)) →
  Runtime.isMatch toLowerCase job (Runtime.allText toLowerCase job) rule (toLowerCase keyword)
  = Ok (bool_decide (holds job rule)).
Proof.
  intros Hk Ht. unfold Runtime.isMatch.
  destruct (String.eqb_spec (Runtime.Type_ rule) "title") as [E|E].
  - destruct (Ht E) as [title Htitle]. rewrite Htitle, includes_decide. f_equal.
    apply bool_decide_ext. unfold Scoring.RuleHolds, Scoring.TitleContains.
    rewrite E, Htitle, Hk. split.
    + intros Hs. exists keyword. split; [done|]. left. split; [done|]. by exists title.
    + intros (k & [= <-] & [(_ & t & [= <-] & Hs)|([?|?] & _)]); done.
  - rewrite runtime_allText_corpus.
    destruct (String.eqb_spec (Runtime.Type_ rule) "any") as [Ea|Ea];
      [|destruct (String.eqb_spec (Runtime.Type_ rule) "negative") as [En|En]]; simpl;
      rewrite ?includes_decide; f_equal.
    + apply bool_decide_ext. unfold Scoring.RuleHolds. rewrite Hk. split.
      * intros Hs. exists keyword. split; [done|]. right. by split; [left|].
      * intros (k & [= <-] & [(? & _)|(_ & Hs)]); [congruence | done].
    + apply bool_decide_ext. unfold Scoring.RuleHolds. rewrite Hk. split.
      * intros Hs. exists keyword. split; [done|]. right. by split; [right|].
      * intros (k & [= <-] & [(? & _)|(_ & Hs)]); [congruence | done].
    + symmetry. apply bool_decide_eq_false_2. unfold Scoring.RuleHolds.
      intros (k & _ & [(? & _)|([?|?] & _)]); congruence.
Qed.

Lemma runtime_score_step_RuleHolds (job : Job) (acc : Runtime.ScoreResult Num)
    (rule : Runtime.Filter Num) (keyword : string) :
  Scoring.keywordText rule = Some keyword →
  (Runtime.Type_ rule = "title" → is_Some (Title job)) →
  step job acc rule =
  Ok (if bool_decide (holds job rule)
      then {| Runtime.score := add (Runtime.score acc) (Runtime.Weight rule);
              Runtime.matchedKeywords := Runtime.matchedKeywords acc ++ [keyword] |}
      else acc).
Proof.
  intros Hk Ht. pose proof (runtime_isMatch_RuleHolds job rule keyword Hk Ht) as Hm.
  unfold Runtime.score_step. unfold Scoring.keywordText in Hk.
  destruct (Runtime.Keyword rule) as [text| |]; try done. injection Hk as ->.
  rewrite Hm. simpl. by destruct (bool_decide _).
Qed.

(** A step can only throw a [TypeError]. *)
Lemma runtime_score_step_throw (job : Job) (acc : Runtime.ScoreResult Num)
    (rule : Runtime.Filter Num) (e : Exn) :
  step job acc rule = Throw e → ∃ msg, e = TypeError msg.
Proof.
  unfold Runtime.score_step, Runtime.isMatch.
  destruct (Runtime.Keyword rule); [|intros [= <-]; eauto..].
  destruct (String.eqb _ "title"); [destruct (Title job)|]; simpl.
  - by destruct (Js.includes _ _).
  - intros [= <-]. eauto.
  - destruct (_ || _); simpl; [by destruct (Js.includes _ _) | done].
Qed.

(** A step throws on a keyword that is not text and on a title rule
    against a listing without a title. *)
Lemma runtime_score_step_unreadable (job : Job) (acc : Runtime.ScoreResult Num)
    (rule : Runtime.Filter Num) :
  Scoring.keywordText rule = None ∨ (Runtime.Type_ rule = "title" ∧ Title job = None) →
  ∃ e, step job acc rule = Throw e.
Proof.
  unfold Runtime.score_step, Runtime.isMatch, Scoring.keywordText.
  destruct (Runtime.Keyword rule); [|eauto..].
  intros [?|[-> ->]]; [done|]. simpl. eauto.
Qed.

Lemma runtime_score_loop (job : Job) (filters : list (Runtime.Filter Num))
    (acc : Runtime.ScoreResult Num) :
  (∀ rule, rule ∈ filters →
     is_Some (Scoring.keywordText rule) ∧
     (Runtime.Type_ rule = "title" → is_Some (Title job))) →
  for_of (step job) filters acc =
  Ok {| Runtime.score :=
          fold_left add (Runtime.Weight <$> filter (holds job) filters) (Runtime.score acc);
        Runtime.matchedKeywords :=
          Runtime.matchedKeywords acc ++ omap Scoring.keywordText (filter (holds job) filters) |}.
Proof.
  revert acc. induction filters as [|rule filters IH]; intros acc Hr.
  - destruct acc as [s ks]. simpl. by rewrite app_nil_r.
  - destruct (Hr rule) as [[keyword Hk] Ht]; [by left|].
    rewrite for_of_cons, (runtime_score_step_RuleHolds job acc rule keyword Hk Ht). simpl.
    rewrite IH by (intros r Hin; apply Hr; by right).
    rewrite filter_cons. destruct (decide (holds job rule)) as [Hh|Hh].
    + rewrite bool_decide_eq_true_2 by done. simpl. rewrite Hk.
      by rewrite <- app_assoc.
    + by rewrite bool_decide_eq_false_2 by done.
Qed.

Lemma runtime_score_loop_throw (job : Job) (filters : list (Runtime.Filter Num))
    (acc : Runtime.ScoreResult Num) (e : Exn) :
  for_of (step job) filters acc = Throw e → ∃ msg, e = TypeError msg.
Proof.
  revert acc. induction filters as [|rule filters IH]; intros acc; [done|].
  rewrite for_of_cons.
  destruct (step job acc rule) as [acc'|e'] eqn:Hstep; simpl.
  - apply IH.
  - intros [= <-]. by apply runtime_score_step_throw in Hstep.
Qed.

Lemma Readable_elem (job : Job) (filters : list (Runtime.Filter Num)) :
  Scoring.Readable job filters ↔
  ∀ rule, rule ∈ filters →
    is_Some (Scoring.keywordText rule) ∧
    (Runtime.Type_ rule = "title" → is_Some (Title job)).
Proof.
  unfold Scoring.Readable. rewrite !Forall_forall. split.
  - intros [Hk Ht] rule Hin. split; [by apply Hk|].
    intros E. destruct Ht as [Ht|Ht]; [done|]. by destruct (Ht rule Hin).
  - intros H. split; [intros rule Hin; by apply H|].
    destruct (Title job) as [title|] eqn:Htitle; [left; eauto|].
    right. intros rule Hin E. destruct (H rule Hin) as [_ Ht].
    destruct (Ht E) as [? ?]. done.
Qed.

(** On a listing and a rule list it can read the scorer returns, and what
    it returns adds up the weights of the rules that hold. *)
Lemma runtime_calculateScore_readable (job : Job) (filters : list (Runtime.Filter Num)) :
  Scoring.Readable job filters →
  Runtime.calculateScore toLowerCase zero add (Some job) (Some filters) =
  Ok {| Runtime.score :=
          Scoring.total zero add (Runtime.Weight <$> filter (holds job) filters);
        Runtime.matchedKeywords := omap Scoring.keywordText (filter (holds job) filters) |}.
Proof.
  intros Hr. unfold Runtime.calculateScore.
  by rewrite runtime_score_loop by (by apply Readable_elem).
Qed.

(** On anything else it throws. *)
Lemma runtime_calculateScore_unreadable (job : Job) (filters : list (Runtime.Filter Num)) :
  ¬ Scoring.Readable job filters →
  ∃ e, Runtime.calculateScore toLowerCase zero add (Some job) (Some filters) = Throw e.
Proof.
  unfold Runtime.calculateScore. generalize (Runtime.mkScore zero []).
  induction filters as [|rule filters IH]; intros acc Hn.
  - destruct Hn. split; [constructor | right; constructor].
  - rewrite for_of_cons.
    destruct (step job acc rule) as [acc'|e] eqn:Hstep; simpl; [|eauto].
    apply IH. intros Hr. apply Hn, Readable_elem.
    intros r [->|Hin]%elem_of_cons; [|by apply (proj1 (Readable_elem job filters) Hr)].
    destruct (Scoring.keywordText rule) as [k|] eqn:Hk.
    + split; [eauto|]. intros E. destruct (Title job) eqn:Ht; [eauto|].
      destruct (runtime_score_step_unreadable job acc rule) as [e He]; [by right|congruence].
    + destruct (runtime_score_step_unreadable job acc rule) as [e He]; [by left|congruence].
Qed.

End RuntimeScorer.

(** The scorer on integers and ASCII letters is the scorer of the runtime
    at those numbers and that [toLowerCase]. *)
Section Instance.

#[local] Abbreviation result r :=
  {| score := Runtime.score r; matchedKeywords := Runtime.matchedKeywords r |}.
#[local] Abbreviation filterObject rule :=
  (Runtime.mkFilter (Num := Z) (Runtime.VStr (Keyword rule)) (Weight rule) (Type_ rule)).

Lemma score_step_runtime (job : Job) (rule : Filter) (racc : Runtime.ScoreResult Z) :
  score_step job (allText job) (result racc) rule =
  Runtime.score_step Js.toLowerCase Z.add job (Runtime.allText Js.toLowerCase job) racc
                     (filterObject rule)
  ≫= λ r, Ok (result r).
Proof.
  unfold score_step, Runtime.score_step. cbn [Runtime.Keyword].
  change (Runtime.isMatch Js.toLowerCase job (Runtime.allText Js.toLowerCase job)
            (filterObject rule) (Js.toLowerCase (Keyword rule)))
    with (isMatch job (allText job) rule).
  by destruct (isMatch job (allText job) rule) as [[]|e].
Qed.

Lemma score_loop_runtime (job : Job) (filters : list Filter) (racc : Runtime.ScoreResult Z) :
  for_of (score_step job (allText job)) filters (result racc) =
  for_of (Runtime.score_step Js.toLowerCase Z.add job (Runtime.allText Js.toLowerCase job))
         ((λ rule, filterObject rule) <$> filters) racc
  ≫= λ r, Ok (result r).
Proof.
  revert racc. induction filters as [|rule filters IH]; intros racc; [done|].
  rewrite fmap_cons, !for_of_cons, score_step_runtime.
  destruct (Runtime.score_step _ _ _ _ racc _) as [r|e]; simpl; [apply IH | done].
Qed.

Lemma calculateScore_runtime (job : option Job) (filters : option (list Filter)) :
  calculateScore job filters =
  Runtime.calculateScore Js.toLowerCase 0 Z.add job
    (fmap (M := list) (λ rule, filterObject rule) <$> filters)
  ≫= λ r, Ok (result r).
Proof.
  destruct job as [job|], filters as [filters|]; try done.
  apply (score_loop_runtime job filters (Runtime.mkScore 0 [])).
Qed.

End Instance.




(** A title rule against a listing without a title makes the scorer throw
    on arguments that are present. *)
Example calculateScore_without_title :
  calculateScore (Some (mkJob None None None (Some "Energy Grid Co") None None None None
                              None None None None))
                 (Some [rule_power]) =
  Throw (TypeError "Cannot read properties of undefined (reading 'toLowerCase')").
Proof. reflexivity. Qed.

(** C8, as the claim has it, fails. A listing without a title is malformed,
    and so is a rule whose keyword is a number; the scorer raises its
    invalid-input error on neither. The listing without a title is scored
    by an any-field rule and stops a title rule with a [TypeError], and the
    numeric keyword stops the scorer with a [TypeError] as well. *)
Lemma calculateScore_malformed_is_not_invalid_input :
  Title listing_untitled = None
  ∧ Runtime.calculateScore Js.toLowerCase 0 Z.add (Some listing_untitled)
      (Some [Runtime.mkFilter (Runtime.VStr "Grid") 4 "any"]) =
    Ok {| Runtime.score := 4; Runtime.matchedKeywords := ["Grid"] |}
  ∧ Runtime.calculateScore Js.toLowerCase 0 Z.add (Some listing_untitled)
      (Some [rule_power_of 5]) =
    Throw (TypeError "Cannot read properties of undefined (reading 'toLowerCase')")
  ∧ Runtime.calculateScore Js.toLowerCase 0 Z.add (Some listing_POWER) (Some [rule_2025]) =
    Throw (TypeError "filter.Keyword.toLowerCase is not a function")
  ∧ calculateScore (Some listing_untitled) (Some [mkFilter "Grid" 4 "any"]) =
    Ok {| score := 4; matchedKeywords := ["Grid"] |}
  ∧ calculateScore (Some listing_untitled) (Some [rule_power]) =
    Throw (TypeError "Cannot read properties of undefined (reading 'toLowerCase')").
Proof. repeat split. Qed.

(** C8. [calculateScore] throws its invalid-input error exactly when the
    listing or the rule list is absent (a falsy argument), whatever the
    runtime; it does not look at their shape. Given both, it returns
    exactly when it can read them, that is unless it meets a keyword that
    is not text or a title rule on a listing without a title, and what it
    throws then is a [TypeError]. On the empty rule list every listing,
    well-formed or not, gets score 0 and no matched keyword. *)
Theorem calculateScore_invalid_input :
  (∀ (toLowerCase : string → string) (Num : Type) (zero : Num) (add : Num → Num → Num)
     (job : option Job) (filters : option (list (Runtime.Filter Num))),
     Runtime.calculateScore toLowerCase zero add job filters
       = Throw (Error "Invalid job or filters")
     ↔ job = None ∨ filters = None)
  ∧ (∀ (toLowerCase : string → string) (Num : Type) (zero : Num) (add : Num → Num → Num)
       (job : Job) (filters : list (Runtime.Filter Num)),
       ((∃ r, Runtime.calculateScore toLowerCase zero add (Some job) (Some filters) = Ok r)
        ↔ Scoring.Readable job filters)
       ∧ ∀ e, Runtime.calculateScore toLowerCase zero add (Some job) (Some filters) = Throw e →
              ∃ msg, e = TypeError msg)
  ∧ (∀ (toLowerCase : string → string) (Num : Type) (zero : Num) (add : Num → Num → Num)
       (job : Job),
       Runtime.calculateScore toLowerCase zero add (Some job) (Some []) =
       Ok {| Runtime.score := zero; Runtime.matchedKeywords := [] |})
  ∧ (∀ (job : option Job) (filters : option (list Filter)),
       calculateScore job filters = Throw (Error "Invalid job or filters")
       ↔ job = None ∨ filters = None)
  ∧ (∀ job : Job,
       calculateScore (Some job) (Some []) = Ok {| score := 0; matchedKeywords := [] |}).
Proof.
  split; [|split; [|split; [done|split; [|done]]]].
  - intros toLowerCase Num zero add job filters. split.
    + destruct job, filters; simpl; eauto.
      intros H. apply runtime_score_loop_throw in H as [msg Hmsg]. discriminate.
    + intros [-> | ->]; [done | by destruct job].
  - intros toLowerCase Num zero add job filters. split; [split|].
    + intros [r Hr]. destruct (decide (Scoring.Readable job filters)) as [|Hn]; [done|].
      destruct (runtime_calculateScore_unreadable toLowerCase zero add job filters Hn)
        as [e He]. congruence.
    + intros Hr. eexists. by apply runtime_calculateScore_readable.
    + intros e H. by apply runtime_score_loop_throw in H.
  - intros job filters. split.
    + destruct job, filters; simpl; eauto.
      intros H. apply score_loop_throw in H as [msg Hmsg]. discriminate.
    + intros [-> | ->]; [done | by destruct job].
Qed.

(** *** Absent fields in the corpus *)

Section Undefined.

Lemma Substring_refl_app (t b : string) : Js.Substring t (t +:+ b).
Proof. by exists "", b. Qed.

(** An absent organization, location or snippet puts the word undefined
    into the corpus. *)
Lemma allText_absent (job : Job) :
  Company job = None ∨ Location job = None ∨ Snippet job = None →
  Js.Substring "undefined" (allText job).
Proof.
  unfold allText. rewrite !toLowerCase_app.
  intros [H|[H|H]]; rewrite H; simpl Js.template;
    change (Js.toLowerCase "undefined") with "undefined".
  - do 2 apply Substring_app_l. apply Substring_refl_app.
  - do 4 apply Substring_app_l. apply Substring_refl_app.
  - do 6 apply Substring_app_l. by exists "", "".
Qed.

Lemma toLowerCase_nonempty (s : string) : s ≠ "" → Js.toLowerCase s ≠ "".
Proof. by destruct s. Qed.

(** The first character of a text that occurs in [s] is a character of [s]. *)
Lemma Substring_head (c : ascii) (k s : string) :
  Js.Substring (String c k) s → In c (list_ascii_of_string s).
Proof.
  intros (a & b & ->). induction a as [|x a IH]; simpl; [by left | by right].
Qed.

(** No text that occurs in the word undefined occurs in the word job, the
    empty text apart. *)
Lemma undefined_job_disjoint (k : string) :
  k ≠ "" → Js.Substring k "undefined" → ¬ Js.Substring k "job".
Proof.
  destruct k as [|c k]; [done|]. intros _ Hu Hj.
  apply Substring_head in Hu. apply Substring_head in Hj. simpl in Hu, Hj.
  repeat (destruct Hu as [<-|Hu]; [intuition discriminate|]). done.
Qed.

End Undefined.

(** C10. When the organization, the location or the snippet of a listing is
    absent, the corpus holds the word undefined in the place of that field,
    so an any-field or negative rule whose lowercased keyword occurs in that
    word matches. For the listing whose only field is the title Job every
    such rule with a non-empty keyword matches although the keyword does not
    occur in the title. *)
Theorem absent_field_matches_undefined :
  (∀ job : Job,
     let title := Js.toLowerCase (Js.template (Title job)) in
     let company := Js.toLowerCase (Js.template (Company job)) in
     let location := Js.toLowerCase (Js.template (Location job)) in
     let snippet := Js.toLowerCase (Js.template (Snippet job)) in
     (Company job = None →
      allText job = title +:+ " undefined " +:+ location +:+ " " +:+ snippet) ∧
     (Location job = None →
      allText job = title +:+ " " +:+ company +:+ " undefined " +:+ snippet) ∧
     (Snippet job = None →
      allText job = title +:+ " " +:+ company +:+ " " +:+ location +:+ " undefined"))
  ∧ (∀ (job : Job) (rule : Filter),
       Company job = None ∨ Location job = None ∨ Snippet job = None →
       Type_ rule = "any" ∨ Type_ rule = "negative" →
       Js.Substring (Js.toLowerCase (Keyword rule)) "undefined" →
       calculateScore (Some job) (Some [rule]) =
       Ok {| score := Weight rule; matchedKeywords := [Keyword rule] |})
  ∧ (∀ rule : Filter,
       Type_ rule = "any" ∨ Type_ rule = "negative" →
       Keyword rule ≠ "" →
       Js.Substring (Js.toLowerCase (Keyword rule)) "undefined" →
       calculateScore (Some listing_Job) (Some [rule]) =
       Ok {| score := Weight rule; matchedKeywords := [Keyword rule] |} ∧
       ¬ Js.Substring (Js.toLowerCase (Keyword rule)) (Js.toLowerCase "Job")).
Proof.
  assert (∀ (job : Job) (rule : Filter),
     Company job = None ∨ Location job = None ∨ Snippet job = None →
     Type_ rule = "any" ∨ Type_ rule = "negative" →
     Js.Substring (Js.toLowerCase (Keyword rule)) "undefined" →
     calculateScore (Some job) (Some [rule]) =
     Ok {| score := Weight rule; matchedKeywords := [Keyword rule] |}) as Hgen.
  { intros job rule Habs Hty Hkw.
    pose proof (allText_absent job Habs) as Hu.
    assert (RuleHolds job rule) as Hr.
    { right. split; [done|]. rewrite <- allText_corpus. by eapply Substring_trans. }
    rewrite calculateScore_scorable.
    - rewrite filter_cons_True, filter_nil by done. simpl. by rewrite Z.add_0_r.
    - right. constructor; [|constructor]. destruct Hty as [E|E]; by rewrite E. }
  split; [|split; [done|]].
  - intros job. unfold allText. repeat split; intros H; rewrite H;
      rewrite !toLowerCase_app; reflexivity.
  - intros rule Hty Hne Hkw. split.
    + apply Hgen; [by left | done | done].
    + apply undefined_job_disjoint; [by apply toLowerCase_nonempty | done].
Qed.

Lemma absent_field_matches_undefined_witness :
  (Company listing_POWER = None ∨ Location listing_POWER = None ∨ Snippet listing_POWER = None) ∧
  (Type_ (mkFilter "Fine" 3 "any") = "any" ∨ Type_ (mkFilter "Fine" 3 "any") = "negative") ∧
  Js.includes "undefined" (Js.toLowerCase "Fine") = true ∧
  Js.includes (Js.toLowerCase "POWER") (Js.toLowerCase "Fine") = false ∧
  calculateScore (Some listing_POWER) (Some [mkFilter "Fine" 3 "any"]) =
  Ok {| score := 3; matchedKeywords := ["Fine"] |}.
Proof.
  split; [by left|]. split; [by left|]. split; [reflexivity|]. split; [reflexivity|].
  refine (proj1 (proj2 absent_field_matches_undefined) listing_POWER (mkFilter "Fine" 3 "any")
                (or_introl eq_refl) (or_introl eq_refl) _).
  apply includes_spec. reflexivity.
Defined.

(** ** The pipeline *)

Section PipelineFacts.

Variable generateUniqueID : nat → string.
Variable filters : list Filter.
Variable config : Config.

Lemma truthy_Some (v : option string) : Js.truthy v = true → ∃ s, v = Some s ∧ s ≠ "".
Proof.
  destruct v as [s|]; simpl; [|done]. intros H. exists s. split; [done|].
  intros ->. done.
Qed.

Lemma calculateScore_valid (job : Job) :
  validRaw job = true → ∃ r, calculateScore (Some job) (Some filters) = Ok r.
Proof.
  unfold validRaw. intros H. apply andb_prop in H as [H _]. apply andb_prop in H as [H _].
  apply truthy_Some in H as (t & Ht & _).
  eexists. apply calculateScore_scorable. left. by exists t.
Qed.

(** The three ways an iteration of the loop of [processJobs] ends. *)
Lemma process_step_cases (st : ProcState) (job : Job) :
  (validRaw job = false ∧
   process_step generateUniqueID filters config st job = Ok st)
  ∨ (validRaw job = true ∧ dedupeBy config = Some "link" ∧ Link job ∈ seenLinks st ∧
     process_step generateUniqueID filters config st job = Ok st)
  ∨ (validRaw job = true ∧
     ¬ (dedupeBy config = Some "link" ∧ Link job ∈ seenLinks st) ∧
     ∃ p n, Emitted filters config job p ∧
            process_step generateUniqueID filters config st job =
            Ok {| processedJobs := processedJobs st ++ [p];
                  seenLinks := {[ Link job ]} ∪ seenLinks st;
                  generated := n |}).
Proof.
  destruct (validRaw job) eqn:Hv.
  - right. assert (negb (Js.truthy (Title job)) || negb (Js.truthy (Link job))
                   || negb (Js.truthy (Source job)) = false) as Hguard.
    { unfold validRaw in Hv. apply andb_prop in Hv as [Hv ->].
      apply andb_prop in Hv as [-> ->]. done. }
    unfold process_step. rewrite Hguard.
    destruct (decide (dedupeBy config = Some "link" ∧ Link job ∈ seenLinks st)) as [[Hd Hs]|Hn].
    + left. rewrite !bool_decide_eq_true_2 by done. done.
    + right. split; [done|]. split; [done|].
      assert (bool_decide (dedupeBy config = Some "link")
              && bool_decide (Link job ∈ seenLinks st) = false) as ->.
      { apply andb_false_iff.
        destruct (decide (dedupeBy config = Some "link")); [right|left];
          apply bool_decide_eq_false_2; tauto. }
      destruct (calculateScore_valid job Hv) as [r Hr]. rewrite Hr. simpl.
      eexists _, _. split; [|reflexivity].
      exists r. simpl. by repeat split.
  - left. split; [done|]. unfold process_step.
    unfold validRaw in Hv. rewrite <- !negb_andb, Hv. done.
Qed.

(** What the loop of [processJobs] does to its state over a batch. *)
Lemma process_loop (jobs : list Job) (st : ProcState) :
  ∃ st' new,
    for_of (process_step generateUniqueID filters config) jobs st = Ok st' ∧
    processedJobs st' = processedJobs st ++ new ∧
    seenLinks st ⊆ seenLinks st' ∧
    (∀ p, p ∈ new → ∃ j, j ∈ jobs ∧ validRaw j = true ∧ Emitted filters config j p) ∧
    (dedupeBy config = Some "link" →
     NoDup (Link <$> new) ∧
     ∀ p, p ∈ new → (Link p ∉ seenLinks st) ∧ (Link p ∈ seenLinks st')) ∧
    (∀ pre job post,
       jobs = pre ++ job :: post → validRaw job = true →
       (dedupeBy config = Some "link" →
        (Link job ∉ seenLinks st) ∧ ∀ j, j ∈ pre → validRaw j = true → Link j ≠ Link job) →
       ∃ p, p ∈ new ∧ Emitted filters config job p).
Proof.
  revert st. induction jobs as [|j js IH]; intros st.
  - exists st, []. rewrite app_nil_r.
    split; [done|]. split; [done|]. split; [done|]. split; [|split].
    + intros p Hp. by apply elem_of_nil in Hp.
    + intros _. split; [constructor|]. intros p Hp. by apply elem_of_nil in Hp.
    + intros [|??] ?? Heq; discriminate.
  - rewrite for_of_cons.
    destruct (process_step_cases st j) as [(Hv & ->)|[(Hv & Hd & Hs & ->)|(Hv & Hn & p & n & Hp & ->)]];
      simpl.
    + destruct (IH st) as (st' & new & Hrun & Hout & Hsub & Hfrom & Hdup & Hfirst).
      exists st', new. split; [done|]. split; [done|]. split; [done|]. split; [|split; [done|]].
      * intros q Hq. destruct (Hfrom q Hq) as (j' & Hj' & ?). exists j'. split; [by right | done].
      * intros [|x pre] job post Heq Hjob Hcond; injection Heq as -> ->; [congruence|].
        apply (Hfirst pre job post eq_refl Hjob). intros Hlink.
        destruct (Hcond Hlink) as [? Hpre]. split; [done|]. intros j' Hj'. apply Hpre. by right.
    + destruct (IH st) as (st' & new & Hrun & Hout & Hsub & Hfrom & Hdup & Hfirst).
      exists st', new. split; [done|]. split; [done|]. split; [done|]. split; [|split; [done|]].
      * intros q Hq. destruct (Hfrom q Hq) as (j' & Hj' & ?). exists j'. split; [by right | done].
      * intros [|x pre] job post Heq Hjob Hcond; injection Heq as -> ->.
        { destruct (Hcond Hd) as [Hfresh _]. done. }
        apply (Hfirst pre job post eq_refl Hjob). intros Hlink.
        destruct (Hcond Hlink) as [? Hpre]. split; [done|]. intros j' Hj'. apply Hpre. by right.
    + set (st1 := {| processedJobs := processedJobs st ++ [p];
                     seenLinks := {[ Link j ]} ∪ seenLinks st; generated := n |}).
      destruct (IH st1) as (st' & new & Hrun & Hout & Hsub & Hfrom & Hdup & Hfirst).
      assert (Link p = Link j) as Hlp by (destruct Hp as (r & _ & ? & _); done).
      exists st', (p :: new). split; [done|]. split; [|split; [|split; [|split]]].
      * rewrite Hout. simpl. by rewrite <- app_assoc.
      * simpl in Hsub. set_solver.
      * intros q Hq. apply elem_of_cons in Hq as [->|Hq].
        { exists j. split; [by left | done]. }
        destruct (Hfrom q Hq) as (j' & Hj' & ?). exists j'. split; [by right | done].
      * intros Hlink. destruct (Hdup Hlink) as [Hnd Hnew]. simpl in Hsub. split.
        { rewrite fmap_cons. constructor; [|done].
          intros Hin. apply list_elem_of_fmap in Hin as (q & Hq1 & Hq2).
          destruct (Hnew q Hq2) as [Hq3 _]. apply Hq3. simpl. rewrite <- Hq1, Hlp. set_solver. }
        intros q Hq. apply elem_of_cons in Hq as [->|Hq].
        { rewrite Hlp. split; [tauto | set_solver]. }
        destruct (Hnew q Hq) as [Hq3 Hq4]. simpl in Hq3. split; [set_solver | done].
      * intros [|x pre] job post Heq Hjob Hcond; injection Heq as -> ->.
        { exists p. split; [by left | done]. }
        destruct (Hfirst pre job post eq_refl Hjob) as (q & Hq & Hemit).
        { intros Hlink. destruct (Hcond Hlink) as [Hfresh Hpre]. split.
          - simpl. assert (Link x ≠ Link job) by (apply Hpre; [by left | done]). set_solver.
          - intros j' Hj'. apply Hpre. by right. }
        exists q. split; [by right | done].
Qed.

End PipelineFacts.

Lemma NoDup_fmap_inj {A B : Type} (f : A → B) (l : list A) (x y : A) :
  NoDup (f <$> l) → x ∈ l → y ∈ l → f x = f y → x = y.
Proof.
  induction l as [|a l IH]; intros Hnd Hx Hy Hf; [by apply elem_of_nil in Hx|].
  rewrite fmap_cons in Hnd. apply NoDup_cons in Hnd as [Ha Hnd].
  apply elem_of_cons in Hx as [->|Hx]; apply elem_of_cons in Hy as [->|Hy]; try done.
  - exfalso. apply Ha. rewrite Hf. by apply list_elem_of_fmap_2.
  - exfalso. apply Ha. rewrite <- Hf. by apply list_elem_of_fmap_2.
  - by apply IH.
Qed.

(** [processJobs] returns once the config has its two required fields, and
    its output is made of the first valid listing of every link when it
    de-duplicates, of every valid listing otherwise. *)
Lemma processJobs_run (generateUniqueID : nat → string) (rawJobs : list Job)
    (filters : list Filter) (config : Config) :
  Js.truthy_num (minScore config) = true →
  Js.truthy (dedupeBy config) = true →
  ∃ out,
    processJobs generateUniqueID rawJobs filters (Some config) = Ok out ∧
    (∀ p, p ∈ out → ∃ j, j ∈ rawJobs ∧ validRaw j = true ∧ Emitted filters config j p) ∧
    (dedupeBy config = Some "link" → NoDup (Link <$> out)) ∧
    (∀ pre job post,
       rawJobs = pre ++ job :: post → validRaw job = true →
       (dedupeBy config = Some "link" →
        ∀ j, j ∈ pre → validRaw j = true → Link j ≠ Link job) →
       ∃ p, p ∈ out ∧ Emitted filters config job p).
Proof.
  intros Hmin Hded. unfold processJobs. rewrite Hmin, Hded. simpl.
  destruct (process_loop generateUniqueID filters config rawJobs
              {| processedJobs := []; seenLinks := ∅; generated := 0%nat |})
    as (st' & new & -> & Hout & _ & Hfrom & Hdup & Hfirst).
  simpl in Hout. subst new. exists (processedJobs st'). simpl.
  split; [done|]. split; [done|]. split.
  - intros Hlink. by destruct (Hdup Hlink).
  - intros pre job post Heq Hjob Hpre. apply (Hfirst pre job post Heq Hjob).
    intros Hlink. split; [set_solver | by apply Hpre].
Qed.

(** The assertions of [testOutput]: two entries, the first with score 14 and
    status New, the second with score -10 and status Ignore. *)
Example testOutput :
  ∃ out : list Job,
    processJobs mockIDs mockJobs mockFilters (Some mockConfig) = Ok out ∧
    Link <$> out = [Some "https://example.com/job1"; Some "https://example.com/job2"] ∧
    Score <$> out = [Some 14; Some (-10)] ∧
    Status <$> out = [Some "New"; Some "Ignore"] ∧
    MatchedKeywords <$> out = [Some "Power Systems, Germany"; Some "Intern"].
Proof. eexists. split; [vm_compute; reflexivity|]. repeat split. Qed.

(** C3. Once the config is accepted, every entry [processJobs] emits has
    status New when its score is at least [minScore], in particular when the
    two are equal, and status Ignore when its score is below; and the first
    valid listing of a link is emitted with the status of its score, accepted
    or rejected alike. *)
Theorem processJobs_status_boundary (generateUniqueID : nat → string)
    (rawJobs : list Job) (filters : list Filter) (config : Config) (m : Z) :
  minScore config = Some m → m ≠ 0 → Js.truthy (dedupeBy config) = true →
  ∃ out,
    processJobs generateUniqueID rawJobs filters (Some config) = Ok out ∧
    (∀ p, p ∈ out →
       ∃ s, Score p = Some s ∧
            (s = m → Status p = Some "New") ∧
            (m ≤ s → Status p = Some "New") ∧
            (s < m → Status p = Some "Ignore")) ∧
    (∀ pre job post,
       rawJobs = pre ++ job :: post → validRaw job = true →
       (∀ j, j ∈ pre → validRaw j = true → Link j ≠ Link job) →
       ∃ p r, p ∈ out ∧ calculateScore (Some job) (Some filters) = Ok r ∧
              Link p = Link job ∧ Score p = Some (score r) ∧
              Status p = Some (if m <=? score r then "New" else "Ignore")).
Proof.
  intros Hm Hne Hded.
  destruct (processJobs_run generateUniqueID rawJobs filters config)
    as (out & Hrun & Hfrom & _ & Hfirst); [|done|].
  { rewrite Hm. simpl. by apply negb_true_iff, Z.eqb_neq. }
  exists out. split; [done|]. split.
  - intros p Hp. destruct (Hfrom p Hp) as (j & _ & _ & r & _ & _ & _ & _ & _ & Hs & _ & Hst & _).
    exists (score r). split; [done|]. rewrite Hst. unfold statusOf. rewrite Hm.
    destruct (Z.leb_spec m (score r)); repeat split; intros; first [done | lia].
  - intros pre job post Heq Hjob Hpre.
    destruct (Hfirst pre job post Heq Hjob) as (p & Hp & r & Hr & Hl & _ & _ & _ & Hs & _ & Hst & _).
    { intros _. apply Hpre. }
    exists p, r. unfold statusOf in Hst. rewrite Hm in Hst. done.
Qed.

Lemma processJobs_status_boundary_witness :
  minScore mockConfig = Some 1 ∧ 1 ≠ 0 ∧ Js.truthy (dedupeBy mockConfig) = true ∧
  ∃ out,
    processJobs mockIDs mockJobs mockFilters (Some mockConfig) = Ok out ∧
    (∀ p, p ∈ out →
       ∃ s, Score p = Some s ∧
            (s = 1 → Status p = Some "New") ∧
            (1 ≤ s → Status p = Some "New") ∧
            (s < 1 → Status p = Some "Ignore")) ∧
    (∀ pre job post,
       mockJobs = pre ++ job :: post → validRaw job = true →
       (∀ j, j ∈ pre → validRaw j = true → Link j ≠ Link job) →
       ∃ p r, p ∈ out ∧ calculateScore (Some job) (Some mockFilters) = Ok r ∧
              Link p = Link job ∧ Score p = Some (score r) ∧
              Status p = Some (if 1 <=? score r then "New" else "Ignore")).
Proof.
  split; [reflexivity|]. split; [lia|]. split; [reflexivity|].
  apply (processJobs_status_boundary mockIDs mockJobs mockFilters mockConfig 1);
    [reflexivity | lia | reflexivity].
Defined.

(** C4. With de-duplication by link, the links of the output of
    [processJobs] are pairwise distinct: the first valid listing of a link
    is the one emitted, and it is the only entry with that link, whatever
    the later listings with the same link would have scored. *)
Theorem processJobs_one_entry_per_link (generateUniqueID : nat → string)
    (rawJobs : list Job) (filters : list Filter) (config : Config) :
  Js.truthy_num (minScore config) = true → dedupeBy config = Some "link" →
  ∃ out,
    processJobs generateUniqueID rawJobs filters (Some config) = Ok out ∧
    NoDup (Link <$> out) ∧
    (∀ p, p ∈ out → ∃ j, j ∈ rawJobs ∧ validRaw j = true ∧ Link p = Link j) ∧
    (∀ pre job post,
       rawJobs = pre ++ job :: post → validRaw job = true →
       (∀ j, j ∈ pre → validRaw j = true → Link j ≠ Link job) →
       ∃ p, p ∈ out ∧ Emitted filters config job p ∧
            ∀ q, q ∈ out → Link q = Link job → q = p).
Proof.
  intros Hmin Hlink.
  destruct (processJobs_run generateUniqueID rawJobs filters config)
    as (out & Hrun & Hfrom & Hnd & Hfirst); [done | by rewrite Hlink |].
  specialize (Hnd Hlink). exists out. split; [done|]. split; [done|]. split.
  - intros p Hp. destruct (Hfrom p Hp) as (j & Hj & Hv & r & _ & Hl & _). by exists j.
  - intros pre job post Heq Hjob Hpre.
    destruct (Hfirst pre job post Heq Hjob) as (p & Hp & Hemit); [by intros _|].
    exists p. split; [done|]. split; [done|]. intros q Hq Hql.
    apply (NoDup_fmap_inj Link out q p Hnd Hq Hp).
    destruct Hemit as (r & _ & Hl & _). congruence.
Qed.

Lemma processJobs_one_entry_per_link_witness :
  Js.truthy_num (minScore mockConfig) = true ∧ dedupeBy mockConfig = Some "link" ∧
  ∃ out,
    processJobs mockIDs mockJobs mockFilters (Some mockConfig) = Ok out ∧
    NoDup (Link <$> out) ∧
    (∀ p, p ∈ out → ∃ j, j ∈ mockJobs ∧ validRaw j = true ∧ Link p = Link j) ∧
    (∀ pre job post,
       mockJobs = pre ++ job :: post → validRaw job = true →
       (∀ j, j ∈ pre → validRaw j = true → Link j ≠ Link job) →
       ∃ p, p ∈ out ∧ Emitted mockFilters mockConfig job p ∧
            ∀ q, q ∈ out → Link q = Link job → q = p).
Proof.
  split; [reflexivity|]. split; [reflexivity|].
  apply (processJobs_one_entry_per_link mockIDs mockJobs mockFilters mockConfig);
    reflexivity.
Defined.

(** C9. [processJobs] throws its missing-config-fields error on every job
    list and filter list when [config.minScore] is 0, although [getConfig]
    accepts that value: on the Config tab of the README with a minimum score
    of 0 it returns a config whose [minScore] is 0. *)
Theorem processJobs_rejects_zero_minScore :
  (∀ (generateUniqueID : nat → string) (rawJobs : list Job) (filters : list Filter)
     (config : Config),
     minScore config = Some 0 →
     processJobs generateUniqueID rawJobs filters (Some config) =
     Throw (Error "Missing required config fields: minScore or dedupeBy"))
  ∧ getConfig zeroConfigTab = Ok zeroConfig
  ∧ minScore zeroConfig = Some 0.
Proof.
  split; [|split; [vm_compute; reflexivity | reflexivity]].
  intros gen rawJobs filters config H. unfold processJobs. by rewrite H.
Qed.

Lemma processJobs_rejects_zero_minScore_witness :
  minScore zeroConfig = Some 0 ∧
  processJobs mockIDs mockJobs mockFilters (Some zeroConfig) =
  Throw (Error "Missing required config fields: minScore or dedupeBy").
Proof.
  split; [reflexivity|].
  exact (proj1 processJobs_rejects_zero_minScore mockIDs mockJobs mockFilters zeroConfig
               eq_refl).
Defined.

(** ** Digest selection *)

Section SortByKey.

Context {A : Type} (key : A → Z).

(** The comparator [(a, b) => key(b) - key(a)]. *)
#[local] Abbreviation desc := (λ a b : A, key b - key a).

(** [a] may stand before [b]. *)
#[local] Abbreviation above := (λ a b : A, key b ≤ key a).

Lemma put_perm (x : A) (xs : list A) : put desc x xs ≡ₚ x :: xs.
Proof.
  induction xs as [|y ys IH]; simpl; [done|].
  destruct (key y - key x <=? 0); [done|]. rewrite IH. apply Permutation_swap.
Qed.

Lemma sort_perm (xs : list A) : sort desc xs ≡ₚ xs.
Proof.
  induction xs as [|x xs IH]; simpl; [done|]. by rewrite put_perm, IH.
Qed.

Lemma put_sorted (x : A) (xs : list A) :
  StronglySorted above xs → StronglySorted above (put desc x xs).
Proof.
  induction 1 as [|y ys Hys IH Hy]; simpl.
  - repeat constructor.
  - destruct (Z.leb_spec (key y - key x) 0) as [Hle|Hgt]; simpl in *.
    + constructor; [by constructor|]. constructor; [lia|].
      eapply Forall_impl; [exact Hy|]. simpl. intros z Hz. lia.
    + constructor; [done|]. rewrite put_perm. constructor; [lia | done].
Qed.

Lemma sort_sorted (xs : list A) : StronglySorted above (sort desc xs).
Proof.
  induction xs as [|x xs IH]; simpl; [constructor | by apply put_sorted].
Qed.

(** Stability: among the elements of one key the order is the one of the
    input. *)
Lemma put_stable (s : Z) (x : A) (xs : list A) :
  filter (λ a, key a = s) (put desc x xs) = filter (λ a, key a = s) (x :: xs).
Proof.
  induction xs as [|y ys IH]; simpl; [done|].
  destruct (Z.leb_spec (key y - key x) 0) as [Hle|Hgt]; [done|].
  rewrite (filter_cons _ y), IH, !(filter_cons _ x), (filter_cons _ y).
  destruct (decide (key x = s)), (decide (key y = s)); try done. lia.
Qed.

Lemma sort_stable (s : Z) (xs : list A) :
  filter (λ a, key a = s) (sort desc xs) = filter (λ a, key a = s) xs.
Proof.
  induction xs as [|x xs IH]; simpl; [done|].
  by rewrite put_stable, !filter_cons, IH.
Qed.

End SortByKey.

Section Selection.

Lemma slice0_prefix {A : Type} (xs : list A) (n : Z) : Js.slice0 xs n `prefix_of` xs.
Proof. unfold Js.slice0. destruct (n <? 0); apply prefix_take. Qed.

Lemma slice0_length {A : Type} (xs : list A) (n : Z) :
  0 ≤ n → Z.of_nat (length (Js.slice0 xs n)) ≤ n.
Proof.
  intros Hn. unfold Js.slice0. destruct (Z.ltb_spec n 0); [lia|].
  rewrite length_take. lia.
Qed.

(** The selection is a prefix of the eligible rows in score order. *)
Lemma eligibleJobs_prefix (config : Config) (jobs : list Job) :
  eligibleJobs config jobs `prefix_of` sort byScoreDesc (List.filter (eligible config) jobs).
Proof.
  unfold eligibleJobs. destruct (topN config); [apply slice0_prefix | done].
Qed.

Lemma eligibleJobs_elem (config : Config) (jobs : list Job) (j : Job) :
  j ∈ eligibleJobs config jobs → j ∈ jobs ∧ eligible config j = true.
Proof.
  intros Hj. destruct (eligibleJobs_prefix config jobs) as [rest Hrest].
  assert (j ∈ sort byScoreDesc (List.filter (eligible config) jobs)) as Hin.
  { rewrite Hrest. apply elem_of_app. by left. }
  rewrite (sort_perm (λ job, cellNumber (Score job))) in Hin.
  apply list_elem_of_In, filter_In in Hin as [Hin He]. by apply list_elem_of_In in Hin.
Qed.

Lemma eligible_inv (config : Config) (j : Job) :
  eligible config j = true →
  Status j = Some "New" ∧
  (∃ m, minScore config = Some m ∧ m ≤ cellNumber (Score j)) ∧
  (DateNotified j = None ∨ DateNotified j = Some "").
Proof.
  unfold eligible. intros H. apply andb_prop in H as [H Hd]. apply andb_prop in H as [Hs Hm].
  split; [by apply bool_decide_eq_true in Hs|]. split.
  - destruct (minScore config) as [m|]; [|done]. exists m. split; [done|]. lia.
  - destruct (DateNotified j) as [d|]; [|by left]. right. simpl in Hd.
    apply negb_true_iff, negb_false_iff, String.eqb_eq in Hd. by subst.
Qed.

End Selection.

(** C2. The digest selection holds at most [topN] listings when [topN] is
    not negative; every selected listing is a row with status New, with a
    score of at least [minScore] and with an empty notified date; the
    selection is in descending order of score; and among the eligible rows
    of one score it takes them in their order of arrival, first come first
    ranked. *)
Theorem eligibleJobs_selection (config : Config) (jobs : list Job) (n : Z) :
  topN config = Some n → 0 ≤ n →
  Z.of_nat (length (eligibleJobs config jobs)) ≤ n ∧
  (∀ j, j ∈ eligibleJobs config jobs →
        j ∈ jobs ∧ Status j = Some "New" ∧
        (∃ m, minScore config = Some m ∧ m ≤ cellNumber (Score j)) ∧
        (DateNotified j = None ∨ DateNotified j = Some "")) ∧
  StronglySorted (λ a b, cellNumber (Score b) ≤ cellNumber (Score a))
                 (eligibleJobs config jobs) ∧
  (∀ s, filter (λ j, cellNumber (Score j) = s) (eligibleJobs config jobs)
        `prefix_of`
        filter (λ j, cellNumber (Score j) = s) (List.filter (eligible config) jobs)).
Proof.
  intros Htop Hn. split; [|split; [|split]].
  - unfold eligibleJobs. rewrite Htop. by apply slice0_length.
  - intros j Hj. apply eligibleJobs_elem in Hj as [Hin He].
    split; [done|]. by apply eligible_inv.
  - destruct (eligibleJobs_prefix config jobs) as [rest Hrest].
    assert (StronglySorted (λ a b, cellNumber (Score b) ≤ cellNumber (Score a))
              (sort byScoreDesc (List.filter (eligible config) jobs))) as Hs
      by apply (sort_sorted (λ job, cellNumber (Score job))).
    rewrite Hrest in Hs. by apply StronglySorted_app_1_l in Hs.
  - intros s. destruct (eligibleJobs_prefix config jobs) as [rest Hrest].
    assert (filter (λ j, cellNumber (Score j) = s)
              (sort byScoreDesc (List.filter (eligible config) jobs)) =
            filter (λ j, cellNumber (Score j) = s) (List.filter (eligible config) jobs)) as <-
      by apply (sort_stable (λ job, cellNumber (Score job))).
    rewrite Hrest, filter_app. by eexists.
Qed.

Example eligibleJobs_digestRows :
  ID <$> eligibleJobs digestConfig digestRows = [Some "B"; Some "A"].
Proof. reflexivity. Qed.

Lemma eligibleJobs_selection_witness :
  topN digestConfig = Some 2 ∧ 0 ≤ 2 ∧
  Z.of_nat (length (eligibleJobs digestConfig digestRows)) ≤ 2 ∧
  (∀ j, j ∈ eligibleJobs digestConfig digestRows →
        j ∈ digestRows ∧ Status j = Some "New" ∧
        (∃ m, minScore digestConfig = Some m ∧ m ≤ cellNumber (Score j)) ∧
        (DateNotified j = None ∨ DateNotified j = Some "")) ∧
  StronglySorted (λ a b, cellNumber (Score b) ≤ cellNumber (Score a))
                 (eligibleJobs digestConfig digestRows) ∧
  (∀ s, filter (λ j, cellNumber (Score j) = s) (eligibleJobs digestConfig digestRows)
        `prefix_of`
        filter (λ j, cellNumber (Score j) = s) (List.filter (eligible digestConfig) digestRows)).
Proof.
  split; [reflexivity|]. split; [lia|].
  apply (eligibleJobs_selection digestConfig digestRows 2); [reflexivity | lia].
Defined.

(** ** Notification *)

Section Notification.

Variable formatDate : option string → string.

Lemma sameID_elem (emailedJobs : list Job) (row : Job) :
  existsb (λ job, bool_decide (ID job = ID row)) emailedJobs = true
  ↔ ∃ job, job ∈ emailedJobs ∧ ID job = ID row.
Proof.
  rewrite existsb_exists. split; intros (job & Hin & Hid); exists job.
  - split; [by apply list_elem_of_In | by apply bool_decide_eq_true in Hid].
  - split; [by apply list_elem_of_In | by apply bool_decide_eq_true].
Qed.

Lemma markNotified_selected (emailedJobs : list Job) (today : string) (row : Job) :
  row ∈ emailedJobs → markNotified emailedJobs today row = notified today row.
Proof.
  intros Hin. unfold markNotified.
  assert (existsb (λ job, bool_decide (ID job = ID row)) emailedJobs = true) as ->; [|done].
  apply sameID_elem. by exists row.
Qed.

Lemma markNotified_other (emailedJobs : list Job) (today : string) (row : Job) :
  (∀ job, job ∈ emailedJobs → ID job ≠ ID row) →
  markNotified emailedJobs today row = row.
Proof.
  intros Hne. unfold markNotified.
  destruct (existsb _ emailedJobs) eqn:He; [|done].
  apply sameID_elem in He as (job & Hin & Hid). by destruct (Hne job Hin).
Qed.

Lemma openJobsSheet_withGmail (w : World) (failure : option Exn) :
  openJobsSheet (withGmail w failure) = openJobsSheet w.
Proof. reflexivity. Qed.

Lemma eligibleJobs_nil (config : Config) : eligibleJobs config [] = [].
Proof.
  destruct (eligibleJobs_prefix config []) as [rest H]. simpl in H.
  symmetry in H. by apply app_eq_nil in H as [? _].
Qed.

(** A run of [sendJobDigest] that gets as far as the send. *)
Lemma sendJobDigest_send (config : Config) (w : World) (jobs : list Job) :
  Js.truthy (emailRecipient config) = true →
  Js.truthy_num (topN config) = true →
  from_option truthy_cell false (coverLetterDocId config) = true →
  openJobsSheet w = Ok jobs →
  eligibleJobs config jobs ≠ [] →
  sendJobDigest formatDate (Some config) w =
  match sendEmail (Js.template (emailRecipient config)) (eligibleJobs config jobs) w with
  | (Throw e, w') => (Throw e, w')
  | (Ok _, w') =>
      (Ok (length (eligibleJobs config jobs)),
       setJobsTab w' (markNotified (eligibleJobs config jobs)
                                   (formatDate (dateFormat config)) <$> jobs))
  end.
Proof.
  intros Hr Hn Hc Hopen Hsel. unfold sendJobDigest. rewrite Hr, Hn, Hc, Hopen. simpl.
  destruct jobs as [|job jobs]; [by rewrite eligibleJobs_nil in Hsel|].
  by destruct (eligibleJobs config (job :: jobs)).
Qed.

(** What [sendJobDigest] mails, when it mails, is the selection
    [eligibleJobs] makes among the rows of the Jobs tab. *)
Lemma sendJobDigest_mails_selection (config : Config) (w w' : World) (r : Result nat) :
  sendJobDigest formatDate (Some config) w = (r, w') →
  outbox w' = outbox w
  ∨ ∃ jobs, openJobsSheet w = Ok jobs ∧
            r = Ok (length (eligibleJobs config jobs)) ∧
            outbox w' = outbox w ++ [{| recipient := Js.template (emailRecipient config);
                                        digest := eligibleJobs config jobs |}].
Proof.
  unfold sendJobDigest, sendEmail.
  destruct (_ || _); [intros [= _ <-]; by left|].
  destruct (openJobsSheet w) as [[|job jobs]|e]; try (intros [= _ <-]; by left).
  destruct (eligibleJobs config (job :: jobs)) as [|sel sels] eqn:Hsel;
    [intros [= _ <-]; by left|].
  destruct (gmailFailure w); [intros [= _ <-]; by left|].
  simpl. intros [= <- <-]. right. exists (job :: jobs). by rewrite Hsel.
Qed.

End Notification.

(** C6. Marking is all-or-nothing with respect to the send. When
    [GmailApp.sendEmail] throws, [sendJobDigest] throws the same error and
    leaves the world, and with it every row of the Jobs tab, as it was; the
    same world with the mail service up again is the retry, and it mails the
    same selection. When the send goes through, every row that was selected
    gets status Notified and the date of the day, and a row whose identifier
    is not among the selected ones is left alone. *)
Theorem sendJobDigest_all_or_nothing (formatDate : option string → string)
    (config : Config) (w : World) (jobs : list Job) :
  Js.truthy (emailRecipient config) = true →
  Js.truthy_num (topN config) = true →
  from_option truthy_cell false (coverLetterDocId config) = true →
  openJobsSheet w = Ok jobs →
  eligibleJobs config jobs ≠ [] →
  (∀ exn, sendJobDigest formatDate (Some config) (withGmail w (Some exn)) =
          (Throw exn, withGmail w (Some exn)))
  ∧ ∃ rows,
      sendJobDigest formatDate (Some config) (withGmail w None) =
      (Ok (length (eligibleJobs config jobs)),
       setJobsTab (pushMail (withGmail w None)
                     {| recipient := Js.template (emailRecipient config);
                        digest := eligibleJobs config jobs |}) rows) ∧
      length rows = length jobs ∧
      (∀ i row, jobs !! i = Some row → row ∈ eligibleJobs config jobs →
                rows !! i = Some (notified (formatDate (dateFormat config)) row)) ∧
      (∀ i row, jobs !! i = Some row →
                (∀ job, job ∈ eligibleJobs config jobs → ID job ≠ ID row) →
                rows !! i = Some row).
Proof.
  intros Hr Hn Hc Hopen Hsel. split.
  - intros exn. by rewrite (sendJobDigest_send formatDate config _ jobs).
  - exists (markNotified (eligibleJobs config jobs) (formatDate (dateFormat config)) <$> jobs).
    split; [by rewrite (sendJobDigest_send formatDate config _ jobs)|].
    split; [by rewrite length_fmap|]. split.
    + intros i row Hi Hin. rewrite list_lookup_fmap, Hi. simpl.
      by rewrite markNotified_selected.
    + intros i row Hi Hne. rewrite list_lookup_fmap, Hi. simpl.
      by rewrite markNotified_other.
Qed.

Lemma sendJobDigest_all_or_nothing_witness :
  Js.truthy (emailRecipient digestConfig) = true ∧
  Js.truthy_num (topN digestConfig) = true ∧
  from_option truthy_cell false (coverLetterDocId digestConfig) = true ∧
  openJobsSheet digestWorld = Ok digestRows ∧
  eligibleJobs digestConfig digestRows ≠ [] ∧
  (∀ exn, sendJobDigest digestDay (Some digestConfig) (withGmail digestWorld (Some exn)) =
          (Throw exn, withGmail digestWorld (Some exn)))
  ∧ ∃ rows,
      sendJobDigest digestDay (Some digestConfig) (withGmail digestWorld None) =
      (Ok (length (eligibleJobs digestConfig digestRows)),
       setJobsTab (pushMail (withGmail digestWorld None)
                     {| recipient := Js.template (emailRecipient digestConfig);
                        digest := eligibleJobs digestConfig digestRows |}) rows) ∧
      length rows = length digestRows ∧
      (∀ i row, digestRows !! i = Some row → row ∈ eligibleJobs digestConfig digestRows →
                rows !! i = Some (notified (digestDay (dateFormat digestConfig)) row)) ∧
      (∀ i row, digestRows !! i = Some row →
                (∀ job, job ∈ eligibleJobs digestConfig digestRows → ID job ≠ ID row) →
                rows !! i = Some row).
Proof.
  split; [reflexivity|]. split; [reflexivity|]. split; [reflexivity|].
  split; [reflexivity|]. split; [discriminate|].
  apply (sendJobDigest_all_or_nothing digestDay digestConfig digestWorld digestRows);
    [reflexivity | reflexivity | reflexivity | reflexivity | discriminate].
Defined.

(** The digest of [digestRows]: after a failed send nothing is marked, after
    the retry the two selected rows are. *)
Example sendJobDigest_retry :
  let failed := sendJobDigest digestDay (Some digestConfig)
                  (withGmail digestWorld (Some (Error "Limit Exceeded: Email"))) in
  let retried := sendJobDigest digestDay (Some digestConfig) (withGmail failed.2 None) in
  failed.1 = Throw (Error "Limit Exceeded: Email") ∧
  JobsTab failed.2 = Some digestRows ∧
  retried.1 = Ok 2%nat ∧
  ∃ rows : list Job,
    JobsTab retried.2 = Some rows ∧
    Status <$> rows =
    [Some "Notified"; Some "Notified"; Some "New"; Some "New"; Some "New"; Some "Ignore"] ∧
    DateNotified <$> rows =
    [Some "2025-09-14"; Some "2025-09-14"; Some ""; Some "2025-09-12"; Some ""; Some ""].
Proof.
  split; [reflexivity|]. split; [reflexivity|]. split; [reflexivity|].
  eexists. split; [vm_compute; reflexivity|]. split; reflexivity.
Qed.

(** ** Scraping *)

Section Scraping.

Variable fetchSingleRSS : string → string → string → Result (list Job).
Variable today : string.

Lemma scrape_step_fetched (jobs : list Job) (source : SourceRow) :
  scrape_step fetchSingleRSS today jobs source = jobs ++ fetched fetchSingleRSS today source.
Proof.
  unfold scrape_step, fetched. rewrite <- negb_andb.
  destruct (Js.truthy (SourceName source) && Js.truthy (URL source)); simpl.
  - destruct (fetchSingleRSS _ _ _); [done | by rewrite app_nil_r].
  - by rewrite app_nil_r.
Qed.

Lemma scrape_loop (sources : list SourceRow) (jobs : list Job) :
  fold_left (scrape_step fetchSingleRSS today) sources jobs =
  jobs ++ concat (fetched fetchSingleRSS today <$> sources).
Proof.
  revert jobs. induction sources as [|source sources IH]; intros jobs; simpl.
  - by rewrite app_nil_r.
  - by rewrite IH, scrape_step_fetched, <- app_assoc.
Qed.

Lemma scrapeJobs_fetched (sources : list SourceRow) :
  sources ≠ [] →
  scrapeJobs fetchSingleRSS today sources = Ok (concat (fetched fetchSingleRSS today <$> sources)).
Proof.
  intros Hne. unfold scrapeJobs. destruct sources as [|source sources]; [done|].
  by rewrite scrape_loop.
Qed.

End Scraping.

(** C7. [scrapeJobs] returns on every non-empty source list, whatever the
    fetches do, and its result is made of the jobs of every source whose
    fetch returned, in source order: a source whose fetch throws contributes
    nothing and takes nothing away, so the result is the one of the list
    without that source. *)
Theorem scrapeJobs_isolates_failures
    (fetchSingleRSS : string → string → string → Result (list Job)) (today : string) :
  (∀ sources, sources ≠ [] →
     scrapeJobs fetchSingleRSS today sources =
     Ok (concat (fetched fetchSingleRSS today <$> sources)))
  ∧ (∀ pre source post e,
       pre ++ post ≠ [] →
       fetchSingleRSS (Js.template (URL source)) (Js.template (SourceName source)) today
       = Throw e →
       scrapeJobs fetchSingleRSS today (pre ++ source :: post) =
       scrapeJobs fetchSingleRSS today (pre ++ post)).
Proof.
  split; [apply scrapeJobs_fetched|].
  intros pre source post e Hne Hthrow.
  rewrite !scrapeJobs_fetched by (done || by destruct pre).
  rewrite !fmap_app, fmap_cons, !concat_app. simpl.
  assert (fetched fetchSingleRSS today source = []) as ->; [|done].
  unfold fetched. rewrite Hthrow. by destruct (_ && _).
Qed.

Lemma scrapeJobs_isolates_failures_witness :
  mockSources ≠ [] ∧
  scrapeJobs mockFetch "2025-09-13" mockSources =
  Ok (concat (fetched mockFetch "2025-09-13" <$> mockSources)) ∧
  Title <$> concat (fetched mockFetch "2025-09-13" <$> mockSources) = [Some "Test Job"].
Proof.
  split; [discriminate|]. split; [|reflexivity].
  apply (proj1 (scrapeJobs_isolates_failures mockFetch "2025-09-13") mockSources).
  discriminate.
Defined.

(** ** Appending *)

Section Appending.

Lemma getExistingLinks_elem (rows : list Job) (l : option string) :
  l ∈ getExistingLinks rows ↔ isExistingLink l = true ∧ l ∈ (Link <$> rows).
Proof.
  unfold getExistingLinks. destruct rows as [|row rows].
  - split; [set_solver | intros [_ H]; by apply elem_of_nil in H].
  - rewrite elem_of_list_to_set, list_elem_of_In, filter_In, <- list_elem_of_In. tauto.
Qed.

(** An iteration of the loop of [appendJobs] on a job whose link is in the
    Jobs tab already leaves the state as it is. *)
Lemma append_loop_skip (existingLinks : gset (option string)) (batch : list Job)
    (st : AppendState) :
  (∀ job, job ∈ batch → missingFields job = false → Link job ∈ existingLinks) →
  fold_left (append_step existingLinks) batch st = st.
Proof.
  revert st. induction batch as [|job batch IH]; intros st Hall; simpl; [done|].
  assert (append_step existingLinks st job = st) as ->.
  { unfold append_step. destruct (missingFields job) eqn:Hm; [done|].
    rewrite bool_decide_eq_true_2; [done|]. apply Hall; [by left | done]. }
  apply IH. intros j Hj. apply Hall. by right.
Qed.

(** After the loop every job of the batch with all its fields has its link
    in the Jobs tab or among the rows to append. *)
Lemma append_loop (existingLinks : gset (option string)) (batch : list Job)
    (st : AppendState) :
  (∀ l, l ∈ seenLinksInBatch st → l ∈ (Link <$> jobsToAppend st)) →
  let st' := fold_left (append_step existingLinks) batch st in
  (∀ l, l ∈ seenLinksInBatch st' → l ∈ (Link <$> jobsToAppend st')) ∧
  (∀ l, l ∈ seenLinksInBatch st → l ∈ seenLinksInBatch st') ∧
  (∀ job, job ∈ batch → missingFields job = false →
          Link job ∈ existingLinks ∨ Link job ∈ seenLinksInBatch st').
Proof.
  revert st. induction batch as [|job batch IH]; intros st Hseen; simpl.
  - split; [done|]. split; [done|]. intros job Hjob. by apply elem_of_nil in Hjob.
  - set (st1 := append_step existingLinks st job).
    assert ((∀ l, l ∈ seenLinksInBatch st1 → l ∈ (Link <$> jobsToAppend st1)) ∧
            (∀ l, l ∈ seenLinksInBatch st → l ∈ seenLinksInBatch st1) ∧
            (missingFields job = false →
             Link job ∈ existingLinks ∨ Link job ∈ seenLinksInBatch st1)) as (H1 & H2 & H3).
    { subst st1. unfold append_step. destruct (missingFields job); [by repeat split|].
      destruct (decide (Link job ∈ existingLinks)) as [He|He].
      { rewrite (bool_decide_eq_true_2 _ He). simpl. split; [done|]. split; [done|]. by left. }
      rewrite (bool_decide_eq_false_2 _ He). simpl.
      destruct (decide (Link job ∈ seenLinksInBatch st)) as [Hs|Hs].
      { rewrite (bool_decide_eq_true_2 _ Hs). split; [done|]. split; [done|]. by right. }
      rewrite (bool_decide_eq_false_2 _ Hs). simpl. split; [|split].
      - intros l Hl. rewrite fmap_app. apply elem_of_app.
        apply elem_of_union in Hl as [Hl|Hl]; [right | left; by apply Hseen].
        apply elem_of_singleton in Hl as ->. simpl. by left.
      - intros l Hl. apply elem_of_union. by right.
      - intros _. right. apply elem_of_union. left. by apply elem_of_singleton. }
    destruct (IH st1 H1) as (IH1 & IH2 & IH3).
    split; [done|]. split; [by intros l Hl; apply IH2, H2|].
    intros j Hj Hm. apply elem_of_cons in Hj as [->|Hj]; [|by apply IH3].
    destruct (H3 Hm) as [?|?]; [by left | right; by apply IH2].
Qed.

(** Where the second run does append nothing: when every link of the batch
    is one [getExistingLinks] keeps, a text that contains http. *)
Lemma appendJobs_twice_http (batch : list Job) (config : Config) (w w1 : World) (n : nat) :
  (∀ job, job ∈ batch → missingFields job = false → isExistingLink (Link job) = true) →
  appendJobs batch (Some config) w = (Ok n, w1) →
  appendJobs batch (Some config) w1 = (Ok 0%nat, w1).
Proof.
  intros Hhttp. unfold appendJobs.
  destruct (negb (Js.truthy (dedupeBy config)) || negb (Js.truthy_num (minScore config)));
    [done|].
  destruct (negb (bool_decide (dedupeBy config = Some "link"))); [done|].
  destruct (openJobsSheet w) as [rows|e] eqn:Hopen; [|done].
  pose proof (append_loop (getExistingLinks rows) batch
                {| seenLinksInBatch := ∅; jobsToAppend := [] |}) as Hloop.
  simpl in Hloop. destruct Hloop as (Hseen & _ & Hall); [set_solver|].
  set (st := fold_left (append_step (getExistingLinks rows)) batch
               {| seenLinksInBatch := ∅; jobsToAppend := [] |}) in *.
  intros Hfirst.
  assert (openJobsSheet w1 = Ok (rows ++ jobsToAppend st)) as Hopen1.
  { unfold openJobsSheet in Hopen |- *.
    destruct (negb (Js.truthy (SHEET_ID w))) eqn:Hid; [done|].
    destruct (JobsTab w) as [rows0|] eqn:Htab; [|done]. injection Hopen as ->.
    destruct (jobsToAppend st) as [|r rs] eqn:Hst; injection Hfirst as <- <-.
    - by rewrite Hid, Htab, app_nil_r.
    - simpl. by rewrite Hid. }
  rewrite Hopen1, append_loop_skip; [done|].
  intros job Hjob Hm. apply getExistingLinks_elem. split; [by apply Hhttp|].
  rewrite fmap_app. apply elem_of_app.
  destruct (Hall job Hjob Hm) as [He|Hs].
  - left. by apply getExistingLinks_elem in He as [_ ?].
  - right. by apply Hseen.
Qed.

End Appending.

(** C5, at the input where the code departs from it. The batch that
    [processJobs] makes of [mailtoJobs] is appended by a first [appendJobs],
    and appended again by a second one on the resulting Jobs tab, which then
    holds the listing twice: [getExistingLinks] drops the link because it
    does not contain http. *)
Theorem appendJobs_reappends_link_without_http :
  ∃ (batch : list Job) (w1 w2 : World),
    processJobs mockIDs mailtoJobs mockFilters (Some mockConfig) = Ok batch ∧
    appendJobs batch (Some mockConfig) emptyJobsTab = (Ok 1%nat, w1) ∧
    getExistingLinks (default [] (JobsTab w1)) = ∅ ∧
    appendJobs batch (Some mockConfig) w1 = (Ok 1%nat, w2) ∧
    Link <$> default [] (JobsTab w2) =
    [Some "mailto:jobs@energygrid.example"; Some "mailto:jobs@energygrid.example"].
Proof.
  eexists _, _, _.
  split; [vm_compute; reflexivity|].
  split; [vm_compute; reflexivity|].
  split; [vm_compute; reflexivity|].
  split; [vm_compute; reflexivity|].
  vm_compute. reflexivity.
Qed.

(** ** The scenario of the specification, end to end *)

(** The three listings of [mockJobs] against the three rules with a minimum
    score of 1: the pipeline appends the first two, and the digest of at most
    ten holds the first alone. *)
Example end_to_end :
  ∃ (batch : list Job) (w1 : World),
    processJobs mockIDs mockJobs mockFilters (Some mockConfig) = Ok batch ∧
    appendJobs batch (Some mockConfig) emptyJobsTab = (Ok 2%nat, w1) ∧
    appendJobs batch (Some mockConfig) w1 = (Ok 0%nat, w1) ∧
    Link <$> eligibleJobs (mkConfig (Some "test@example.com") (Some 1) (Some 10)
                                    (Some "link") (Some "yyyy-MM-dd") None)
                          (default [] (JobsTab w1)) =
    [Some "https://example.com/job1"].
Proof.
  eexists _, _.
  split; [vm_compute; reflexivity|].
  split; [vm_compute; reflexivity|].
  split; [vm_compute; reflexivity|].
  vm_compute. reflexivity.
Qed.

(** * Further properties of the code *)

(** ** The scorer: integer weights add up exactly, letter case does not count *)

Section ScorerAlgebra.

Lemma sumZ_app (xs ys : list Z) : sumZ (xs ++ ys) = sumZ xs + sumZ ys.
Proof. unfold sumZ. induction xs as [|x xs IH]; simpl; [done | rewrite IH; lia]. Qed.

Lemma sumZ_perm (xs ys : list Z) : xs ≡ₚ ys → sumZ xs = sumZ ys.
Proof. unfold sumZ. induction 1; simpl; lia. Qed.

Lemma sumAbs_nonneg (xs : list Z) : 0 ≤ sumAbs xs.
Proof. unfold sumAbs. induction xs as [|x xs IH]; simpl; lia. Qed.

Lemma sumAbs_app (xs ys : list Z) : sumAbs (xs ++ ys) = sumAbs xs + sumAbs ys.
Proof. unfold sumAbs. induction xs as [|x xs IH]; simpl; [done | rewrite IH; lia]. Qed.

Lemma sumAbs_perm (xs ys : list Z) : xs ≡ₚ ys → sumAbs xs = sumAbs ys.
Proof. unfold sumAbs. induction 1; simpl; lia. Qed.

Lemma sumAbs_filter {A} (P : A → Prop) `{∀ x, Decision (P x)} (f : A → Z) (xs : list A) :
  sumAbs (f <$> filter P xs) ≤ sumAbs (f <$> xs).
Proof.
  induction xs as [|x xs IH]; [done|]. rewrite filter_cons.
  destruct (decide (P x)); rewrite ?fmap_cons; unfold sumAbs in *; simpl; lia.
Qed.

Lemma for_of_ext {A S : Type} (f g : S → A → Result S) (xs : list A) (s : S) :
  (∀ s x, x ∈ xs → f s x = g s x) → for_of f xs s = for_of g xs s.
Proof.
  revert s. induction xs as [|x xs IH]; intros s Hfg; [done|].
  rewrite !for_of_cons, Hfg by left. destruct (g s x); simpl; [|done].
  apply IH. intros s' y Hy. apply Hfg. by right.
Qed.

Context {Num : Type}.
Variable toLowerCase : string → string.
Variable zero : Num.
Variable add : Num → Num → Num.

Section Integers.

Variable ofZ : Z → Num.
Variable bound : Z.
Hypothesis zero_ofZ : zero = ofZ 0.
Hypothesis add_ofZ : ∀ a b : Z,
  Z.abs a ≤ bound → Z.abs b ≤ bound → Z.abs (a + b) ≤ bound →
  add (ofZ a) (ofZ b) = ofZ (a + b).

(** Adding integers within the bound one after the other makes no
    rounding error. *)
Lemma fold_add_ofZ (ws : list Z) (a : Z) :
  Z.abs a + sumAbs ws ≤ bound →
  fold_left add (ofZ <$> ws) (ofZ a) = ofZ (a + sumZ ws).
Proof.
  revert a. induction ws as [|w ws IH]; intros a Hb.
  - simpl. f_equal. unfold sumZ. simpl. lia.
  - pose proof (sumAbs_nonneg ws). unfold sumAbs in Hb, H. simpl in Hb.
    rewrite fmap_cons. simpl. rewrite add_ofZ by lia.
    rewrite IH by (unfold sumAbs; lia). f_equal. unfold sumZ. simpl. lia.
Qed.

(** The rules that hold among rules with integer weights. *)
#[local] Abbreviation holding job rules :=
  (filter (λ rule : Filter, Scoring.RuleHolds toLowerCase job (ruleOf ofZ rule)) rules).

Lemma filter_ruleOf (job : Job) (rules : list Filter) :
  filter (Scoring.RuleHolds toLowerCase job) (ruleOf ofZ <$> rules)
  = ruleOf ofZ <$> holding job rules.
Proof.
  induction rules as [|rule rules IH]; [done|].
  rewrite fmap_cons, !filter_cons, IH.
  by destruct (decide (Scoring.RuleHolds toLowerCase job (ruleOf ofZ rule))).
Qed.

Lemma Readable_ruleOf (job : Job) (rules : list Filter) :
  is_Some (Title job) ∨ Forall (λ rule, Type_ rule ≠ "title") rules →
  Scoring.Readable job (ruleOf ofZ <$> rules).
Proof.
  intros Ht. split.
  - apply Forall_fmap, Forall_forall. intros rule _. by eexists.
  - destruct Ht as [Ht|Ht]; [by left|]. right. by apply Forall_fmap.
Qed.

(** With integer weights whose magnitudes add up to no more than the
    bound, the runtime's score is the integer sum. *)
Lemma calculateScore_ruleOf (job : Job) (rules : list Filter) :
  is_Some (Title job) ∨ Forall (λ rule, Type_ rule ≠ "title") rules →
  sumAbs (Weight <$> rules) ≤ bound →
  Runtime.calculateScore toLowerCase zero add (Some job) (Some (ruleOf ofZ <$> rules)) =
  Ok {| Runtime.score := ofZ (sumZ (Weight <$> holding job rules));
        Runtime.matchedKeywords := Keyword <$> holding job rules |}.
Proof.
  intros Ht Hb.
  rewrite (runtime_calculateScore_readable toLowerCase zero add job _
             (Readable_ruleOf job rules Ht)).
  rewrite filter_ruleOf. unfold Scoring.total. f_equal. f_equal.
  - rewrite <- list_fmap_compose, zero_ofZ.
    rewrite (list_fmap_compose Weight ofZ), fold_add_ofZ; [done|].
    pose proof (sumAbs_filter
      (λ rule : Filter, Scoring.RuleHolds toLowerCase job (ruleOf ofZ rule)) Weight rules).
    simpl. lia.
  - induction (holding job rules) as [|r rs IH]; [done|].
    rewrite !fmap_cons. cbn [omap list_omap]. simpl. by rewrite <- IH.
Qed.

End Integers.

Section LetterCase.

Hypothesis toLowerCase_space : ∀ a b : string,
  toLowerCase (a +:+ " " +:+ b) = toLowerCase a +:+ " " +:+ toLowerCase b.

Lemma sameField_template (a b : option string) :
  sameField toLowerCase a b → toLowerCase (Js.template a) = toLowerCase (Js.template b).
Proof. by destruct a, b. Qed.

Lemma sameField_allText (job job' : Job) :
  sameField toLowerCase (Title job) (Title job') →
  sameField toLowerCase (Company job) (Company job') →
  sameField toLowerCase (Location job) (Location job') →
  sameField toLowerCase (Snippet job) (Snippet job') →
  Runtime.allText toLowerCase job = Runtime.allText toLowerCase job'.
Proof.
  intros Ht%sameField_template Hc%sameField_template Hl%sameField_template
         Hs%sameField_template.
  unfold Runtime.allText. rewrite !toLowerCase_space. congruence.
Qed.

Lemma sameRule_step (job job' : Job) (text : string) (acc acc' : Runtime.ScoreResult Num)
    (rule rule' : Runtime.Filter Num) :
  sameField toLowerCase (Title job) (Title job') →
  sameRule toLowerCase rule rule' →
  sameOutcome toLowerCase (Ok acc) (Ok acc') →
  sameOutcome toLowerCase
    (Runtime.score_step toLowerCase add job text acc rule)
    (Runtime.score_step toLowerCase add job' text acc' rule').
Proof.
  intros Ht (Hk & Hw & Hty) [Hs Hm]. unfold Runtime.score_step, Runtime.isMatch.
  rewrite <- Hw, <- Hty.
  destruct (Runtime.Keyword rule) as [x| |], (Runtime.Keyword rule') as [y| |]; try done.
  rewrite <- Hk.
  destruct (String.eqb (Runtime.Type_ rule) "title").
  - destruct (Title job) as [t|], (Title job') as [t'|]; try done. simpl in Ht.
    rewrite <- Ht. simpl. destruct (Js.includes _ _); simpl; [|done].
    split; [by rewrite Hs|]. apply Forall2_app; [done|]. by constructor.
  - destruct (_ || _); simpl; [|done].
    destruct (Js.includes _ _); simpl; [|done].
    split; [by rewrite Hs|]. apply Forall2_app; [done|]. by constructor.
Qed.

Lemma sameRule_loop (job job' : Job) (text : string) (fs fs' : list (Runtime.Filter Num))
    (acc acc' : Runtime.ScoreResult Num) :
  sameField toLowerCase (Title job) (Title job') →
  Forall2 (sameRule toLowerCase) fs fs' →
  sameOutcome toLowerCase (Ok acc) (Ok acc') →
  sameOutcome toLowerCase
    (for_of (Runtime.score_step toLowerCase add job text) fs acc)
    (for_of (Runtime.score_step toLowerCase add job' text) fs' acc').
Proof.
  intros Ht Hfs. revert acc acc'.
  induction Hfs as [|rule rule' fs fs' Hr Hfs IH]; intros acc acc' Hacc; [done|].
  rewrite !for_of_cons.
  pose proof (sameRule_step job job' text acc acc' rule rule' Ht Hr Hacc) as Hstep.
  destruct (Runtime.score_step _ _ job _ acc rule) as [r|e],
           (Runtime.score_step _ _ job' _ acc' rule') as [r'|e']; try done.
  simpl. by apply IH.
Qed.

Lemma calculateScore_sameOutcome (job job' : Job) (fs fs' : list (Runtime.Filter Num)) :
  sameField toLowerCase (Title job) (Title job') →
  sameField toLowerCase (Company job) (Company job') →
  sameField toLowerCase (Location job) (Location job') →
  sameField toLowerCase (Snippet job) (Snippet job') →
  Forall2 (sameRule toLowerCase) fs fs' →
  sameOutcome toLowerCase
    (Runtime.calculateScore toLowerCase zero add (Some job) (Some fs))
    (Runtime.calculateScore toLowerCase zero add (Some job') (Some fs')).
Proof.
  intros Ht Hc Hl Hs Hfs. unfold Runtime.calculateScore.
  rewrite <- (sameField_allText job job') by done.
  apply sameRule_loop; [done | done | by split].
Qed.

End LetterCase.

End ScorerAlgebra.

Lemma latin1_toLowerCase_app (a b : string) :
  latin1_toLowerCase (a +:+ b) = latin1_toLowerCase a +:+ latin1_toLowerCase b.
Proof. induction a as [|x a IH]; simpl; [done | by rewrite IH]. Qed.

(** X1. With integer weights the score is exact and rule lists compose.
    On a runtime that adds integers of magnitude up to some bound without
    error (2^53 for doubles), and for rules with text keywords and integer
    weights whose magnitudes add up to no more than the bound, the score of
    a listing against two rule lists put end to end is the sum of its
    scores against each, its matched keywords are those of the first
    followed by those of the second, and the score does not depend on the
    order of the rules. *)
Theorem calculateScore_app_perm (toLowerCase : string → string) (Num : Type)
    (zero : Num) (add : Num → Num → Num) (ofZ : Z → Num) (bound : Z)
    (job : Job) (fs gs : list Filter) :
  zero = ofZ 0 →
  (∀ a b : Z, Z.abs a ≤ bound → Z.abs b ≤ bound → Z.abs (a + b) ≤ bound →
              add (ofZ a) (ofZ b) = ofZ (a + b)) →
  sumAbs (Weight <$> fs ++ gs) ≤ bound →
  is_Some (Title job) ∨ Forall (λ rule, Type_ rule ≠ "title") (fs ++ gs) →
  ∃ (s1 s2 : Z) (ks1 ks2 : list string),
    Runtime.calculateScore toLowerCase zero add (Some job) (Some (ruleOf ofZ <$> fs)) =
      Ok {| Runtime.score := ofZ s1; Runtime.matchedKeywords := ks1 |} ∧
    Runtime.calculateScore toLowerCase zero add (Some job) (Some (ruleOf ofZ <$> gs)) =
      Ok {| Runtime.score := ofZ s2; Runtime.matchedKeywords := ks2 |} ∧
    Runtime.calculateScore toLowerCase zero add (Some job) (Some (ruleOf ofZ <$> fs ++ gs)) =
      Ok {| Runtime.score := ofZ (s1 + s2); Runtime.matchedKeywords := ks1 ++ ks2 |} ∧
    ∀ hs, hs ≡ₚ fs ++ gs →
      ∃ ks, Runtime.calculateScore toLowerCase zero add (Some job) (Some (ruleOf ofZ <$> hs)) =
              Ok {| Runtime.score := ofZ (s1 + s2); Runtime.matchedKeywords := ks |} ∧
            ks ≡ₚ ks1 ++ ks2.
Proof.
  intros Hzero Hadd Hb Ht.
  pose proof (sumAbs_nonneg (Weight <$> fs)). pose proof (sumAbs_nonneg (Weight <$> gs)).
  rewrite fmap_app, sumAbs_app in Hb.
  assert (is_Some (Title job) ∨ Forall (λ rule, Type_ rule ≠ "title") fs) as Htf.
  { destruct Ht as [?|[? ?]%Forall_app]; eauto. }
  assert (is_Some (Title job) ∨ Forall (λ rule, Type_ rule ≠ "title") gs) as Htg.
  { destruct Ht as [?|[? ?]%Forall_app]; eauto. }
  eexists _, _, _, _.
  split; [by apply (calculateScore_ruleOf toLowerCase zero add ofZ bound); [..|lia]|].
  split; [by apply (calculateScore_ruleOf toLowerCase zero add ofZ bound); [..|lia]|].
  split.
  - rewrite (calculateScore_ruleOf toLowerCase zero add ofZ bound Hzero Hadd job (fs ++ gs) Ht)
      by (rewrite fmap_app, sumAbs_app; lia).
    by rewrite filter_app, !fmap_app, sumZ_app.
  - intros hs Hp.
    exists (Keyword <$> filter (λ rule : Filter,
                                  Scoring.RuleHolds toLowerCase job (ruleOf ofZ rule)) hs).
    split; [|by rewrite Hp, filter_app, fmap_app].
    rewrite (calculateScore_ruleOf toLowerCase zero add ofZ bound Hzero Hadd job hs).
    + f_equal. f_equal. f_equal. rewrite <- sumZ_app, <- fmap_app, <- filter_app.
      apply sumZ_perm. by rewrite Hp.
    + destruct Ht as [?|Ht]; [by left|]. right. by rewrite Hp.
    + rewrite (sumAbs_perm (Weight <$> hs) (Weight <$> fs ++ gs)) by (by rewrite Hp).
      rewrite fmap_app, sumAbs_app. lia.
Qed.

Lemma calculateScore_app_perm_witness :
  ∃ (s1 s2 : Z) (ks1 ks2 : list string),
    Runtime.calculateScore Js.toLowerCase 0 Z.add (Some listing_POWER)
                           (Some (ruleOf id <$> [rule_power])) =
      Ok {| Runtime.score := s1; Runtime.matchedKeywords := ks1 |} ∧
    Runtime.calculateScore Js.toLowerCase 0 Z.add (Some listing_POWER)
                           (Some (ruleOf id <$> mockFilters)) =
      Ok {| Runtime.score := s2; Runtime.matchedKeywords := ks2 |} ∧
    Runtime.calculateScore Js.toLowerCase 0 Z.add (Some listing_POWER)
                           (Some (ruleOf id <$> [rule_power] ++ mockFilters)) =
      Ok {| Runtime.score := s1 + s2; Runtime.matchedKeywords := ks1 ++ ks2 |} ∧
    ∀ hs, hs ≡ₚ [rule_power] ++ mockFilters →
      ∃ ks, Runtime.calculateScore Js.toLowerCase 0 Z.add (Some listing_POWER)
                                   (Some (ruleOf id <$> hs)) =
              Ok {| Runtime.score := s1 + s2; Runtime.matchedKeywords := ks |} ∧
            ks ≡ₚ ks1 ++ ks2.
Proof.
  apply (calculateScore_app_perm Js.toLowerCase Z 0 Z.add id (2 ^ 53) listing_POWER
           [rule_power] mockFilters).
  - reflexivity.
  - reflexivity.
  - by vm_compute.
  - left. by exists "POWER".
Defined.

(** With an addition that rounds, the order of the rules matters. *)
Example calculateScore_order_matters :
  Runtime.calculateScore Js.toLowerCase 0 saturating (Some listing_POWER)
    (Some [rule_power_of 8; rule_power_of 1; rule_power_of (-1)]) =
  Ok {| Runtime.score := 7; Runtime.matchedKeywords := ["power"; "power"; "power"] |}
  ∧ Runtime.calculateScore Js.toLowerCase 0 saturating (Some listing_POWER)
      (Some [rule_power_of 1; rule_power_of (-1); rule_power_of 8]) =
    Ok {| Runtime.score := 8; Runtime.matchedKeywords := ["power"; "power"; "power"] |}.
Proof. split; reflexivity. Qed.

(** X2. Letter case does not count, for the letters of every script. On a
    runtime whose [toLowerCase] treats the two sides of a space apart, take
    two listings whose title, organization, location and snippet are absent
    in both or are texts that [toLowerCase] makes the same, and two rule
    lists that differ at most in the letter case of their keywords: the
    scorer throws the same error on both, or returns the same score on both
    with matched keywords that differ in letter case at most. *)
Theorem calculateScore_case_insensitive (toLowerCase : string → string) (Num : Type)
    (zero : Num) (add : Num → Num → Num) (job job' : Job)
    (fs fs' : list (Runtime.Filter Num)) :
  (∀ a b : string,
     toLowerCase (a +:+ " " +:+ b) = toLowerCase a +:+ " " +:+ toLowerCase b) →
  sameField toLowerCase (Title job) (Title job') →
  sameField toLowerCase (Company job) (Company job') →
  sameField toLowerCase (Location job) (Location job') →
  sameField toLowerCase (Snippet job) (Snippet job') →
  Forall2 (sameRule toLowerCase) fs fs' →
  sameOutcome toLowerCase
    (Runtime.calculateScore toLowerCase zero add (Some job) (Some fs))
    (Runtime.calculateScore toLowerCase zero add (Some job') (Some fs')).
Proof. intros. by apply calculateScore_sameOutcome. Qed.

Lemma calculateScore_case_insensitive_witness :
  Runtime.calculateScore latin1_toLowerCase 0 Z.add (Some listing_BUERO) (Some [rule_buero]) =
    Ok {| Runtime.score := 5;
          Runtime.matchedKeywords := ["b" +:+ String (ascii_of_N 252) "ro"] |} ∧
  sameOutcome latin1_toLowerCase
    (Runtime.calculateScore latin1_toLowerCase 0 Z.add (Some listing_BUERO)
                            (Some [rule_buero]))
    (Runtime.calculateScore latin1_toLowerCase 0 Z.add
       (Some (mkJob None None (Some ("B" +:+ String (ascii_of_N 252) "ro leitung")) None None
                    None None None None None None None))
       (Some [Runtime.mkFilter (Runtime.VStr ("B" +:+ String (ascii_of_N 220) "RO")) 5
                               "title"])).
Proof.
  split; [reflexivity|].
  apply calculateScore_case_insensitive; try done.
  - intros a b. by rewrite !latin1_toLowerCase_app.
  - by repeat constructor.
Defined.

(** ** Appending: what reaches the Jobs tab *)

Section AppendRows.

Lemma toRow_Link (job : Job) : Link (toRow job) = Link job.
Proof. reflexivity. Qed.

Lemma toRow_Status (job : Job) : Status (toRow job) ∈ (Some <$> validStatuses).
Proof.
  unfold toRow. simpl. destruct (bool_decide _) eqn:H.
  - by apply bool_decide_eq_true in H.
  - set_solver.
Qed.

(** The rows the loop of [appendJobs] adds to its list. *)
Lemma append_loop_rows (existingLinks : gset (option string)) (batch : list Job)
    (st : AppendState) :
  ∃ new,
    jobsToAppend (fold_left (append_step existingLinks) batch st) = jobsToAppend st ++ new ∧
    (∀ l, l ∈ seenLinksInBatch (fold_left (append_step existingLinks) batch st)
          ↔ l ∈ seenLinksInBatch st ∨ l ∈ (Link <$> new)) ∧
    NoDup (Link <$> new) ∧
    (∀ r, r ∈ new →
          (Link r ∉ existingLinks) ∧ (Link r ∉ seenLinksInBatch st) ∧
          ∃ job, job ∈ batch ∧ missingFields job = false ∧ r = toRow job).
Proof.
  revert st. induction batch as [|job batch IH]; intros st; simpl.
  - exists []. rewrite app_nil_r. split; [done|]. split; [|split; [constructor|]].
    + intros l. rewrite fmap_nil, elem_of_nil. tauto.
    + intros r Hr. by apply elem_of_nil in Hr.
  - assert (append_step existingLinks st job = st
            ∨ (missingFields job = false ∧ (Link job ∉ existingLinks) ∧
               (Link job ∉ seenLinksInBatch st) ∧
               append_step existingLinks st job =
               {| seenLinksInBatch := {[ Link job ]} ∪ seenLinksInBatch st;
                  jobsToAppend := jobsToAppend st ++ [toRow job] |})) as [->|(Hm & He & Hs & ->)].
    { unfold append_step. destruct (missingFields job); [by left|].
      destruct (decide (Link job ∈ existingLinks)) as [He|He].
      { rewrite (bool_decide_eq_true_2 _ He). by left. }
      destruct (decide (Link job ∈ seenLinksInBatch st)) as [Hs|Hs].
      { rewrite (bool_decide_eq_true_2 _ Hs), orb_true_r. by left. }
      rewrite (bool_decide_eq_false_2 _ He), (bool_decide_eq_false_2 _ Hs). by right. }
    + destruct (IH st) as (new & Hnew & Hseen & Hnd & Hrows).
      exists new. split; [done|]. split; [done|]. split; [done|].
      intros r Hr. destruct (Hrows r Hr) as (? & ? & j & Hj & ?).
      split; [done|]. split; [done|]. exists j. split; [by right | done].
    + destruct (IH {| seenLinksInBatch := {[ Link job ]} ∪ seenLinksInBatch st;
                      jobsToAppend := jobsToAppend st ++ [toRow job] |})
        as (new & Hnew & Hseen & Hnd & Hrows). simpl in *.
      exists (toRow job :: new). split; [by rewrite Hnew, <- app_assoc|].
      split; [|split].
      * intros l. rewrite Hseen, fmap_cons, elem_of_cons, toRow_Link. set_solver.
      * rewrite fmap_cons, toRow_Link. constructor; [|done].
        intros Hin. apply list_elem_of_fmap in Hin as (r & Hl & Hr).
        destruct (Hrows r Hr) as (_ & Hfresh & _). apply Hfresh. rewrite <- Hl. set_solver.
      * intros r Hr. apply elem_of_cons in Hr as [->|Hr].
        { rewrite toRow_Link. split; [done|]. split; [done|].
          exists job. split; [by left | done]. }
        destruct (Hrows r Hr) as (? & Hfresh & j & Hj & ?).
        split; [done|]. split; [set_solver|]. exists j. split; [by right | done].
Qed.

(** A call of [appendJobs] that returns a count. *)
Lemma appendJobs_ok_inv (batch : list Job) (config : option Config) (w w' : World) (n : nat) :
  appendJobs batch config w = (Ok n, w') →
  ∃ c rows,
    config = Some c ∧ Js.truthy_num (minScore c) = true ∧ dedupeBy c = Some "link" ∧
    openJobsSheet w = Ok rows ∧
    n = length (jobsToAppend (fold_left (append_step (getExistingLinks rows)) batch
                                {| seenLinksInBatch := ∅; jobsToAppend := [] |})) ∧
    w' = match n with
         | O => w
         | S _ => setJobsTab w (rows ++ jobsToAppend
                    (fold_left (append_step (getExistingLinks rows)) batch
                       {| seenLinksInBatch := ∅; jobsToAppend := [] |}))
         end.
Proof.
  unfold appendJobs. destruct config as [c|]; [|done].
  destruct (Js.truthy (dedupeBy c)) eqn:Hd; [|done].
  destruct (Js.truthy_num (minScore c)) eqn:Hm; [|done]. simpl.
  destruct (decide (dedupeBy c = Some "link")) as [Hl|Hl];
    [rewrite (bool_decide_eq_true_2 _ Hl) | by rewrite (bool_decide_eq_false_2 _ Hl)].
  simpl. destruct (openJobsSheet w) as [rows|e]; [|done].
  destruct (jobsToAppend _) as [|r rs] eqn:Hst; intros [= <- <-];
    exists c, rows; rewrite Hst; by repeat split.
Qed.

Lemma openJobsSheet_ok (w : World) (rows : list Job) :
  openJobsSheet w = Ok rows ↔ Js.truthy (SHEET_ID w) = true ∧ JobsTab w = Some rows.
Proof.
  unfold openJobsSheet. destruct (Js.truthy (SHEET_ID w)); simpl.
  - destruct (JobsTab w); split; [by intros [= ->] | by intros [_ [= ->]] | done | by intros [_ ?]].
  - split; [done | by intros [? _]].
Qed.

End AppendRows.

(** What a run of [appendJobs] that returns has done to the tab. *)
Lemma appendJobs_rows (batch : list Job) (config : option Config) (w w' : World)
    (n : nat) :
  appendJobs batch config w = (Ok n, w') →
  ∃ rows new,
    JobsTab w = Some rows ∧ JobsTab w' = Some (rows ++ new) ∧ length new = n ∧
    SHEET_ID w' = SHEET_ID w ∧ gmailFailure w' = gmailFailure w ∧ outbox w' = outbox w ∧
    NoDup (Link <$> new) ∧
    ∀ r, r ∈ new →
         (Link r ∉ getExistingLinks rows) ∧
         Status r ∈ (Some <$> validStatuses) ∧
         ∃ job, job ∈ batch ∧ missingFields job = false ∧ r = toRow job.
Proof.
  intros (c & rows & -> & Hm & Hl & Hopen & Hn & Hw)%appendJobs_ok_inv.
  apply openJobsSheet_ok in Hopen as [Hid Htab].
  destruct (append_loop_rows (getExistingLinks rows) batch
              {| seenLinksInBatch := ∅; jobsToAppend := [] |})
    as (new & Hnew & _ & Hnd & Hrows).
  simpl in Hnew. rewrite Hnew in Hn, Hw. exists rows, new.
  split; [done|]. split; [|split; [done|]].
  { destruct n; subst w'; [|done]. destruct new; [|done]. by rewrite app_nil_r. }
  split; [by destruct n; subst w'|]. split; [by destruct n; subst w'|].
  split; [by destruct n; subst w'|]. split; [done|].
  intros r Hr. destruct (Hrows r Hr) as (Hfresh & _ & job & Hjob & Hfields & ->).
  split; [done|]. split; [apply toRow_Status|]. by exists job.
Qed.

(** X3. [appendJobs] only ever adds rows at the end of the Jobs tab: when it
    returns [n], the tab is the old rows followed by [n] new ones and nothing
    else of the world has changed. The new rows have pairwise different
    links, none of which [getExistingLinks] found in the tab; each is made of
    a job of the batch that has all its fields, and carries one of the five
    statuses, an unknown status being replaced by Ignore. *)
Theorem appendJobs_appends (batch : list Job) (config : option Config) (w w' : World)
    (n : nat) :
  appendJobs batch config w = (Ok n, w') →
  ∃ rows new,
    JobsTab w = Some rows ∧ JobsTab w' = Some (rows ++ new) ∧ length new = n ∧
    SHEET_ID w' = SHEET_ID w ∧ gmailFailure w' = gmailFailure w ∧ outbox w' = outbox w ∧
    NoDup (Link <$> new) ∧
    ∀ r, r ∈ new →
         (Link r ∉ getExistingLinks rows) ∧
         Status r ∈ (Some <$> validStatuses) ∧
         ∃ job, job ∈ batch ∧ missingFields job = false ∧ r = toRow job.
Proof. apply appendJobs_rows. Qed.

Lemma appendJobs_appends_witness :
  appendJobs mockBatch (Some mockConfig) emptyJobsTab = (Ok 2%nat, mockAppended) ∧
  ∃ rows new,
    JobsTab emptyJobsTab = Some rows ∧ JobsTab mockAppended = Some (rows ++ new) ∧
    length new = 2%nat ∧
    SHEET_ID mockAppended = SHEET_ID emptyJobsTab ∧
    gmailFailure mockAppended = gmailFailure emptyJobsTab ∧
    outbox mockAppended = outbox emptyJobsTab ∧
    NoDup (Link <$> new) ∧
    ∀ r, r ∈ new →
         (Link r ∉ getExistingLinks rows) ∧
         Status r ∈ (Some <$> validStatuses) ∧
         ∃ job, job ∈ mockBatch ∧ missingFields job = false ∧ r = toRow job.
Proof.
  assert (appendJobs mockBatch (Some mockConfig) emptyJobsTab = (Ok 2%nat, mockAppended))
    as H by (vm_compute; reflexivity).
  split; [exact H|].
  exact (appendJobs_appends mockBatch (Some mockConfig) emptyJobsTab mockAppended 2 H).
Defined.


(** X5. Appending is idempotent on links that contain http: when every job
    of the batch that has all its fields carries such a link, a second
    [appendJobs] of the same batch on the world the first one left returns 0
    and leaves that world as it is. *)
Theorem appendJobs_idempotent_on_http_links (batch : list Job) (config : Config)
    (w w1 : World) (n : nat) :
  (∀ job, job ∈ batch → missingFields job = false → isExistingLink (Link job) = true) →
  appendJobs batch (Some config) w = (Ok n, w1) →
  appendJobs batch (Some config) w1 = (Ok 0%nat, w1).
Proof. apply appendJobs_twice_http. Qed.

Lemma appendJobs_idempotent_on_http_links_witness :
  (∀ job, job ∈ mockBatch → missingFields job = false → isExistingLink (Link job) = true) ∧
  appendJobs mockBatch (Some mockConfig) emptyJobsTab = (Ok 2%nat, mockAppended) ∧
  appendJobs mockBatch (Some mockConfig) mockAppended = (Ok 0%nat, mockAppended).
Proof.
  assert (∀ job, job ∈ mockBatch → missingFields job = false →
                 isExistingLink (Link job) = true) as Hhttp.
  { intros job Hjob _. apply list_elem_of_In in Hjob. vm_compute in Hjob.
    destruct Hjob as [<-|[<-|[]]]; reflexivity. }
  assert (appendJobs mockBatch (Some mockConfig) emptyJobsTab = (Ok 2%nat, mockAppended))
    as H by (vm_compute; reflexivity).
  split; [exact Hhttp|]. split; [exact H|].
  exact (appendJobs_idempotent_on_http_links mockBatch mockConfig emptyJobsTab
           mockAppended 2 Hhttp H).
Defined.

(** ** Processing then appending *)

Section ProcessThenAppend.

Lemma missingFields_no_keywords (p : Job) :
  MatchedKeywords p = Some "" → missingFields p = true.
Proof.
  intros H. unfold missingFields. rewrite H. simpl.
  rewrite !orb_true_r. done.
Qed.

Lemma processJobs_ok_config (generateUniqueID : nat → string) (rawJobs : list Job)
    (filters : list Filter) (config : option Config) (out : list Job) :
  processJobs generateUniqueID rawJobs filters config = Ok out →
  ∃ c, config = Some c ∧ Js.truthy_num (minScore c) = true ∧ Js.truthy (dedupeBy c) = true.
Proof.
  unfold processJobs. destruct config as [c|]; [|done].
  destruct (Js.truthy_num (minScore c)) eqn:Hm, (Js.truthy (dedupeBy c)) eqn:Hd;
    try done.
  intros _. exists c. by rewrite Hm, Hd.
Qed.

(** An entry [processJobs] made of a listing for which no rule holds has no
    matched keyword. *)
Lemma Emitted_unmatched (filters : list Filter) (config : Config) (job p : Job) :
  validRaw job = true → Emitted filters config job p →
  (∀ rule, rule ∈ filters → ¬ RuleHolds job rule) →
  MatchedKeywords p = Some "".
Proof.
  intros Hv (r & Hr & _ & _ & _ & _ & _ & Hk & _) Hnone.
  unfold validRaw in Hv. apply andb_prop in Hv as [Hv _]. apply andb_prop in Hv as [Hv _].
  apply truthy_Some in Hv as (t & Ht & _).
  rewrite calculateScore_scorable in Hr by (left; by exists t). injection Hr as <-.
  rewrite Hk. simpl.
  assert (filter (RuleHolds job) filters = []) as ->; [|done].
  clear Hk. induction filters as [|rule rules IH]; [done|].
  rewrite filter_cons_False by (apply Hnone; by left).
  apply IH. intros rule' Hin. apply Hnone. by right.
Qed.

End ProcessThenAppend.

(** X6. A listing that matches no rule is never persisted. Whatever
    [appendJobs] appends of the output of [processJobs] comes from a listing
    of the batch for which at least one rule holds, because the entry of a
    listing without a match has an empty MatchedKeywords, which the
    required-fields test of [appendJobs] takes for a missing field. *)
Theorem unmatched_listings_never_persisted (generateUniqueID : nat → string)
    (rawJobs : list Job) (filters : list Filter) (config : option Config)
    (out : list Job) (w w' : World) (n : nat) :
  processJobs generateUniqueID rawJobs filters config = Ok out →
  appendJobs out config w = (Ok n, w') →
  ∃ rows new,
    JobsTab w = Some rows ∧ JobsTab w' = Some (rows ++ new) ∧ length new = n ∧
    ∀ r, r ∈ new →
         ∃ job rule, job ∈ rawJobs ∧ rule ∈ filters ∧ RuleHolds job rule ∧
                     Link r = Link job ∧ Title r = Title job.
Proof.
  intros Hproc Happ.
  destruct (processJobs_ok_config _ _ _ _ _ Hproc) as (c & -> & Hm & Hd).
  destruct (processJobs_run generateUniqueID rawJobs filters c Hm Hd)
    as (out' & Hrun & Hfrom & _). rewrite Hproc in Hrun. injection Hrun as <-.
  destruct (appendJobs_rows out (Some c) w w' n Happ)
    as (rows & new & Htab & Htab' & Hlen & _ & _ & _ & _ & Hrows).
  exists rows, new. split; [done|]. split; [done|]. split; [done|].
  intros r Hr. destruct (Hrows r Hr) as (_ & _ & p & Hp & Hfields & ->).
  destruct (Hfrom p Hp) as (job & Hjob & Hv & Hemit).
  destruct (decide (Exists (RuleHolds job) filters)) as [Hex|Hno].
  - apply Exists_exists in Hex as (rule & Hin & Hrule).
    exists job, rule. destruct Hemit as (_ & _ & Hl & Ht & _). by repeat split.
  - exfalso. rewrite (missingFields_no_keywords p) in Hfields; [done|].
    apply (Emitted_unmatched filters c job p Hv Hemit).
    intros rule Hin Hrule. apply Hno, Exists_exists. eauto.
Qed.

Lemma unmatched_listings_never_persisted_witness :
  ∃ out,
    processJobs mockIDs plainJobs mockFilters (Some lenientConfig) = Ok out ∧
    Status <$> out = [Some "New"] ∧
    appendJobs out (Some lenientConfig) emptyJobsTab = (Ok 0%nat, emptyJobsTab) ∧
    ∃ rows new,
      JobsTab emptyJobsTab = Some rows ∧ JobsTab emptyJobsTab = Some (rows ++ new) ∧
      length new = 0%nat ∧
      ∀ r, r ∈ new →
           ∃ job rule, job ∈ plainJobs ∧ rule ∈ mockFilters ∧ RuleHolds job rule ∧
                       Link r = Link job ∧ Title r = Title job.
Proof.
  eexists. split; [vm_compute; reflexivity|]. split; [reflexivity|].
  split; [vm_compute; reflexivity|].
  refine (unmatched_listings_never_persisted mockIDs plainJobs mockFilters
            (Some lenientConfig) _ emptyJobsTab emptyJobsTab 0 _ _);
    vm_compute; reflexivity.
Defined.

(** ** The digest: the best rows, once *)

Section DigestFacts.

Lemma slice0_take {A : Type} (xs : list A) (n : Z) :
  0 ≤ n → Js.slice0 xs n = take (Z.to_nat n) xs.
Proof. intros Hn. unfold Js.slice0. destruct (Z.ltb_spec n 0); [lia | done]. Qed.

(** A row [updateNotifiedJobs] has marked is not eligible any more. *)
Lemma eligible_notified (config : Config) (today : string) (row : Job) :
  eligible config (notified today row) = false.
Proof. reflexivity. Qed.

Lemma filter_eligible_markNotified (config : Config) (sel : list Job) (today : string)
    (jobs : list Job) :
  List.filter (eligible config) (markNotified sel today <$> jobs) =
  List.filter (λ row, eligible config row
                      && negb (existsb (λ job, bool_decide (ID job = ID row)) sel)) jobs.
Proof.
  induction jobs as [|row jobs IH]; [done|].
  rewrite fmap_cons. simpl. rewrite IH.
  change (markNotified sel today row)
    with (if existsb (λ job, bool_decide (ID job = ID row)) sel
          then notified today row else row).
  destruct (existsb _ sel); cbv iota.
  - by rewrite eligible_notified, andb_false_r.
  - by rewrite andb_true_r.
Qed.

End DigestFacts.

(** X7. The digest holds the best rows. For a [topN] that is not negative
    the selection has [topN] rows, or all the eligible rows when there are
    fewer; together with the rows it leaves out it is a rearrangement of the
    eligible rows; and no row left out has a higher score than a selected
    one. *)
Theorem eligibleJobs_top (config : Config) (jobs : list Job) (n : Z) :
  topN config = Some n → 0 ≤ n →
  length (eligibleJobs config jobs) =
  Nat.min (Z.to_nat n) (length (List.filter (eligible config) jobs)) ∧
  ∃ rest,
    eligibleJobs config jobs ++ rest ≡ₚ List.filter (eligible config) jobs ∧
    ∀ j k, j ∈ eligibleJobs config jobs → k ∈ rest →
           cellNumber (Score k) ≤ cellNumber (Score j).
Proof.
  intros Htop Hn. unfold eligibleJobs. rewrite Htop, slice0_take by done.
  set (sorted := sort byScoreDesc (List.filter (eligible config) jobs)).
  assert (sorted ≡ₚ List.filter (eligible config) jobs) as Hperm
    by apply (sort_perm (λ job, cellNumber (Score job))).
  assert (StronglySorted (λ a b, cellNumber (Score b) ≤ cellNumber (Score a)) sorted) as Hs
    by apply (sort_sorted (λ job, cellNumber (Score job))).
  split; [by rewrite length_take, <- Hperm|].
  exists (drop (Z.to_nat n) sorted). rewrite take_drop. split; [done|].
  intros j k Hj Hk. rewrite <- (take_drop (Z.to_nat n) sorted) in Hs.
  by apply (StronglySorted_app_1_elem_of _ _ _ j k) in Hs.
Qed.

Lemma eligibleJobs_top_witness :
  topN digestConfig = Some 2 ∧ 0 ≤ 2 ∧
  length (eligibleJobs digestConfig digestRows) =
  Nat.min (Z.to_nat 2) (length (List.filter (eligible digestConfig) digestRows)) ∧
  ∃ rest,
    eligibleJobs digestConfig digestRows ++ rest ≡ₚ List.filter (eligible digestConfig) digestRows ∧
    ∀ j k, j ∈ eligibleJobs digestConfig digestRows → k ∈ rest →
           cellNumber (Score k) ≤ cellNumber (Score j).
Proof.
  split; [reflexivity|]. split; [lia|].
  apply (eligibleJobs_top digestConfig digestRows 2); [reflexivity | lia].
Defined.

(** X8. No row is mailed twice. After a [sendJobDigest] that returned a
    count other than 0, the rows of the Jobs tab that are still eligible are
    the rows that were eligible before and whose identifier is not that of a
    mailed row, unchanged and in the same order; so whatever a later digest
    selects was a row of the tab before and was not in this digest. *)
Theorem sendJobDigest_never_twice (formatDate : option string → string)
    (config : Config) (w w' : World) (n : nat) :
  sendJobDigest formatDate (Some config) w = (Ok n, w') → n ≠ 0%nat →
  ∃ jobs rows',
    JobsTab w = Some jobs ∧ JobsTab w' = Some rows' ∧
    n = length (eligibleJobs config jobs) ∧
    List.filter (eligible config) rows' =
    List.filter (λ row, eligible config row
                        && negb (existsb (λ job, bool_decide (ID job = ID row))
                                         (eligibleJobs config jobs))) jobs ∧
    ∀ j, j ∈ eligibleJobs config rows' → j ∈ jobs ∧ j ∉ eligibleJobs config jobs.
Proof.
  intros Hrun Hn.
  destruct (sendJobDigest_mails_selection formatDate config w w' (Ok n) Hrun)
    as [Hsame|(jobs & Hopen & [= ->] & Hout)].
  { exfalso. revert Hrun Hsame. unfold sendJobDigest, sendEmail.
    destruct (_ || _); [done|].
    destruct (openJobsSheet w) as [[|job jobs]|e]; try done.
    - by intros [= <- _].
    - destruct (eligibleJobs config (job :: jobs)); [by intros [= <- _]|].
      destruct (gmailFailure w); [done|]. simpl. intros [= _ <-]. simpl.
      intros H. apply (f_equal length) in H. rewrite length_app in H. simpl in H. lia. }
  assert (eligibleJobs config jobs ≠ []) as Hsel by (by destruct (eligibleJobs config jobs)).
  pose proof Hopen as [Hid Htab]%openJobsSheet_ok.
  assert (JobsTab w' = Some (markNotified (eligibleJobs config jobs)
                               (formatDate (dateFormat config)) <$> jobs)) as Htab'.
  { revert Hrun. unfold sendJobDigest, sendEmail.
    destruct (_ || _); [done|]. rewrite Hopen.
    destruct jobs as [|job jobs]; [by rewrite eligibleJobs_nil in Hsel|].
    destruct (eligibleJobs config (job :: jobs)); [done|].
    destruct (gmailFailure w); [done|]. simpl.
    intros H. apply (f_equal snd) in H. simpl in H. by rewrite <- H. }
  eexists jobs, _. split; [done|]. split; [exact Htab'|]. split; [done|].
  split; [apply filter_eligible_markNotified|].
  intros j Hj. apply eligibleJobs_elem in Hj as [Hin He].
  assert (j ∈ List.filter (eligible config)
                (markNotified (eligibleJobs config jobs)
                   (formatDate (dateFormat config)) <$> jobs)) as Hf
    by (apply list_elem_of_In, filter_In; split; [by apply list_elem_of_In | done]).
  rewrite filter_eligible_markNotified in Hf.
  apply list_elem_of_In, filter_In in Hf as [Hjobs Hcond].
  apply andb_prop in Hcond as [_ Hnot]. apply negb_true_iff in Hnot.
  split; [by apply list_elem_of_In|].
  intros Hsel'. assert (existsb (λ job, bool_decide (ID job = ID j))
                          (eligibleJobs config jobs) = true) as Hex.
  { apply existsb_exists. exists j. split; [by apply list_elem_of_In|].
    by apply bool_decide_eq_true. }
  congruence.
Qed.

Lemma sendJobDigest_never_twice_witness :
  sendJobDigest digestDay (Some digestConfig) digestWorld =
  (Ok 2%nat, (sendJobDigest digestDay (Some digestConfig) digestWorld).2) ∧
  2%nat ≠ 0%nat ∧
  ∃ jobs rows',
    JobsTab digestWorld = Some jobs ∧
    JobsTab (sendJobDigest digestDay (Some digestConfig) digestWorld).2 = Some rows' ∧
    2%nat = length (eligibleJobs digestConfig jobs) ∧
    List.filter (eligible digestConfig) rows' =
    List.filter (λ row, eligible digestConfig row
                        && negb (existsb (λ job, bool_decide (ID job = ID row))
                                         (eligibleJobs digestConfig jobs))) jobs ∧
    ∀ j, j ∈ eligibleJobs digestConfig rows' → j ∈ jobs ∧ j ∉ eligibleJobs digestConfig jobs.
Proof.
  assert (sendJobDigest digestDay (Some digestConfig) digestWorld =
          (Ok 2%nat, (sendJobDigest digestDay (Some digestConfig) digestWorld).2)) as H
    by (vm_compute; reflexivity).
  split; [exact H|]. split; [discriminate|].
  exact (sendJobDigest_never_twice digestDay digestConfig digestWorld _ 2 H
           (λ E : 2%nat = 0%nat, O_S 1 (eq_sym E))).
Defined.

(** ** The pipeline: order and number of the entries *)

Section PipelineOrder.

Variable generateUniqueID : nat → string.
Variable filters : list Filter.
Variable config : Config.

(** The loop of [processJobs] emits the entries of a subsequence of the
    batch, in the order of the batch. *)
Lemma process_loop_order (jobs : list Job) (st : ProcState) :
  ∃ st' js new,
    for_of (process_step generateUniqueID filters config) jobs st = Ok st' ∧
    processedJobs st' = processedJobs st ++ new ∧
    js `sublist_of` jobs ∧
    Forall2 (Emitted filters config) js new ∧
    Forall (λ j, validRaw j = true) js ∧
    (dedupeBy config ≠ Some "link" → js = List.filter validRaw jobs).
Proof.
  revert st. induction jobs as [|j jobs IH]; intros st.
  - exists st, [], []. rewrite app_nil_r. by repeat split; constructor.
  - rewrite for_of_cons.
    destruct (process_step_cases generateUniqueID filters config st j)
      as [(Hv & ->)|[(Hv & Hd & Hs & ->)|(Hv & Hn & p & n & Hp & ->)]]; simpl.
    + destruct (IH st) as (st' & js & new & Hrun & Hout & Hsub & Hemit & Hvalid & Hall).
      exists st', js, new. split; [done|]. split; [done|].
      split; [by apply sublist_cons|]. split; [done|]. split; [done|].
      intros Hoff. by rewrite Hv, (Hall Hoff).
    + destruct (IH st) as (st' & js & new & Hrun & Hout & Hsub & Hemit & Hvalid & Hall).
      exists st', js, new. split; [done|]. split; [done|].
      split; [by apply sublist_cons|]. split; [done|]. split; [done|].
      intros Hoff. done.
    + destruct (IH {| processedJobs := processedJobs st ++ [p];
                      seenLinks := {[ Link j ]} ∪ seenLinks st; generated := n |})
        as (st' & js & new & Hrun & Hout & Hsub & Hemit & Hvalid & Hall).
      exists st', (j :: js), (p :: new). split; [done|].
      split; [by rewrite Hout; simpl; rewrite <- app_assoc|].
      split; [by apply sublist_skip|]. split; [by constructor|]. split; [by constructor|].
      intros Hoff. by rewrite Hv, (Hall Hoff).
Qed.

End PipelineOrder.

(** Every valid listing has a first valid listing with its link before or at
    its place. *)
Lemma first_with_link (jobs : list Job) (j : Job) :
  j ∈ jobs → validRaw j = true →
  ∃ pre job post,
    jobs = pre ++ job :: post ∧ validRaw job = true ∧ Link job = Link j ∧
    ∀ j', j' ∈ pre → validRaw j' = true → Link j' ≠ Link job.
Proof.
  induction jobs as [|x jobs IH]; intros Hin Hv; [by apply elem_of_nil in Hin|].
  destruct (decide (validRaw x = true ∧ Link x = Link j)) as [[Hx Hl]|Hno].
  - exists [], x, jobs. split; [done|]. split; [done|]. split; [done|].
    intros j' Hj'. by apply elem_of_nil in Hj'.
  - apply elem_of_cons in Hin as [->|Hin]; [by destruct Hno|].
    destruct (IH Hin Hv) as (pre & job & post & -> & Hjob & Hl & Hpre).
    exists (x :: pre), job, post. split; [done|]. split; [done|]. split; [done|].
    intros j' Hj' Hv'. apply elem_of_cons in Hj' as [->|Hj']; [|by apply Hpre].
    intros Heq. apply Hno. split; [done | congruence].
Qed.

(** The entries of the output, read against the batch in order. *)
Lemma processJobs_subsequence (generateUniqueID : nat → string) (rawJobs : list Job)
    (filters : list Filter) (config : Config) (out : list Job) :
  processJobs generateUniqueID rawJobs filters (Some config) = Ok out →
  ∃ js,
    js `sublist_of` rawJobs ∧
    Forall2 (Emitted filters config) js out ∧
    Forall (λ j, validRaw j = true) js ∧
    (dedupeBy config ≠ Some "link" → js = List.filter validRaw rawJobs).
Proof.
  intros Hrun. destruct (processJobs_ok_config _ _ _ _ _ Hrun) as (c & [= <-] & Hm & Hd).
  revert Hrun. unfold processJobs. rewrite Hm, Hd. simpl.
  destruct (process_loop_order generateUniqueID filters config rawJobs
              {| processedJobs := []; seenLinks := ∅; generated := 0%nat |})
    as (st' & js & new & -> & Hout & Hsub & Hemit & Hvalid & Hall).
  simpl in *. intros [= <-]. rewrite Hout. by exists js.
Qed.

(** X9. The output of [processJobs] is in input order: its entries are, one
    for one and in the same order, the entries made of a subsequence of the
    batch, all of them valid listings; and when [dedupeBy] is not link that
    subsequence is every valid listing of the batch. *)
Theorem processJobs_keeps_order (generateUniqueID : nat → string) (rawJobs : list Job)
    (filters : list Filter) (config : Config) (out : list Job) :
  processJobs generateUniqueID rawJobs filters (Some config) = Ok out →
  ∃ js,
    js `sublist_of` rawJobs ∧
    Forall2 (Emitted filters config) js out ∧
    Forall (λ j, validRaw j = true) js ∧
    (dedupeBy config ≠ Some "link" → js = List.filter validRaw rawJobs).
Proof. apply processJobs_subsequence. Qed.

Lemma processJobs_keeps_order_witness :
  processJobs mockIDs mockJobs mockFilters (Some mockConfig) = Ok mockBatch ∧
  ∃ js,
    js `sublist_of` mockJobs ∧
    Forall2 (Emitted mockFilters mockConfig) js mockBatch ∧
    Forall (λ j, validRaw j = true) js ∧
    (dedupeBy mockConfig ≠ Some "link" → js = List.filter validRaw mockJobs).
Proof.
  assert (processJobs mockIDs mockJobs mockFilters (Some mockConfig) = Ok mockBatch) as H
    by (vm_compute; reflexivity).
  split; [exact H|].
  exact (processJobs_keeps_order mockIDs mockJobs mockFilters mockConfig mockBatch H).
Defined.

(** With de-duplication by link the output has one entry for each link of
    a valid listing. *)
Lemma processJobs_distinct_links (generateUniqueID : nat → string) (rawJobs : list Job)
    (filters : list Filter) (config : Config) (out : list Job) :
  processJobs generateUniqueID rawJobs filters (Some config) = Ok out →
  dedupeBy config = Some "link" →
  length out = size (list_to_set (Link <$> List.filter validRaw rawJobs)
                     : gset (option string)).
Proof.
  intros Hrun Hlink.
  destruct (processJobs_ok_config _ _ _ _ _ Hrun) as (c & [= <-] & Hm & Hd).
  destruct (processJobs_run generateUniqueID rawJobs filters config Hm Hd)
    as (out' & Hrun' & Hfrom & Hnd & Hfirst).
  rewrite Hrun in Hrun'. injection Hrun' as <-. specialize (Hnd Hlink).
  rewrite <- (length_fmap Link out), <- (size_list_to_set (C := gset (option string))) by done.
  f_equal. apply set_eq. intros l. rewrite !elem_of_list_to_set, !list_elem_of_fmap. split.
  - intros (p & -> & Hp). destruct (Hfrom p Hp) as (j & Hj & Hv & r & _ & Hl & _).
    exists j. split; [done|]. apply list_elem_of_In, filter_In.
    split; [by apply list_elem_of_In | done].
  - intros (j & -> & Hj). apply list_elem_of_In, filter_In in Hj as [Hj Hv].
    apply list_elem_of_In in Hj.
    destruct (first_with_link rawJobs j Hj Hv) as (pre & job & post & Heq & Hjob & Hl & Hpre).
    destruct (Hfirst pre job post Heq Hjob) as (p & Hp & r & _ & Hlp & _); [by intros _|].
    exists p. split; [congruence | done].
Qed.

(** X10. The number of entries of the output of [processJobs]: with
    de-duplication by link it is the number of different links among the
    valid listings of the batch, and without it the number of valid
    listings. *)
Theorem processJobs_count (generateUniqueID : nat → string) (rawJobs : list Job)
    (filters : list Filter) (config : Config) (out : list Job) :
  processJobs generateUniqueID rawJobs filters (Some config) = Ok out →
  (dedupeBy config = Some "link" →
   length out = size (list_to_set (Link <$> List.filter validRaw rawJobs)
                      : gset (option string))) ∧
  (dedupeBy config ≠ Some "link" → length out = length (List.filter validRaw rawJobs)).
Proof.
  intros Hrun. split.
  - by apply (processJobs_distinct_links generateUniqueID rawJobs filters).
  - intros Hoff. destruct (processJobs_subsequence _ _ _ _ _ Hrun)
      as (js & _ & Hemit & _ & Hall).
    rewrite <- (Hall Hoff). symmetry. by eapply Forall2_length.
Qed.

Lemma processJobs_count_witness :
  processJobs mockIDs mockJobs mockFilters (Some mockConfig) = Ok mockBatch ∧
  (dedupeBy mockConfig = Some "link" →
   length mockBatch = size (list_to_set (Link <$> List.filter validRaw mockJobs)
                            : gset (option string))) ∧
  (dedupeBy mockConfig ≠ Some "link" →
   length mockBatch = length (List.filter validRaw mockJobs)).
Proof.
  assert (processJobs mockIDs mockJobs mockFilters (Some mockConfig) = Ok mockBatch) as H
    by (vm_compute; reflexivity).
  split; [exact H|].
  exact (processJobs_count mockIDs mockJobs mockFilters mockConfig mockBatch H).
Defined.

(** ** The Config tab *)

Section ConfigTab.

Lemma for_of_app {A S : Type} (body : S → A → Result S) (xs ys : list A) (s : S) :
  for_of body (xs ++ ys) s = for_of body xs s ≫= for_of body ys.
Proof.
  revert s. induction xs as [|x xs IH]; intros s; [done|].
  rewrite <- app_comm_cons, !for_of_cons.
  destruct (body s x) as [s'|e]; simpl; [apply IH | done].
Qed.

(** Rows with the key [k] and a blank value leave the setting [k] alone. *)
Lemma config_fold_blank (rows : list (string * Cell)) (m : gmap string Cell) (k : string) :
  (∀ v, (k, v) ∈ rows → v = CStr "") →
  fold_left config_step rows m !! k = m !! k.
Proof.
  revert m. induction rows as [|[s v] rows IH]; intros m Hblank; simpl; [done|].
  rewrite IH by (intros v' Hv'; apply Hblank; by right).
  unfold config_step. destruct (String.eqb_spec s ""); simpl; [done|].
  destruct (decide (v = CStr "")) as [Hv|Hv].
  - by rewrite (bool_decide_eq_true_2 _ Hv).
  - rewrite (bool_decide_eq_false_2 _ Hv). apply lookup_insert_ne.
    intros ->. apply Hv, Hblank. by left.
Qed.

(** A setting, once made, stays made. *)
Lemma config_fold_is_Some (rows : list (string * Cell)) (m : gmap string Cell) (k : string) :
  is_Some (m !! k) → is_Some (fold_left config_step rows m !! k).
Proof.
  revert m. induction rows as [|[s v] rows IH]; intros m Hm; simpl; [done|].
  apply IH. unfold config_step. destruct (_ || _); [done|].
  rewrite lookup_insert. destruct (decide (s = k)); eauto.
Qed.

Lemma config_fold_present (rows : list (string * Cell)) (m : gmap string Cell)
    (k : string) (v : Cell) :
  (k, v) ∈ rows → k ≠ "" → v ≠ CStr "" →
  is_Some (fold_left config_step rows m !! k).
Proof.
  revert m. induction rows as [|[s v'] rows IH]; intros m Hin Hk Hv;
    [by apply elem_of_nil in Hin|].
  apply elem_of_cons in Hin as [[= <- <-]|Hin]; simpl; [|by apply IH].
  apply config_fold_is_Some. unfold config_step.
  destruct (String.eqb_spec k ""); [done|]. rewrite (bool_decide_eq_false_2 _ Hv). simpl.
  rewrite lookup_insert_eq. eauto.
Qed.

(** What a config [getConfig] returns went through. *)
Lemma getConfig_ok_inv (data : list (string * Cell)) (config : Config) :
  getConfig data = Ok config →
  ∃ rows recipient m n,
    data = ("Key", CStr "Value") :: rows ∧
    Js.includes recipient "@" = true ∧
    config = {| emailRecipient := Some recipient; minScore := Some m; topN := Some n;
                dedupeBy := Some "link"; dateFormat := Some "yyyy-MM-dd";
                coverLetterDocId := fold_left config_step rows ∅ !! "coverLetterDocId" |}.
Proof.
  unfold getConfig. destruct data as [|header [|row rows]]; [done | done |].
  remember (fold_left config_step (row :: rows) ∅) as cfg eqn:Hcfg. cbv zeta.
  destruct (decide (header = ("Key", CStr "Value"))) as [->|Hh];
    [rewrite bool_decide_eq_true_2 by done | by rewrite bool_decide_eq_false_2 by done].
  cbn [negb].
  destruct (for_of _ requiredFields ()) as [[]|e]; [|done]. simpl.
  destruct (cfg !! "minScore" ≫= Number) as [m|]; [|done].
  destruct (cfg !! "topN" ≫= Number) as [n|]; [|done].
  destruct (cfg !! "emailRecipient") as [[recipient|]|]; try done.
  destruct (Js.includes recipient "@") eqn:Hat; simpl; [|done].
  destruct (bool_decide (cfg !! "dedupeBy" = _)); simpl; [|done].
  destruct (bool_decide (cfg !! "dateFormat" = _)); simpl; [|done].
  intros [= <-]. exists (row :: rows), recipient, m, n. by rewrite Hcfg.
Qed.

End ConfigTab.

(** A setting of the config object was written in some row of the tab. *)
Lemma config_fold_lookup_elem (rows : list (string * Cell)) (m : gmap string Cell)
    (k : string) (v : Cell) :
  fold_left config_step rows m !! k = Some v → m !! k = Some v ∨ (k, v) ∈ rows.
Proof.
  revert m. induction rows as [|[s v'] rows IH]; intros m; simpl; [by left|].
  intros [Hm|Hin]%IH; [|right; by right].
  unfold config_step in Hm. destruct (_ || _); [by left|].
  destruct (decide (s = k)) as [->|Hne].
  - rewrite lookup_insert_eq in Hm. injection Hm as ->. right. by left.
  - rewrite lookup_insert_ne in Hm by done. by left.
Qed.

(** The two numbers of a config [getConfig] returns are what [Number]
    makes of a [minScore] and a [topN] row of the tab. *)
Lemma getConfig_numbers (data : list (string * Cell)) (config : Config) :
  getConfig data = Ok config →
  ∃ vm vn, ("minScore", vm) ∈ data ∧ Number vm = minScore config ∧
           ("topN", vn) ∈ data ∧ Number vn = topN config.
Proof.
  unfold getConfig. destruct data as [|header [|row rows]]; [done | done |].
  remember (fold_left config_step (row :: rows) ∅) as cfg eqn:Hcfg. cbv zeta.
  destruct (negb _); [done|].
  destruct (for_of _ requiredFields ()) as [[]|e]; [|done]. simpl.
  destruct (cfg !! "minScore") as [vm|] eqn:Hvm; [|done].
  cbn [mbind option_bind]. destruct (Number vm) as [m|] eqn:Hm; [|done].
  destruct (cfg !! "topN") as [vn|] eqn:Hvn; [|done].
  cbn [mbind option_bind]. destruct (Number vn) as [n|] eqn:Hn; [|done].
  destruct (cfg !! "emailRecipient") as [[recipient|]|]; try done.
  destruct (negb (Js.includes recipient "@")); [done|].
  destruct (negb (bool_decide (cfg !! "dedupeBy" = _))); [done|].
  destruct (negb (bool_decide (cfg !! "dateFormat" = _))); [done|].
  intros [= <-]. simpl. exists vm, vn. rewrite Hcfg in Hvm, Hvn.
  apply config_fold_lookup_elem in Hvm as [Hvm|Hvm]; [by rewrite lookup_empty in Hvm|].
  apply config_fold_lookup_elem in Hvn as [Hvn|Hvn]; [by rewrite lookup_empty in Hvn|].
  split; [by right|]. split; [done|]. split; [by right | done].
Qed.

(** X11. On a Config tab whose [minScore] and [topN] cells hold integers,
    as numbers or as plain decimal text, what [getConfig] returns has been
    validated: the recipient contains an at sign, [dedupeBy] is link, the
    date format is yyyy-MM-dd, and [minScore] and [topN] are the integers
    of a [minScore] and a [topN] row of the tab. Such a config gets through
    the checks of [processJobs] on every batch exactly when its [minScore]
    is not 0. *)
Theorem getConfig_validated (data : list (string * Cell)) (config : Config) :
  integerSettings data →
  getConfig data = Ok config →
  (∃ recipient, emailRecipient config = Some recipient ∧ Js.Substring "@" recipient) ∧
  dedupeBy config = Some "link" ∧
  dateFormat config = Some "yyyy-MM-dd" ∧
  (∃ v m, ("minScore", v) ∈ data ∧ integerCell v = true ∧
          Number v = Some m ∧ minScore config = Some m) ∧
  (∃ v n, ("topN", v) ∈ data ∧ integerCell v = true ∧
          Number v = Some n ∧ topN config = Some n) ∧
  ∀ (generateUniqueID : nat → string) (rawJobs : list Job) (filters : list Filter),
    (∃ out, processJobs generateUniqueID rawJobs filters (Some config) = Ok out)
    ↔ minScore config ≠ Some 0.
Proof.
  intros Hint Hget.
  pose proof (getConfig_numbers data config Hget) as (vm & vn & Hvm & Hm & Hvn & Hn).
  unfold integerSettings in Hint. rewrite Forall_forall in Hint.
  pose proof (Hint _ Hvm (or_introl eq_refl)) as Him.
  pose proof (Hint _ Hvn (or_intror eq_refl)) as Hin.
  apply getConfig_ok_inv in Hget as (rows & recipient & m & n & _ & Hat & ->).
  simpl in *.
  split; [exists recipient; split; [done | by apply includes_spec]|].
  split; [done|]. split; [done|].
  split; [by exists vm, m|]. split; [by exists vn, n|].
  intros gen rawJobs filters. split.
  - intros [out Hout] [= ->]. by unfold processJobs in Hout.
  - intros Hm'.
    destruct (processJobs_run gen rawJobs filters
                {| emailRecipient := Some recipient; minScore := Some m; topN := Some n;
                   dedupeBy := Some "link"; dateFormat := Some "yyyy-MM-dd";
                   coverLetterDocId := fold_left config_step rows ∅ !! "coverLetterDocId" |})
      as (out & Hout & _); [|done|by exists out].
    simpl. apply negb_true_iff, Z.eqb_neq. congruence.
Qed.

Lemma getConfig_validated_witness :
  integerSettings readmeConfigTab ∧
  getConfig readmeConfigTab = Ok readmeConfig ∧
  dedupeBy readmeConfig = Some "link" ∧
  ∀ (generateUniqueID : nat → string) (rawJobs : list Job) (filters : list Filter),
    (∃ out, processJobs generateUniqueID rawJobs filters (Some readmeConfig) = Ok out)
    ↔ minScore readmeConfig ≠ Some 0.
Proof.
  assert (integerSettings readmeConfigTab) as Hi.
  { unfold integerSettings, readmeConfigTab.
    repeat (constructor; [by intros [?|?]|]). constructor. }
  assert (getConfig readmeConfigTab = Ok readmeConfig) as H by (by vm_compute).
  split; [exact Hi|]. split; [done|].
  pose proof (getConfig_validated readmeConfigTab readmeConfig Hi H)
    as (_ & Hd & _ & _ & _ & Hp).
  by split.
Defined.

(** The loop over the required fields passes when each one is set. *)
Lemma required_loop_ok (cfg : gmap string Cell) (fields : list string) :
  (∀ f, f ∈ fields → is_Some (cfg !! f)) →
  for_of (fun (_ : unit) field =>
            match cfg !! field with
            | Some _ => Ok ()
            | None => Throw (Error ("Missing required config field: " +:+ field))
            end) fields () = Ok ().
Proof.
  induction fields as [|f fields IH]; intros Hset; [done|].
  rewrite for_of_cons. destruct (Hset f) as [v ->]; [by left|]. simpl.
  apply IH. intros g Hg. apply Hset. by right.
Qed.

(** A config without a cover letter document stops the digest. *)
Lemma sendJobDigest_cover_letter
    (formatDate : option string → string) (data : list (string * Cell))
    (config : Config) (w : World) :
  getConfig data = Ok config →
  (∀ v, ("coverLetterDocId", v) ∈ data → truthy_cell v = false) →
  sendJobDigest formatDate (Some config) w =
    (Throw (Error "Missing required config: emailRecipient, topN, or coverLetterDocId"), w).
Proof.
  intros (rows & recipient & m & n & -> & _ & ->)%getConfig_ok_inv Hblank.
  unfold sendJobDigest. cbn [emailRecipient topN coverLetterDocId].
  destruct (fold_left config_step rows ∅ !! "coverLetterDocId") as [v|] eqn:Hv.
  - apply config_fold_lookup_elem in Hv as [Hv|Hv]; [by rewrite lookup_empty in Hv|].
    simpl. rewrite (Hblank v) by (by right). simpl. by rewrite orb_true_r.
  - simpl. by rewrite orb_true_r.
Qed.

(** X12. [getConfig] does not ask for [coverLetterDocId], [sendJobDigest]
    does: a Config tab that passes [getConfig] and whose
    [coverLetterDocId] rows, if any, are blank or 0 gives a config on which
    [sendJobDigest] throws whatever the sheet holds, and sends and marks
    nothing. *)
Theorem sendJobDigest_needs_coverLetterDocId
    (formatDate : option string → string) (data : list (string * Cell))
    (config : Config) (w : World) :
  getConfig data = Ok config →
  (∀ v, ("coverLetterDocId", v) ∈ data → truthy_cell v = false) →
  sendJobDigest formatDate (Some config) w =
    (Throw (Error "Missing required config: emailRecipient, topN, or coverLetterDocId"), w).
Proof. apply sendJobDigest_cover_letter. Qed.

Lemma sendJobDigest_needs_coverLetterDocId_witness :
  getConfig readmeConfigTab = Ok readmeConfig ∧
  sendJobDigest digestDay (Some readmeConfig) digestWorld =
    (Throw (Error "Missing required config: emailRecipient, topN, or coverLetterDocId"),
     digestWorld).
Proof.
  assert (getConfig readmeConfigTab = Ok readmeConfig) as H by (by vm_compute).
  split; [done|].
  apply (sendJobDigest_needs_coverLetterDocId digestDay readmeConfigTab readmeConfig
           digestWorld H).
  intros v Hv. unfold readmeConfigTab in Hv.
  repeat (apply elem_of_cons in Hv as [Hv|Hv]; [first [discriminate Hv | by injection Hv as ->]|]).
  by apply elem_of_nil in Hv.
Defined.

(** X13. [getConfig] names the first required field, in the order
    emailRecipient, minScore, topN, dedupeBy, dateFormat, that no row of the
    tab sets: the fields before it each have a row with a value, the field
    itself has only blank rows or none. *)
Theorem getConfig_first_missing_field
    (rows : list (string * Cell)) (pre post : list string) (k : string) :
  rows ≠ [] →
  requiredFields = pre ++ k :: post →
  (∀ f, f ∈ pre → ∃ v, (f, v) ∈ rows ∧ v ≠ CStr "") →
  (∀ v, (k, v) ∈ rows → v = CStr "") →
  getConfig (("Key", CStr "Value") :: rows) =
    Throw (Error ("Missing required config field: " +:+ k)).
Proof.
  intros Hrows Hreq Hpre Hk.
  unfold getConfig. destruct rows as [|row rows]; [done|].
  remember (fold_left config_step (row :: rows) ∅) as cfg eqn:Hcfg. cbv zeta.
  rewrite bool_decide_eq_true_2 by done. cbn [negb].
  rewrite Hreq, for_of_app, required_loop_ok.
  - simpl. assert (cfg !! k = None) as ->; [|done].
    rewrite Hcfg, config_fold_blank by done. apply lookup_empty.
  - intros f Hf. destruct (Hpre f Hf) as (v & Hin & Hv).
    rewrite Hcfg. apply (config_fold_present _ _ _ v); [done| |done].
    assert (f ∈ requiredFields) as Hr by (rewrite Hreq; set_solver).
    intros ->. unfold requiredFields in Hr. set_solver.
Qed.

Lemma getConfig_first_missing_field_witness :
  getConfig [("Key", CStr "Value"); ("emailRecipient", CStr "a@b.de");
             ("minScore", CStr ""); ("topN", CNum 10)] =
    Throw (Error "Missing required config field: minScore").
Proof.
  apply (getConfig_first_missing_field
           [("emailRecipient", CStr "a@b.de"); ("minScore", CStr ""); ("topN", CNum 10)]
           ["emailRecipient"] ["topN"; "dedupeBy"; "dateFormat"] "minScore").
  - done.
  - reflexivity.
  - intros f ->%list_elem_of_singleton. exists (CStr "a@b.de"). split; [by left | done].
  - intros v Hv.
    repeat (apply elem_of_cons in Hv as [Hv|Hv]; [first [discriminate Hv | by injection Hv as ->]|]).
    by apply elem_of_nil in Hv.
Defined.

(** ** The Sources and Filters tabs *)

Section Tabs.

Lemma or_else_blank (s : string) : Js.or_else (Some s) "" = s.
Proof. unfold Js.or_else. by destruct (String.eqb_spec s ""). Qed.

Lemma sources_step_ok (sources out : list SourceRow) (row : SourcesTabRow) :
  sources_step sources row = Ok out → out = sources ++ option_list (activeSource row).
Proof.
  unfold sources_step, activeSource. rewrite or_else_blank.
  destruct row as [name url notes active]; simpl.
  destruct (String.eqb name ""); simpl.
  { destruct url, active as [| |[]]; intros [= <-]; simpl; by rewrite app_nil_r. }
  destruct url as [u|n|b]; simpl.
  - destruct (String.eqb_spec u "") as [->|Hu]; simpl.
    + destruct active as [| |[]]; intros [= <-]; simpl; by rewrite app_nil_r.
    + destruct active as [s|n|[]]; simpl;
        try (intros [= <-]; simpl; by rewrite app_nil_r).
      destruct (Js.includes u "http"); simpl; intros [= <-]; simpl; by rewrite ?app_nil_r.
  - destruct (n =? 0), active as [| |[]]; simpl; try done;
      intros [= <-]; simpl; by rewrite app_nil_r.
  - destruct b, active as [| |[]]; simpl; try done;
      intros [= <-]; simpl; by rewrite app_nil_r.
Qed.

Lemma sources_loop (rows : list SourcesTabRow) (sources out : list SourceRow) :
  for_of sources_step rows sources = Ok out → out = sources ++ omap activeSource rows.
Proof.
  revert sources. induction rows as [|row rows IH]; intros sources.
  - intros [= <-]. by rewrite app_nil_r.
  - rewrite for_of_cons. destruct (sources_step sources row) as [mid|e] eqn:Hstep; [|done].
    simpl. intros ->%IH. apply sources_step_ok in Hstep as ->.
    rewrite <- app_assoc. f_equal. by destruct (activeSource row).
Qed.

Lemma getActiveSources_ok_inv (tab : option (list SourcesTabRow)) (sources : list SourceRow) :
  getActiveSources tab = Ok sources →
  ∃ rows, tab = Some (sourcesHeader :: rows) ∧ rows ≠ [] ∧ sources = omap activeSource rows.
Proof.
  unfold getActiveSources. destruct tab as [[|header [|row rows]]|]; try done.
  destruct (decide (header = sourcesHeader)) as [->|Hh].
  - rewrite bool_decide_eq_true_2 by done. cbn [negb].
    intros ->%sources_loop. by exists (row :: rows).
  - by rewrite bool_decide_eq_false_2 by done.
Qed.

Lemma activeSource_inv (row : SourcesTabRow) (s : SourceRow) :
  activeSource row = Some s →
  ∃ u, urlCell row = VStr u ∧ sourceActiveCell row = VBool true ∧
       sourceNameCell row ≠ "" ∧ Js.Substring "http" u ∧
       s = mkSource (Some (sourceNameCell row)) (Some u) (Some (notesCell row)).
Proof.
  unfold activeSource. destruct (urlCell row) as [u| |]; try done.
  destruct (sourceActiveCell row) as [| |[]]; try done.
  destruct (String.eqb_spec (sourceNameCell row) ""); simpl; [done|].
  destruct (Js.includes u "http") eqn:Hu; [|done]. intros [= <-].
  exists u. by rewrite <- includes_spec.
Qed.

End Tabs.

(** X14. The sources [getActiveSources] returns are, in the order of the
    tab, the rows with a name, a text URL that has the letters http in it
    and a ticked checkbox. Each has a name, a URL and a notes text, so
    [scrapeJobs] skips none of them as invalid: it fetches each one. *)
Theorem getActiveSources_returns_scrapable
    (tab : option (list SourcesTabRow)) (sources : list SourceRow) :
  getActiveSources tab = Ok sources →
  (∃ rows, tab = Some (sourcesHeader :: rows) ∧ sources = omap activeSource rows) ∧
  Forall (λ s, ∃ name u notes,
            s = mkSource (Some name) (Some u) (Some notes) ∧
            name ≠ "" ∧ Js.Substring "http" u) sources ∧
  ∀ (fetchSingleRSS : string → string → string → Result (list Job)) (today : string)
    (jobs : list Job) (s : SourceRow),
    s ∈ sources →
    scrape_step fetchSingleRSS today jobs s =
      match fetchSingleRSS (Js.template (URL s)) (Js.template (SourceName s)) today with
      | Ok sourceJobs => jobs ++ sourceJobs
      | Throw _ => jobs
      end.
Proof.
  intros (rows & -> & _ & ->)%getActiveSources_ok_inv.
  assert (∀ s, s ∈ omap activeSource rows →
            ∃ name u notes, s = mkSource (Some name) (Some u) (Some notes) ∧
                            name ≠ "" ∧ Js.Substring "http" u) as Hall.
  { intros s (row & _ & (u & _ & _ & Hname & Hu & ->)%activeSource_inv)%list_elem_of_omap.
    by exists (sourceNameCell row), u, (notesCell row). }
  split; [by exists rows|]. split; [by apply Forall_forall|].
  intros fetchSingleRSS today jobs s (name & u & notes & -> & Hname & [a [b ->]])%Hall.
  unfold scrape_step. simpl.
  destruct (String.eqb_spec name ""); [done|]. simpl.
  by destruct a.
Qed.

Lemma getActiveSources_returns_scrapable_witness :
  getActiveSources (Some readmeSourcesTab) = Ok readmeSources ∧
  Forall (λ s, ∃ name u notes,
            s = mkSource (Some name) (Some u) (Some notes) ∧
            name ≠ "" ∧ Js.Substring "http" u) readmeSources.
Proof.
  assert (getActiveSources (Some readmeSourcesTab) = Ok readmeSources) as H by (by vm_compute).
  split; [done|].
  exact (proj1 (proj2 (getActiveSources_returns_scrapable _ _ H))).
Defined.

Section RuntimeFiltersTab.

Variable toLowerCase : string → string.
Context {Num : Type}.
Variable truthy_num : Num → bool.
Variable Number : Runtime.Value Num → Num.
Variable isNaN : Num → bool.

#[local] Abbreviation rule_of := (activeRule toLowerCase truthy_num Number isNaN).
#[local] Abbreviation bad := (typeNotText truthy_num Number isNaN).
#[local] Abbreviation filters_step' :=
  (Runtime.filters_step toLowerCase truthy_num Number isNaN).

(** One turn of the loop: it throws on an active row whose type is not
    text and adds the rule of the row, if any, otherwise. *)
Lemma runtime_filters_step (filters : list (Runtime.Filter Num))
    (row : Runtime.FiltersTabRow Num) :
  filters_step' filters row =
  if bad row then Throw (TypeError "type.toLowerCase is not a function")
  else Ok (filters ++ option_list (rule_of row)).
Proof.
  unfold Runtime.filters_step, typeNotText, activeRule, activeRow.
  destruct row as [keyword weight type active]; simpl.
  destruct (Runtime.truthy_value truthy_num keyword); simpl.
  2: { destruct type; simpl; by rewrite ?app_nil_r. }
  destruct (isNaN (Number weight)); simpl.
  { destruct type; simpl; by rewrite ?app_nil_r. }
  destruct type as [t|n|b]; simpl.
  - destruct (String.eqb_spec t "") as [->|Ht]; simpl.
    + destruct active as [| |[]]; simpl; by rewrite ?app_nil_r.
    + destruct active as [s|n|[]]; simpl; rewrite ?app_nil_r; try done.
      destruct (bool_decide _); simpl; by rewrite ?app_nil_r.
  - destruct (truthy_num n), active as [| |[]]; simpl; by rewrite ?app_nil_r.
  - destruct b, active as [| |[]]; simpl; by rewrite ?app_nil_r.
Qed.

Lemma runtime_filters_loop (rows : list (Runtime.FiltersTabRow Num))
    (filters : list (Runtime.Filter Num)) :
  for_of filters_step' rows filters =
  if existsb bad rows then Throw (TypeError "type.toLowerCase is not a function")
  else Ok (filters ++ omap rule_of rows).
Proof.
  revert filters. induction rows as [|row rows IH]; intros filters.
  - simpl. by rewrite app_nil_r.
  - rewrite for_of_cons, runtime_filters_step. simpl.
    destruct (bad row); simpl; [done|]. rewrite IH.
    destruct (existsb _ rows); [done|]. rewrite <- app_assoc. do 2 f_equal.
    by destruct (rule_of row).
Qed.

Lemma runtime_getActiveFilters_unfold (header row : Runtime.FiltersTabRow Num)
    (rows : list (Runtime.FiltersTabRow Num)) :
  Runtime.getActiveFilters toLowerCase truthy_num Number isNaN (Some (header :: row :: rows)) =
  if isFiltersHeader header then for_of filters_step' (row :: rows) []
  else Throw (Error "Filters tab headers incorrect").
Proof.
  unfold Runtime.getActiveFilters, isFiltersHeader.
  by destruct (Runtime.strictEquals (Runtime.keywordCell header) _),
              (Runtime.strictEquals (Runtime.weightCell header) _),
              (Runtime.strictEquals (Runtime.typeCell header) _),
              (Runtime.strictEquals (Runtime.filterActiveCell header) _).
Qed.

Lemma runtime_getActiveFilters_ok (tab : option (list (Runtime.FiltersTabRow Num)))
    (filters : list (Runtime.Filter Num)) :
  Runtime.getActiveFilters toLowerCase truthy_num Number isNaN tab = Ok filters ↔
  ∃ header rows,
    tab = Some (header :: rows) ∧ rows ≠ [] ∧ isFiltersHeader header = true ∧
    existsb bad rows = false ∧ filters = omap rule_of rows.
Proof.
  split.
  - destruct tab as [[|header [|row rows]]|]; try done.
    rewrite runtime_getActiveFilters_unfold.
    destruct (isFiltersHeader header) eqn:Hh; [|done].
    rewrite (runtime_filters_loop (row :: rows)).
    destruct (existsb _ _) eqn:Hb; [done|]. intros [= <-].
    by exists header, (row :: rows).
  - intros (header & [|row rows] & -> & Hne & Hh & Hb & ->); [done|].
    by rewrite runtime_getActiveFilters_unfold, Hh, (runtime_filters_loop (row :: rows)), Hb.
Qed.

Lemma activeRule_inv (row : Runtime.FiltersTabRow Num) (rule : Runtime.Filter Num) :
  rule_of row = Some rule →
  Runtime.truthy_value truthy_num (Runtime.Keyword rule) = true ∧
  isNaN (Runtime.Weight rule) = false ∧ Runtime.Type_ rule ∈ filterTypes ∧
  Runtime.Keyword rule = Runtime.keywordCell row.
Proof.
  unfold activeRule, activeRow. destruct (Runtime.typeCell row) as [t| |]; try done.
  destruct (Runtime.truthy_value _ _) eqn:Hk; [|done].
  destruct (isNaN _) eqn:Hw; [done|]. simpl.
  destruct (Runtime.filterActiveCell row) as [| |[]]; try done. simpl.
  destruct (String.eqb t ""); [done|]. simpl.
  destruct (decide (toLowerCase t ∈ filterTypes)) as [Ht|Ht].
  - rewrite bool_decide_eq_true_2 by done. by intros [= <-].
  - by rewrite bool_decide_eq_false_2 by done.
Qed.

(** What [getActiveFilters] returns and what the scorer makes of it. *)
Lemma runtime_getActiveFilters_rules (zero : Num) (add : Num → Num → Num)
    (tab : option (list (Runtime.FiltersTabRow Num))) (filters : list (Runtime.Filter Num)) :
  Runtime.getActiveFilters toLowerCase truthy_num Number isNaN tab = Ok filters →
  Forall (λ rule, Runtime.truthy_value truthy_num (Runtime.Keyword rule) = true ∧
                  isNaN (Runtime.Weight rule) = false ∧
                  Runtime.Type_ rule ∈ filterTypes) filters ∧
  ∀ job, is_Some (Title job) →
    ((∃ r, Runtime.calculateScore toLowerCase zero add (Some job) (Some filters) = Ok r)
     ↔ Forall (λ rule, is_Some (Scoring.keywordText rule)) filters).
Proof.
  intros (header & rows & -> & _ & Hh & Hb & ->)%runtime_getActiveFilters_ok. split.
  - apply Forall_forall.
    intros rule (row & _ & (? & ? & ? & _)%activeRule_inv)%list_elem_of_omap. done.
  - intros job Ht. split.
    + intros [r Hr].
      destruct (decide (Scoring.Readable job (omap rule_of rows))) as [[? _]|Hn]; [done|].
      destruct (runtime_calculateScore_unreadable toLowerCase zero add job _ Hn) as [e He].
      congruence.
    + intros Hk. eexists. apply runtime_calculateScore_readable. split; [done | by left].
Qed.

End RuntimeFiltersTab.

(** The reader of the Filters tab of the pipeline, whose keywords are text
    and whose numbers are integers, is the reader of the runtime on such
    tabs. *)
Lemma filters_step_runtime (filters : list Filter) (row : FiltersTabRow) :
  Runtime.filters_step Js.toLowerCase intTruthy intNumber intIsNaN
                       (integerRule <$> filters) (runtimeRow row)
  = filters_step filters row ≫= λ fs : list Filter, Ok (integerRule <$> fs).
Proof.
  unfold Runtime.filters_step, filters_step.
  destruct row as [keyword weight type active]. cbn [runtimeRow Runtime.keywordCell
    Runtime.weightCell Runtime.typeCell Runtime.filterActiveCell keywordCell weightCell
    typeCell filterActiveCell Runtime.truthy_value].
  assert (intNumber (runtimeValue weight) = NumberOf weight) as -> by (by destruct weight).
  assert (Runtime.truthy_value intTruthy (runtimeValue type) = truthy_value type) as ->
    by (by destruct type).
  assert (Runtime.truthy_value intTruthy (runtimeValue active) = truthy_value active) as ->
    by (by destruct active).
  assert (Runtime.isBoolean (runtimeValue active) = isBoolean active) as ->
    by (by destruct active).
  unfold intIsNaN. destruct (NumberOf weight) as [w|]; simpl.
  2: { by rewrite orb_true_r. }
  rewrite orb_false_r.
  destruct (negb (String.eqb keyword "") ) eqn:Hk; simpl.
  - apply negb_true_iff in Hk. rewrite Hk. simpl.
    destruct (negb (truthy_value type) || negb (isBoolean active)); simpl; [done|].
    destruct (truthy_value active); [|done].
    destruct type as [t| |]; simpl; try done.
    destruct (negb (bool_decide _)); simpl; [done|]. by rewrite fmap_app.
  - apply negb_false_iff in Hk. by rewrite Hk.
Qed.

Lemma getActiveFilters_runtime (tab : option (list FiltersTabRow)) :
  Runtime.getActiveFilters Js.toLowerCase intTruthy intNumber intIsNaN
                           (fmap (M := list) runtimeRow <$> tab)
  = getActiveFilters tab ≫= λ fs : list Filter, Ok (integerRule <$> fs).
Proof.
  destruct tab as [[|header [|row rows]]|]; try done.
  cbn [fmap option_fmap option_map]. rewrite !fmap_cons.
  rewrite runtime_getActiveFilters_unfold. unfold getActiveFilters.
  assert (isFiltersHeader (runtimeRow header) = bool_decide (header = filtersHeader)) as ->.
  { destruct (decide (header = filtersHeader)) as [->|Hne].
    - by rewrite bool_decide_eq_true_2.
    - rewrite bool_decide_eq_false_2 by done. unfold isFiltersHeader.
      destruct header as [k w t a]. simpl.
      destruct (String.eqb_spec k "Keyword") as [->|]; [|done].
      destruct w as [w| |]; simpl; try done.
      destruct (String.eqb_spec w "Weight") as [->|]; [|done].
      destruct t as [t| |]; simpl; try done.
      destruct (String.eqb_spec t "Type") as [->|]; [|done].
      destruct a as [a| |]; simpl; try done.
      destruct (String.eqb_spec a "Active") as [->|]; [|done].
      by destruct Hne. }
  change (mkFiltersRow "Keyword" (VStr "Weight") (VStr "Type") (VStr "Active"))
    with filtersHeader.
  destruct (bool_decide (header = filtersHeader)); [|done]. cbn [negb].
  rewrite <- fmap_cons. generalize (row :: rows). intros rs.
  change (@nil (Runtime.Filter (option Z))) with (integerRule <$> @nil Filter).
  generalize (@nil Filter).
  induction rs as [|r rs IH]; intros fs; [done|].
  rewrite fmap_cons, !for_of_cons, filters_step_runtime.
  destruct (filters_step fs r) as [fs'|e]; simpl; [apply IH | done].
Qed.

(** X15. [getActiveFilters] on any runtime: it returns exactly when the tab
    has the header Keyword, Weight, Type, Active, a row below it and no
    active row whose type is a number or a checkbox; the rules it returns
    are, in the order of the tab, those of the rows with a keyword, a weight
    that is not NaN, a ticked checkbox and a type that is title, any or
    negative in any letter case. Each rule has the keyword cell as it is, a
    weight that is a number and its type in lower case. The keyword need
    not be text: a listing with a title is scored against the rules exactly
    when every keyword is text, and a keyword that is a number stops the
    scorer. *)
Theorem getActiveFilters_returns_rules (toLowerCase : string → string) (Num : Type)
    (truthy_num : Num → bool) (Number : Runtime.Value Num → Num) (isNaN : Num → bool)
    (zero : Num) (add : Num → Num → Num)
    (tab : option (list (Runtime.FiltersTabRow Num))) (filters : list (Runtime.Filter Num)) :
  (Runtime.getActiveFilters toLowerCase truthy_num Number isNaN tab = Ok filters ↔
   ∃ header rows,
     tab = Some (header :: rows) ∧ rows ≠ [] ∧ isFiltersHeader header = true ∧
     existsb (typeNotText truthy_num Number isNaN) rows = false ∧
     filters = omap (activeRule toLowerCase truthy_num Number isNaN) rows) ∧
  (Runtime.getActiveFilters toLowerCase truthy_num Number isNaN tab = Ok filters →
   Forall (λ rule, Runtime.truthy_value truthy_num (Runtime.Keyword rule) = true ∧
                   isNaN (Runtime.Weight rule) = false ∧
                   Runtime.Type_ rule ∈ filterTypes) filters ∧
   ∀ job, is_Some (Title job) →
     ((∃ r, Runtime.calculateScore toLowerCase zero add (Some job) (Some filters) = Ok r)
      ↔ Forall (λ rule, is_Some (Scoring.keywordText rule)) filters)).
Proof.
  split; [apply runtime_getActiveFilters_ok | apply runtime_getActiveFilters_rules].
Qed.

Lemma getActiveFilters_returns_rules_witness :
  Runtime.getActiveFilters Js.toLowerCase intTruthy intNumber intIsNaN
                           (Some numericKeywordTab) = Ok numericKeywordRules ∧
  Forall (λ rule, Runtime.truthy_value intTruthy (Runtime.Keyword rule) = true ∧
                  intIsNaN (Runtime.Weight rule) = false ∧
                  Runtime.Type_ rule ∈ filterTypes) numericKeywordRules ∧
  Runtime.calculateScore Js.toLowerCase (Some 0) (λ a b, x ← a; y ← b; Some (x + y))
                         (Some listing_POWER) (Some numericKeywordRules) =
  Throw (TypeError "filter.Keyword.toLowerCase is not a function").
Proof.
  assert (Runtime.getActiveFilters Js.toLowerCase intTruthy intNumber intIsNaN
            (Some numericKeywordTab) = Ok numericKeywordRules) as H by (by vm_compute).
  split; [done|]. split; [|by vm_compute].
  exact (proj1 (proj2 (getActiveFilters_returns_rules Js.toLowerCase (option Z) intTruthy
                         intNumber intIsNaN (Some 0) (λ a b, x ← a; y ← b; Some (x + y))
                         _ _) H)).
Defined.

(** ** One feed *)

Section FeedFacts.

Variable fetch : string → Result HTTPResponse.
Variable parse : string → Result Element.
Variable generateUniqueID : nat → string.

Lemma substring_length (m : nat) (s : string) :
  (String.length (String.substring 0 m s) ≤ m)%nat.
Proof.
  revert s. induction m as [|m IH]; intros [|c s]; simpl; try lia.
  specialize (IH s). lia.
Qed.

Lemma or_else_truthy (v : option string) (d : string) :
  d ≠ "" → Js.truthy (Some (Js.or_else v d)) = true.
Proof.
  intros Hd. unfold Js.or_else. destruct v as [s|]; simpl.
  - destruct (String.eqb_spec s ""); simpl; by apply negb_true_iff, String.eqb_neq.
  - by apply negb_true_iff, String.eqb_neq.
Qed.

(** The link of a job is the text of the link element, and an item makes a
    job exactly when that text is there and not blank. *)
Lemma item_step_cases (sourceName today : string) (st : list Job * nat) (item : Element) :
  (Js.truthy (getChildText "link" item) = false ∧ item_step generateUniqueID sourceName today st item = st)
  ∨ (Js.truthy (getChildText "link" item) = true ∧
     ∃ job, item_step generateUniqueID sourceName today st item = (st.1 ++ [job], S st.2) ∧
            FeedJob sourceName today job ∧ ID job = Some (generateUniqueID st.2) ∧
            Link job = getChildText "link" item).
Proof.
  unfold item_step.
  destruct (getChildText "link" item) as [link|] eqn:Hlink; simpl; [|by left].
  destruct (String.eqb_spec link "") as [->|Hne]; simpl; [by left|].
  rewrite (proj2 (String.eqb_neq _ _) Hne). right. split; [done|].
  eexists. split; [done|]. split; [|done].
  unfold FeedJob; simpl. rewrite (proj2 (String.eqb_neq _ _) Hne).
  split; [by apply or_else_truthy|]. do 6 (split; [by eauto|]).
  split; [|done]. eexists. split; [done|]. apply substring_length.
Qed.

Lemma item_loop (sourceName today : string) (items : list Element) (st : list Job * nat) :
  ∃ new,
    fold_left (item_step generateUniqueID sourceName today) items st
      = (st.1 ++ new, (st.2 + length new)%nat) ∧
    Forall (FeedJob sourceName today) new ∧
    ID <$> new = (λ n, Some (generateUniqueID n)) <$> seq st.2 (length new) ∧
    Link <$> new = List.filter Js.truthy (getChildText "link" <$> items).
Proof.
  revert st. induction items as [|item items IH]; intros st.
  - exists []. simpl. rewrite app_nil_r, Nat.add_0_r. by destruct st.
  - simpl. destruct (item_step_cases sourceName today st item)
      as [[Hl ->]|(Hl & job & -> & Hjob & Hid & Hlink)]; rewrite Hl.
    + apply IH.
    + destruct (IH (st.1 ++ [job], S st.2)) as (new & -> & Hnew & Hids & Hlinks).
      exists (job :: new). simpl. rewrite <- app_assoc, Nat.add_succ_r.
      split; [done|]. split; [by constructor|].
      split; (f_equal; [done|]); [exact Hids | exact Hlinks].
Qed.

Lemma fetchSingleRSS_ok_inv (url sourceName today : string) (jobs : list Job) :
  fetchSingleRSS fetch parse generateUniqueID url sourceName today = Ok jobs →
  url ≠ "" ∧ sourceName ≠ "" ∧ today ≠ "" ∧
  ∃ response root channel,
    fetch url = Ok response ∧ getResponseCode response = 200 ∧
    parse (getContentText response) = Ok root ∧ getChild "channel" root = Some channel ∧
    jobs = (fold_left (item_step generateUniqueID sourceName today)
                      (take 50 (getChildren "item" channel)) ([], 0%nat)).1.
Proof.
  unfold fetchSingleRSS.
  destruct (String.eqb_spec url ""); [done|].
  destruct (String.eqb_spec sourceName ""); [done|].
  destruct (String.eqb_spec today ""); [done|]. cbn [orb].
  destruct (fetch url) as [response|e]; [|done].
  destruct (Z.eqb_spec (getResponseCode response) 200) as [Hcode|]; [|done]. cbn [negb].
  destruct (parse _) as [root|e] eqn:Hparse; [|done].
  destruct (getChild "channel" root) as [channel|] eqn:Hchannel; [|done].
  rewrite slice0_take by lia. intros [= <-]. do 3 (split; [done|]).
  by exists response, root, channel.
Qed.

End FeedFacts.

(** What a fetch that returns has read and made. *)
Lemma feed_jobs
    (fetch : string → Result HTTPResponse) (parse : string → Result Element)
    (generateUniqueID : nat → string) (url sourceName today : string) (jobs : list Job) :
  fetchSingleRSS fetch parse generateUniqueID url sourceName today = Ok jobs →
  (length jobs ≤ 50)%nat ∧
  Forall (λ job, FeedJob sourceName today job ∧ validRaw job = true) jobs ∧
  ID <$> jobs = (λ n, Some (generateUniqueID n)) <$> seq 0 (length jobs) ∧
  ∃ response root channel,
    fetch url = Ok response ∧ getResponseCode response = 200 ∧
    parse (getContentText response) = Ok root ∧ getChild "channel" root = Some channel ∧
    Link <$> jobs =
      List.filter Js.truthy (getChildText "link" <$> take 50 (getChildren "item" channel)).
Proof.
  intros (_ & Hname & _ & response & root & channel & Hf & Hc & Hp & Hch & ->)
           %fetchSingleRSS_ok_inv.
  destruct (item_loop generateUniqueID sourceName today
              (take 50 (getChildren "item" channel)) ([], 0%nat))
    as (new & -> & Hnew & Hids & Hlinks). simpl in *.
  split.
  { rewrite <- (length_fmap Link), Hlinks.
    etransitivity; [apply List.filter_length_le|]. rewrite length_fmap, length_take. lia. }
  split.
  { eapply Forall_impl; [exact Hnew|]. intros job Hjob. split; [done|].
    destruct Hjob as (Ht & Hl & Hs & _). unfold validRaw. rewrite Ht, Hl, Hs. simpl.
    by apply negb_true_iff, String.eqb_neq. }
  split; [done|]. by exists response, root, channel.
Qed.

(** X16. The jobs [fetchSingleRSS] returns come from the first 50 items of
    the channel, one for each item of these with a link, in feed order, so
    they are 50 at most. Each carries the source name and the day it was
    given, a title (Unknown Title when the item has none), texts for
    company, location and snippet, the snippet cut to 500 characters, and
    so passes the validity test of [processJobs]; the identifiers are the
    ones generated, in order. *)
Theorem fetchSingleRSS_returns_valid_jobs
    (fetch : string → Result HTTPResponse) (parse : string → Result Element)
    (generateUniqueID : nat → string) (url sourceName today : string) (jobs : list Job) :
  fetchSingleRSS fetch parse generateUniqueID url sourceName today = Ok jobs →
  (length jobs ≤ 50)%nat ∧
  Forall (λ job, FeedJob sourceName today job ∧ validRaw job = true) jobs ∧
  ID <$> jobs = (λ n, Some (generateUniqueID n)) <$> seq 0 (length jobs) ∧
  ∃ response root channel,
    fetch url = Ok response ∧ getResponseCode response = 200 ∧
    parse (getContentText response) = Ok root ∧ getChild "channel" root = Some channel ∧
    Link <$> jobs =
      List.filter Js.truthy (getChildText "link" <$> take 50 (getChildren "item" channel)).
Proof. apply feed_jobs. Qed.

Lemma fetchSingleRSS_returns_valid_jobs_witness :
  ∃ jobs,
    fetchSingleRSS sampleFetch sampleParse sampleIDs "https://example.com/feed" "Mock RSS"
                   "2025-09-13" = Ok jobs ∧
    Title <$> jobs = [Some "Power Systems Engineer"; Some "Unknown Title"] ∧
    (length jobs ≤ 50)%nat ∧
    Forall (λ job, FeedJob "Mock RSS" "2025-09-13" job ∧ validRaw job = true) jobs.
Proof.
  eexists. split; [by vm_compute|]. split; [done|].
  refine (let H := fetchSingleRSS_returns_valid_jobs sampleFetch sampleParse sampleIDs
                     "https://example.com/feed" "Mock RSS" "2025-09-13" _ eq_refl in
          conj (proj1 H) (proj1 (proj2 H))).
Defined.

(** ** Feeds through the scraper and the pipeline *)

Section FeedsThroughPipeline.

Variable fetch : string → Result HTTPResponse.
Variable parse : string → Result Element.
Variable generateUniqueID : nat → string.




End FeedsThroughPipeline.



(** ** The whole run *)

Section WholeRun.

Variable fetchSingleRSS : string → string → string → Result (list Job).
Variable today : string.
Variable formatDate : option string → string.
Variable generateUniqueID : nat → string.

#[local] Abbreviation run := (runJobSearch fetchSingleRSS today formatDate generateUniqueID).

Lemma appendJobs_throw_unchanged (batch : list Job) (config : option Config)
    (w w' : World) (e : Exn) :
  appendJobs batch config w = (Throw e, w') → w' = w.
Proof.
  unfold appendJobs. destruct config as [c|]; [|by intros [= _ <-]].
  destruct (_ || _); [by intros [= _ <-]|].
  destruct (negb _); [by intros [= _ <-]|].
  destruct (openJobsSheet w); [|by intros [= _ <-]].
  by destruct (jobsToAppend _).
Qed.

(** The run when the three reads succeed and there is a source. *)
Lemma run_stages (wb : Workbook) (config : Config) (sources : list SourceRow)
    (filters : list Filter) :
  readConfig wb = Ok config →
  getActiveSources (SourcesTab wb) = Ok sources →
  getActiveFilters (FiltersTab wb) = Ok filters →
  sources ≠ [] →
  run wb =
    match processJobs generateUniqueID (concat (fetched fetchSingleRSS today <$> sources))
                      filters (Some config) with
    | Throw e => (Throw e, services wb)
    | Ok processedJobs =>
        match appendJobs processedJobs (Some config) (services wb) with
        | (Throw e, w') => (Throw e, w')
        | (Ok _, w') =>
            match sendJobDigest formatDate (Some config) w' with
            | (Throw e, w'') => (Throw e, w'')
            | (Ok _, w'') => (Ok (), w'')
            end
        end
    end.
Proof.
  intros Hc Hs Hf Hne. unfold runJobSearch. rewrite Hc, Hs, Hf.
  destruct sources as [|s sources]; [done|].
  by rewrite (scrapeJobs_fetched fetchSingleRSS today (s :: sources)).
Qed.

(** The run when a read fails or no source is active: it ends there,
    whatever the feeds, the clock and the identifiers are. *)
Lemma run_stops (wb : Workbook) :
  (∃ e, (∀ f t fd g, runJobSearch f t fd g wb = (Throw e, services wb)) ∧
        (readConfig wb = Throw e
         ∨ getActiveSources (SourcesTab wb) = Throw e
         ∨ getActiveFilters (FiltersTab wb) = Throw e))
  ∨ ((∀ f t fd g, runJobSearch f t fd g wb = (Ok (), services wb)) ∧
     getActiveSources (SourcesTab wb) = Ok [])
  ∨ ∃ config sources filters,
      readConfig wb = Ok config ∧ getActiveSources (SourcesTab wb) = Ok sources ∧
      getActiveFilters (FiltersTab wb) = Ok filters ∧ sources ≠ [].
Proof.
  unfold runJobSearch.
  destruct (readConfig wb) as [config|e]; [|left; exists e; eauto].
  destruct (getActiveSources (SourcesTab wb)) as [sources|e]; [|left; exists e; eauto].
  destruct (getActiveFilters (FiltersTab wb)) as [filters|e]; [|left; exists e; eauto].
  destruct sources as [|s sources]; [right; left; eauto|].
  right. right. by exists config, (s :: sources), filters.
Qed.

(** What [sendJobDigest] does to the rows: nothing, or it marks some. *)
Lemma sendJobDigest_rows (config : option Config) (w w' : World) (r : Result nat) :
  sendJobDigest formatDate config w = (r, w') →
  SHEET_ID w' = SHEET_ID w ∧ gmailFailure w' = gmailFailure w ∧
  (JobsTab w' = JobsTab w
   ∨ ∃ rows selected day,
       JobsTab w = Some rows ∧ JobsTab w' = Some (markNotified selected day <$> rows)).
Proof.
  unfold sendJobDigest, sendEmail. destruct config as [config|]; [|intros [= _ <-]; eauto].
  destruct (_ || _); [intros [= _ <-]; eauto|].
  destruct (openJobsSheet w) as [[|job jobs]|e] eqn:Hopen; try (intros [= _ <-]; by eauto).
  apply openJobsSheet_ok in Hopen as [_ Htab].
  destruct (eligibleJobs config (job :: jobs)) as [|sel sels]; [intros [= _ <-]; eauto|].
  destruct (gmailFailure w) eqn:Hg; [intros [= _ <-]; eauto|].
  intros [= _ <-]. simpl. split; [done|]. split; [done|]. right. eauto.
Qed.

Lemma markNotified_sameListing (selected : list Job) (day : string) (row : Job) :
  sameListing row (markNotified selected day row).
Proof. unfold markNotified, sameListing. by destruct (existsb _ selected). Qed.

Lemma sameListing_refl (rows : list Job) : Forall2 sameListing rows rows.
Proof. induction rows; constructor; [by unfold sameListing | done]. Qed.

End WholeRun.

Section FailingSheet.

Variable fetchSingleRSS : string → string → string → Result (list Job).
Variable today : string.
Variable formatDate : option string → string.
Variable generateUniqueID : nat → string.
Variable appendFailure : option Exn.
Variable markFailure : option (nat * Exn).

Lemma markWrites_partly (emailedJobs : list Job) (day : string) (n : nat) (rows : list Job) :
  Forall2 (partlyNotified day) rows (SheetFailure.markWrites emailedJobs day n rows).1.
Proof.
  assert (∀ rows : list Job, Forall2 (partlyNotified day) rows rows) as Hrefl.
  { intros rs. induction rs; constructor; [by left | done]. }
  revert n. induction rows as [|row rows IH]; intros n; [constructor|].
  cbn [SheetFailure.markWrites]. unfold markNotified.
  destruct (existsb _ emailedJobs).
  - destruct n as [|[|n]].
    + constructor; [by left | done].
    + constructor; [right; by left | done].
    + specialize (IH n). destruct (SheetFailure.markWrites emailedJobs day n rows).
      constructor; [right; by right | done].
  - specialize (IH n). destruct (SheetFailure.markWrites emailedJobs day n rows).
    constructor; [by left | done].
Qed.

(** A throw of [updateNotifiedJobs] is the failure of a sheet call, and
    the rows are marked in part. *)
Lemma updateNotifiedJobs_throw (rows rows' emailedJobs : list Job)
    (dateFormat : option string) (e : Exn) :
  SheetFailure.updateNotifiedJobs formatDate markFailure rows emailedJobs dateFormat
    = (Throw e, rows') →
  (∃ n, markFailure = Some (n, e)) ∧
  Forall2 (partlyNotified (formatDate dateFormat)) rows rows'.
Proof.
  assert (Forall2 (partlyNotified (formatDate dateFormat)) rows rows) as Hrefl.
  { induction rows; constructor; [by left | done]. }
  unfold SheetFailure.updateNotifiedJobs.
  destruct markFailure as [[[|[|n]] e']|]; [| | |done].
  - intros [= <- <-]. eauto.
  - destruct rows; [done|]. intros [= <- <-]. eauto.
  - destruct rows as [|row rows]; [done|].
    pose proof (markWrites_partly emailedJobs (formatDate dateFormat) n (row :: rows)) as Hp.
    destruct (SheetFailure.markWrites _ _ n (row :: rows)) as [marked []]; [|done].
    intros [= <- <-]. eauto.
Qed.

(** A throw of [appendJobs] leaves the world as it was, and a return is a
    return of the append that cannot fail. *)
Lemma failing_appendJobs_throw (batch : list Job) (config : option Config)
    (w w' : World) (e : Exn) :
  SheetFailure.appendJobs appendFailure batch config w = (Throw e, w') → w' = w.
Proof.
  unfold SheetFailure.appendJobs. destruct config as [c|]; [|by intros [= _ <-]].
  destruct (_ || _); [by intros [= _ <-]|].
  destruct (negb _); [by intros [= _ <-]|].
  destruct (openJobsSheet w); [|by intros [= _ <-]].
  destruct (jobsToAppend _); [done|]. destruct appendFailure; [by intros [= _ <-] | done].
Qed.

Lemma failing_appendJobs_ok (batch : list Job) (config : option Config)
    (w w' : World) (n : nat) :
  SheetFailure.appendJobs appendFailure batch config w = (Ok n, w') →
  appendJobs batch config w = (Ok n, w').
Proof.
  unfold SheetFailure.appendJobs, appendJobs. destruct config as [c|]; [|done].
  destruct (_ || _); [done|]. destruct (negb _); [done|].
  destruct (openJobsSheet w); [|done].
  destruct (jobsToAppend _); [done|]. by destruct appendFailure.
Qed.

(** A throw of [sendJobDigest] comes before the send and leaves the world
    as it was, or it is the failure of a sheet call of [updateNotifiedJobs]:
    then the mail has gone and the rows are marked in part. *)
Lemma failing_sendJobDigest_throw (config : Config) (w w' : World) (e : Exn) :
  SheetFailure.sendJobDigest formatDate markFailure (Some config) w = (Throw e, w') →
  w' = w
  ∨ ∃ rows marked,
      (∃ n, markFailure = Some (n, e)) ∧
      JobsTab w = Some rows ∧ eligibleJobs config rows ≠ [] ∧
      w' = setJobsTab (pushMail w {| recipient := Js.template (emailRecipient config);
                                     digest := eligibleJobs config rows |}) marked ∧
      Forall2 (partlyNotified (formatDate (dateFormat config))) rows marked.
Proof.
  unfold SheetFailure.sendJobDigest, sendEmail.
  destruct (_ || _); [intros [= _ <-]; by left|].
  destruct (openJobsSheet w) as [[|job jobs]|e'] eqn:Hopen; try (intros [= _ <-]; by left).
  apply openJobsSheet_ok in Hopen as [_ Htab].
  destruct (eligibleJobs config (job :: jobs)) as [|sel sels] eqn:Hsel; [done|].
  destruct (gmailFailure w); [intros [= _ <-]; by left|].
  destruct (SheetFailure.updateNotifiedJobs _ _ _ _ _) as [[m|e'] marked] eqn:Hup; [done|].
  intros [= <- <-]. apply updateNotifiedJobs_throw in Hup as [Hn Hp].
  right. exists (job :: jobs), marked. rewrite Hsel. by eauto 10.
Qed.

(** With a sheet that answers every call the run is the run above. *)
Lemma markWrites_all (emailedJobs : list Job) (day : string) (n : nat) (rows marked : list Job) :
  SheetFailure.markWrites emailedJobs day n rows = (marked, false) →
  marked = markNotified emailedJobs day <$> rows.
Proof.
  revert n marked. induction rows as [|row rows IH]; intros n marked.
  - by intros [= <-].
  - cbn [SheetFailure.markWrites]. rewrite fmap_cons. unfold markNotified at 2.
    destruct (existsb _ emailedJobs) eqn:Hm.
    + destruct n as [|[|n]]; [done | done |].
      destruct (SheetFailure.markWrites emailedJobs day n rows) as [rest thrown] eqn:Hrest.
      intros [= <- ->]. unfold markNotified at 1. rewrite Hm. f_equal. by apply (IH n).
    + destruct (SheetFailure.markWrites emailedJobs day n rows) as [rest thrown] eqn:Hrest.
      intros [= <- ->]. f_equal. by apply (IH n).
Qed.

(** A return of [updateNotifiedJobs] is the return of the update that
    cannot fail: the failing call was never made. *)
Lemma updateNotifiedJobs_return (rows rows' emailedJobs : list Job)
    (dateFormat : option string) (n : nat) :
  SheetFailure.updateNotifiedJobs formatDate markFailure rows emailedJobs dateFormat
    = (Ok n, rows') →
  (n, rows') = updateNotifiedJobs formatDate rows emailedJobs dateFormat.
Proof.
  unfold SheetFailure.updateNotifiedJobs.
  destruct markFailure as [[[|[|k]] e']|]; [done| | |by intros [= <- <-]].
  - destruct rows; [by intros [= <- <-] | done].
  - destruct rows as [|row rows]; [by intros [= <- <-]|].
    destruct (SheetFailure.markWrites _ _ k (row :: rows)) as [marked []] eqn:Hm; [done|].
    intros [= <- <-]. by apply markWrites_all in Hm as ->.
Qed.

End FailingSheet.

Lemma runJobSearch_without_failure
    (fetchSingleRSS : string → string → string → Result (list Job)) (today : string)
    (formatDate : option string → string) (generateUniqueID : nat → string)
    (wb : Workbook) :
  SheetFailure.runJobSearch fetchSingleRSS today formatDate generateUniqueID None None wb
  = runJobSearch fetchSingleRSS today formatDate generateUniqueID wb.
Proof.
  unfold SheetFailure.runJobSearch, runJobSearch.
  destruct (readConfig wb) as [config|]; [|done].
  destruct (getActiveSources _) as [sources|]; [|done].
  destruct (getActiveFilters _) as [filters|]; [|done].
  destruct sources as [|s sources]; [done|].
  destruct (scrapeJobs _ _ _) as [rawJobs|]; [|done].
  destruct (processJobs _ _ _ _) as [processed|]; [|done].
  assert (∀ w, SheetFailure.appendJobs None processed (Some config) w
               = appendJobs processed (Some config) w) as ->.
  { intros w. unfold SheetFailure.appendJobs, appendJobs.
    destruct (_ || _); [done|]. destruct (negb _); [done|].
    destruct (openJobsSheet w); [|done]. by destruct (jobsToAppend _). }
  destruct (appendJobs processed (Some config) (services wb)) as [[n|e] w1]; [|done].
  assert (SheetFailure.sendJobDigest formatDate None (Some config) w1
          = sendJobDigest formatDate (Some config) w1) as ->; [|done].
  unfold SheetFailure.sendJobDigest, sendJobDigest, SheetFailure.updateNotifiedJobs.
  destruct (_ || _); [done|]. by destruct (openJobsSheet w1) as [[|job jobs]|].
Qed.

(** X18. A run that fails, on a sheet whose calls may fail too. The sheet
    identifier and the mail service are as they were. Either no mail has
    gone, and the Jobs tab is as it was or has the rows appended before the
    failure, for there is no rollback; or the failure is that of a sheet
    call of [updateNotifiedJobs], which runs after the send: then the mail
    has gone, to the configured recipient and with the selection it was
    made for, the rows appended stay, and each row of the tab is untouched,
    has its status written, or has its status and the day written. With a
    sheet that answers every call of [updateNotifiedJobs] a run that fails
    has sent no mail. *)
Theorem runJobSearch_failure_mail_and_rows
    (fetchSingleRSS : string → string → string → Result (list Job)) (today : string)
    (formatDate : option string → string) (generateUniqueID : nat → string)
    (appendFailure : option Exn) (markFailure : option (nat * Exn))
    (wb : Workbook) (e : Exn) (w' : World) :
  SheetFailure.runJobSearch fetchSingleRSS today formatDate generateUniqueID
                            appendFailure markFailure wb = (Throw e, w') →
  SHEET_ID w' = SHEET_ID (services wb) ∧
  gmailFailure w' = gmailFailure (services wb) ∧
  ((outbox w' = outbox (services wb) ∧
    (JobsTab w' = JobsTab (services wb)
     ∨ ∃ rows new, new ≠ [] ∧ JobsTab (services wb) = Some rows ∧
                   JobsTab w' = Some (rows ++ new)))
   ∨ ∃ config rows new marked,
       (∃ n, markFailure = Some (n, e)) ∧
       readConfig wb = Ok config ∧
       JobsTab (services wb) = Some rows ∧
       eligibleJobs config (rows ++ new) ≠ [] ∧
       outbox w' = outbox (services wb)
                   ++ [{| recipient := Js.template (emailRecipient config);
                          digest := eligibleJobs config (rows ++ new) |}] ∧
       JobsTab w' = Some marked ∧
       Forall2 (partlyNotified (formatDate (dateFormat config))) (rows ++ new) marked).
Proof.
  unfold SheetFailure.runJobSearch.
  destruct (readConfig wb) as [config|e0] eqn:Hc; [|intros [= _ <-]; eauto 10].
  destruct (getActiveSources _) as [sources|e0]; [|intros [= _ <-]; eauto 10].
  destruct (getActiveFilters _) as [filters|e0]; [|intros [= _ <-]; eauto 10].
  destruct sources as [|s sources]; [done|].
  destruct (scrapeJobs _ _ _) as [rawJobs|e0]; [|intros [= _ <-]; eauto 10].
  destruct (processJobs _ _ _ _) as [processed|e0]; [|intros [= _ <-]; eauto 10].
  destruct (SheetFailure.appendJobs appendFailure processed (Some config) (services wb))
    as [[n|e0] w1] eqn:Happ.
  2: { intros [= _ <-]. apply failing_appendJobs_throw in Happ as ->. eauto 10. }
  apply failing_appendJobs_ok, appendJobs_rows in Happ
    as (rows & new & Htab & Htab1 & Hn & Hid & Hg & Hout & _).
  destruct (SheetFailure.sendJobDigest formatDate markFailure (Some config) w1)
    as [[m|e0] w2] eqn:Hsend; [done|].
  intros [= <- <-].
  apply failing_sendJobDigest_throw in Hsend
    as [->|(rows1 & marked & Hf & Htab1' & Hsel & -> & Hp)].
  - do 2 (split; [done|]). left. split; [done|]. destruct new as [|r new].
    + left. by rewrite Htab, Htab1, app_nil_r.
    + right. by exists rows, (r :: new).
  - rewrite Htab1 in Htab1'. injection Htab1' as <-.
    do 2 (split; [done|]). right. exists config, rows, new, marked.
    simpl. rewrite Hout. by eauto 10.
Qed.

Lemma runJobSearch_failure_mail_and_rows_witness :
  ∃ w',
    SheetFailure.runJobSearch (fetchSingleRSS sampleFetch sampleParse sampleIDs) "2025-09-13"
        digestDay mockIDs None (Some (3%nat, Error "Service Spreadsheets failed"))
        (sampleWorkbook fullConfigTab) =
      (Throw (Error "Service Spreadsheets failed"), w') ∧
    length (outbox w') = 1%nat ∧
    Status <$> default [] (JobsTab w') = [Some "Notified"] ∧
    DateNotified <$> default [] (JobsTab w') = [Some ""] ∧
    SHEET_ID w' = SHEET_ID emptyJobsTab.
Proof.
  eexists. split; [by vm_compute|]. split; [by vm_compute|].
  split; [by vm_compute|]. split; [by vm_compute|].
  refine (proj1 (runJobSearch_failure_mail_and_rows
                   (fetchSingleRSS sampleFetch sampleParse sampleIDs) "2025-09-13" digestDay
                   mockIDs None (Some (3%nat, Error "Service Spreadsheets failed"))
                   (sampleWorkbook fullConfigTab) (Error "Service Spreadsheets failed") _ _)).
  by vm_compute.
Defined.



(** X20. With a minimum score of 0 in the Config tab, which [getConfig]
    accepts, every run that has an active source and its filters fails in
    [processJobs], after the feeds have been fetched, with the error of a
    missing field; no run on such a workbook changes the world. *)
Theorem runJobSearch_rejects_zero_minScore
    (fetchSingleRSS : string → string → string → Result (list Job)) (today : string)
    (formatDate : option string → string) (generateUniqueID : nat → string)
    (wb : Workbook) (data : list (string * Cell)) (config : Config) :
  ConfigTab wb = Some data → getConfig data = Ok config → minScore config = Some 0 →
  (runJobSearch fetchSingleRSS today formatDate generateUniqueID wb).2 = services wb ∧
  ∀ sources filters,
    Js.truthy (SHEET_ID (services wb)) = true →
    getActiveSources (SourcesTab wb) = Ok sources → sources ≠ [] →
    getActiveFilters (FiltersTab wb) = Ok filters →
    runJobSearch fetchSingleRSS today formatDate generateUniqueID wb =
      (Throw (Error "Missing required config fields: minScore or dedupeBy"), services wb).
Proof.
  intros Htab Hdata Hzero.
  assert (∀ c sources filters,
            readConfig wb = Ok c → getActiveSources (SourcesTab wb) = Ok sources →
            getActiveFilters (FiltersTab wb) = Ok filters → sources ≠ [] →
            runJobSearch fetchSingleRSS today formatDate generateUniqueID wb =
              (Throw (Error "Missing required config fields: minScore or dedupeBy"),
               services wb)) as Hfail.
  { intros c sources filters Hc Hs Hf Hne.
    rewrite (run_stages _ _ _ _ wb c sources filters Hc Hs Hf Hne).
    unfold readConfig in Hc. rewrite Htab in Hc.
    destruct (negb _); [done|]. rewrite Hdata in Hc. injection Hc as <-.
    unfold processJobs. by rewrite Hzero. }
  split.
  - destruct (run_stops wb)
      as [(e & -> & _)|[[-> _]|(c & sources & filters & Hc & Hs & Hf & Hne)]]; [done..|].
    by rewrite (Hfail c sources filters).
  - intros sources filters Hid Hs Hne Hf. apply (Hfail config sources filters); try done.
    unfold readConfig. by rewrite Hid, Htab.
Qed.

Lemma runJobSearch_rejects_zero_minScore_witness :
  getConfig zeroConfigTab = Ok zeroConfig ∧
  sampleRun zeroWorkbook =
    (Throw (Error "Missing required config fields: minScore or dedupeBy"), emptyJobsTab).
Proof.
  assert (getConfig zeroConfigTab = Ok zeroConfig) as H by (by vm_compute).
  split; [exact H|].
  refine (proj2 (runJobSearch_rejects_zero_minScore _ _ _ _ zeroWorkbook zeroConfigTab
                   zeroConfig eq_refl H eq_refl) _ mockFilters eq_refl _ _ _).
  - by vm_compute.
  - done.
  - by vm_compute.
Defined.

(** X21. No digest without a cover letter document: when the
    [coverLetterDocId] rows of the Config tab, if there are any, are blank
    or 0, as in the tab the README shows, no run sends a mail, and a run
    that has an active source never returns: the rows are appended and the
    digest then throws. *)
Theorem runJobSearch_never_mails_without_coverLetterDocId
    (fetchSingleRSS : string → string → string → Result (list Job)) (today : string)
    (formatDate : option string → string) (generateUniqueID : nat → string)
    (wb : Workbook) (data : list (string * Cell)) :
  ConfigTab wb = Some data →
  (∀ v, ("coverLetterDocId", v) ∈ data → truthy_cell v = false) →
  outbox (runJobSearch fetchSingleRSS today formatDate generateUniqueID wb).2
    = outbox (services wb) ∧
  ((runJobSearch fetchSingleRSS today formatDate generateUniqueID wb).1 = Ok () →
   getActiveSources (SourcesTab wb) = Ok []).
Proof.
  intros Htab Hblank.
  destruct (run_stops wb)
    as [(e & -> & _)|[[-> Hs]|(c & sources & filters & Hc & Hs & Hf & Hne)]]; [done..|].
  rewrite (run_stages _ _ _ _ wb c sources filters Hc Hs Hf Hne).
  unfold readConfig in Hc. rewrite Htab in Hc. destruct (negb _); [done|].
  destruct (processJobs _ _ _ _) as [processed|e]; [|done].
  destruct (appendJobs processed (Some c) (services wb)) as [[n|e] w1] eqn:Happ.
  - rewrite (sendJobDigest_cover_letter formatDate data c w1 Hc Hblank). simpl.
    apply appendJobs_rows in Happ as (rows & new & _ & _ & _ & _ & _ & Hout & _).
    by split.
  - apply appendJobs_throw_unchanged in Happ as ->. by split.
Qed.

Lemma runJobSearch_never_mails_without_coverLetterDocId_witness :
  outbox (sampleRun (sampleWorkbook readmeConfigTab)).2 = [] ∧
  length (default [] (JobsTab (sampleRun (sampleWorkbook readmeConfigTab)).2)) = 1%nat ∧
  ((sampleRun (sampleWorkbook readmeConfigTab)).1 = Ok () →
   getActiveSources (Some sampleSourcesTab) = Ok []).
Proof.
  split; [|split; [by vm_compute|]];
    apply (runJobSearch_never_mails_without_coverLetterDocId _ _ _ _
             (sampleWorkbook readmeConfigTab) readmeConfigTab eq_refl);
    intros v Hv; unfold readmeConfigTab in Hv;
    repeat (apply elem_of_cons in Hv as [Hv|Hv];
            [first [discriminate Hv | by injection Hv as ->]|]);
    by apply elem_of_nil in Hv.
Defined.

(** The rows before and after a run. *)
Lemma run_rows
    (fetchSingleRSS : string → string → string → Result (list Job)) (today : string)
    (formatDate : option string → string) (generateUniqueID : nat → string)
    (wb : Workbook) :
  SHEET_ID (runJobSearch fetchSingleRSS today formatDate generateUniqueID wb).2
    = SHEET_ID (services wb) ∧
  (JobsTab (services wb) = None →
   JobsTab (runJobSearch fetchSingleRSS today formatDate generateUniqueID wb).2 = None) ∧
  ∀ rows, JobsTab (services wb) = Some rows →
    ∃ kept new,
      JobsTab (runJobSearch fetchSingleRSS today formatDate generateUniqueID wb).2
        = Some (kept ++ new) ∧
      Forall2 sameListing rows kept.
Proof.
  assert (∀ w : World,
            (JobsTab w = None → JobsTab w = None) ∧
            ∀ rows, JobsTab w = Some rows →
              ∃ kept new, JobsTab w = Some (kept ++ new) ∧ Forall2 sameListing rows kept)
    as Hsame.
  { intros w. split; [done|]. intros rows Hrows. exists rows, [].
    rewrite app_nil_r. split; [done | apply sameListing_refl]. }
  destruct (run_stops wb)
    as [(e & -> & _)|[[-> _]|(c & sources & filters & Hc & Hs & Hf & Hne)]];
    [by split; [|apply Hsame].. |].
  rewrite (run_stages _ _ _ _ wb c sources filters Hc Hs Hf Hne).
  destruct (processJobs _ _ _ _) as [processed|e]; [|by split; [|apply Hsame]].
  destruct (appendJobs processed (Some c) (services wb)) as [[n|e] w1] eqn:Happ.
  - apply appendJobs_rows in Happ as (rows & new & Htab & Htab1 & _ & Hid & _).
    destruct (sendJobDigest formatDate (Some c) w1) as [r w2] eqn:Hsend.
    apply sendJobDigest_rows in Hsend as (Hid2 & _ & Hrows2).
    assert (SHEET_ID w2 = SHEET_ID (services wb) ∧
            (JobsTab (services wb) = None → JobsTab w2 = None) ∧
            ∀ rows0, JobsTab (services wb) = Some rows0 →
              ∃ kept new0, JobsTab w2 = Some (kept ++ new0) ∧ Forall2 sameListing rows0 kept)
      as Hgoal; [|by destruct r].
    split; [congruence|]. split; [by rewrite Htab|].
    intros rows0 Hrows0. rewrite Htab in Hrows0. injection Hrows0 as <-.
    destruct Hrows2 as [->|(rows1 & selected & day & Hrows1 & ->)].
    + exists rows, new. split; [done | apply sameListing_refl].
    + rewrite Htab1 in Hrows1. injection Hrows1 as <-.
      exists (markNotified selected day <$> rows), (markNotified selected day <$> new).
      rewrite fmap_app. split; [done|].
      apply Forall2_fmap_r, Forall_Forall2_diag, Forall_forall.
      intros row _. apply markNotified_sameListing.
  - apply appendJobs_throw_unchanged in Happ as ->. by split; [|apply Hsame].
Qed.

(** X22. No run deletes or rewrites a listing. Whatever the run does and
    however it ends, the rows the Jobs tab held are still there, in place
    and the same but for the status and the day of notification, and what
    is new comes after them; a workbook without a Jobs tab still has none. *)
Theorem runJobSearch_keeps_listings
    (fetchSingleRSS : string → string → string → Result (list Job)) (today : string)
    (formatDate : option string → string) (generateUniqueID : nat → string)
    (wb : Workbook) :
  SHEET_ID (runJobSearch fetchSingleRSS today formatDate generateUniqueID wb).2
    = SHEET_ID (services wb) ∧
  (JobsTab (services wb) = None →
   JobsTab (runJobSearch fetchSingleRSS today formatDate generateUniqueID wb).2 = None) ∧
  ∀ rows, JobsTab (services wb) = Some rows →
    ∃ kept new,
      JobsTab (runJobSearch fetchSingleRSS today formatDate generateUniqueID wb).2
        = Some (kept ++ new) ∧
      Forall2 sameListing rows kept.
Proof. apply run_rows. Qed.

(** ** Running again *)

Section RunningAgain.

Lemma afterRun_same (wb : Workbook) : afterRun wb (services wb) = wb.
Proof. by destruct wb. Qed.

Lemma getExistingLinks_links (rows rows' : list Job) :
  Link <$> rows = Link <$> rows' → getExistingLinks rows = getExistingLinks rows'.
Proof.
  unfold getExistingLinks. intros Hl. destruct rows, rows'; try done. by rewrite Hl.
Qed.

Lemma markNotified_links (selected : list Job) (day : string) (rows : list Job) :
  Link <$> (markNotified selected day <$> rows) = Link <$> rows.
Proof.
  rewrite <- list_fmap_compose. apply list_fmap_ext. intros _ row _. simpl.
  unfold markNotified. by destruct (existsb _ selected).
Qed.

(** Whether [appendJobs] finds something to append depends on the tab
    through its links only. *)
Lemma appendJobs_nothing_by_links (batch : list Job) (config : option Config)
    (w w' : World) (rows rows' : list Job) :
  SHEET_ID w' = SHEET_ID w → JobsTab w = Some rows → JobsTab w' = Some rows' →
  Link <$> rows' = Link <$> rows →
  appendJobs batch config w = (Ok 0%nat, w) → appendJobs batch config w' = (Ok 0%nat, w').
Proof.
  intros Hid Htab Htab' Hlinks. unfold appendJobs, openJobsSheet.
  destruct config as [c|]; [|done].
  destruct (_ || _); [done|]. destruct (negb (bool_decide _)); [done|].
  rewrite Hid, Htab, Htab'. destruct (negb (Js.truthy (SHEET_ID w))); [done|].
  rewrite (getExistingLinks_links rows' rows Hlinks).
  destruct (jobsToAppend _) as [|r new]; [done|]. simpl. by intros [= Hn _].
Qed.

End RunningAgain.

(** X25. A second run appends nothing. When the links of the jobs the
    active feeds give all contain http, a run on the workbook a first run
    has left, with the same feeds on the same day, adds no row to the Jobs
    tab: the rows after the second run are the rows after the first, the
    same but for the status and the day of notification, whether or not
    the first run sent its digest. *)
Theorem runJobSearch_again_appends_nothing
    (fetchSingleRSS : string → string → string → Result (list Job)) (today : string)
    (formatDate formatDate' : option string → string) (generateUniqueID : nat → string)
    (wb : Workbook) (r1 r2 : Result unit) (w1 w2 : World) (rows1 : list Job) :
  (∀ sources job,
     getActiveSources (SourcesTab wb) = Ok sources →
     job ∈ concat (fetched fetchSingleRSS today <$> sources) →
     isExistingLink (Link job) = true) →
  runJobSearch fetchSingleRSS today formatDate generateUniqueID wb = (r1, w1) →
  runJobSearch fetchSingleRSS today formatDate' generateUniqueID (afterRun wb w1) = (r2, w2) →
  JobsTab w1 = Some rows1 →
  ∃ rows2, JobsTab w2 = Some rows2 ∧ Forall2 sameListing rows1 rows2.
Proof.
  intros Hhttp Hrun1 Hrun2 Hrows1.
  assert (∀ w, w1 = services wb → w2 = w → w = services wb →
               ∃ rows2, JobsTab w2 = Some rows2 ∧ Forall2 sameListing rows1 rows2) as Hsame.
  { intros w -> -> ->. exists rows1. split; [done | apply sameListing_refl]. }
  destruct (run_stops wb)
    as [(e & Hr & _)|[[Hr _]|(c & sources & filters & Hc & Hs & Hf & Hne)]].
  - rewrite Hr in Hrun1. injection Hrun1 as _ <-. rewrite afterRun_same, Hr in Hrun2.
    injection Hrun2 as _ <-. by apply (Hsame (services wb)).
  - rewrite Hr in Hrun1. injection Hrun1 as _ <-. rewrite afterRun_same, Hr in Hrun2.
    injection Hrun2 as _ <-. by apply (Hsame (services wb)).
  - rewrite (run_stages _ _ _ _ wb c sources filters Hc Hs Hf Hne) in Hrun1.
    destruct (processJobs _ _ _ _) as [processed|e] eqn:Hproc.
    2: { injection Hrun1 as _ <-.
         rewrite afterRun_same, (run_stages _ _ _ _ wb c sources filters Hc Hs Hf Hne), Hproc
           in Hrun2.
         injection Hrun2 as _ <-. by apply (Hsame (services wb)). }
    destruct (appendJobs processed (Some c) (services wb)) as [[n|e] wa] eqn:Happ.
    2: { injection Hrun1 as _ <-. apply appendJobs_throw_unchanged in Happ as Hwa. subst wa.
         rewrite afterRun_same, (run_stages _ _ _ _ wb c sources filters Hc Hs Hf Hne),
           Hproc, Happ in Hrun2.
         injection Hrun2 as _ <-. by apply (Hsame (services wb)). }
    destruct (sendJobDigest formatDate (Some c) wa) as [r wd] eqn:Hsend.
    assert (w1 = wd) as -> by (by destruct r; injection Hrun1). clear Hrun1.
    (* the links of the batch contain http *)
    assert (∀ job, job ∈ processed → missingFields job = false →
                   isExistingLink (Link job) = true) as Hbatch.
    { intros p Hp _.
      destruct (processJobs_ok_config _ _ _ _ _ Hproc) as (c' & [= <-] & Hm & Hd).
      destruct (processJobs_run generateUniqueID
                  (concat (fetched fetchSingleRSS today <$> sources)) filters c Hm Hd)
        as (out & Hout & Hfrom & _).
      rewrite Hproc in Hout. injection Hout as <-.
      destruct (Hfrom p Hp) as (j & Hj & _ & _ & _ & Hl & _). rewrite Hl.
      by apply (Hhttp sources j). }
    pose proof (appendJobs_twice_http processed c (services wb) wa n Hbatch Happ) as Hagain.
    apply appendJobs_rows in Happ as (rows & new & Htab & Htaba & _ & Hida & _).
    apply sendJobDigest_rows in Hsend as (Hidd & _ & Hcase).
    assert (Link <$> rows1 = Link <$> (rows ++ new)) as Hlinks.
    { destruct Hcase as [Hcase|(rowsa & selected & day & Hrowsa & Hcase)].
      - congruence.
      - rewrite Htaba in Hrowsa. injection Hrowsa as <-. rewrite Hrows1 in Hcase.
        injection Hcase as ->. apply markNotified_links. }
    pose proof (appendJobs_nothing_by_links processed (Some c) wa wd (rows ++ new) rows1
                  Hidd Htaba Hrows1 Hlinks Hagain) as Hnothing.
    assert (readConfig (afterRun wb wd) = Ok c) as Hc'.
    { unfold readConfig in *. simpl. by rewrite Hidd, Hida. }
    rewrite (run_stages _ _ _ _ (afterRun wb wd) c sources filters Hc' Hs Hf Hne) in Hrun2.
    change (services (afterRun wb wd)) with wd in Hrun2. rewrite Hproc, Hnothing in Hrun2.
    destruct (sendJobDigest formatDate' (Some c) wd) as [r' wd'] eqn:Hsend2.
    assert (w2 = wd') as -> by (by destruct r'; injection Hrun2).
    apply sendJobDigest_rows in Hsend2 as (_ & _ & Hcase2).
    destruct Hcase2 as [Hcase2|(rows' & selected & day & Hrows' & Hcase2)].
    + exists rows1. split; [congruence | apply sameListing_refl].
    + rewrite Hrows1 in Hrows'. injection Hrows' as <-. eexists. split; [done|].
      apply Forall2_fmap_r, Forall_Forall2_diag, Forall_forall.
      intros row _. apply markNotified_sameListing.
Qed.

Lemma runJobSearch_again_appends_nothing_witness :
  ∃ w1 w2 rows1,
    sampleRun (sampleWorkbook fullConfigTab) = (Ok (), w1) ∧
    sampleRun (afterRun (sampleWorkbook fullConfigTab) w1) = (Ok (), w2) ∧
    JobsTab w1 = Some rows1 ∧
    Status <$> rows1 = [Some "Notified"] ∧ length (outbox w1) = 1%nat ∧
    ∃ rows2, JobsTab w2 = Some rows2 ∧ Forall2 sameListing rows1 rows2.
Proof.
  eexists _, _, _. split; [by vm_compute|]. split; [by vm_compute|].
  split; [by vm_compute|]. split; [by vm_compute|]. split; [by vm_compute|].
  eapply (runJobSearch_again_appends_nothing
            (fetchSingleRSS sampleFetch sampleParse sampleIDs) "2025-09-13" digestDay digestDay
            mockIDs (sampleWorkbook fullConfigTab)).
  - intros sources job [= <-] Hjob. apply list_elem_of_In in Hjob. vm_compute in Hjob.
    by destruct Hjob as [<-|[<-|[]]].
  - by vm_compute.
  - by vm_compute.
  - by vm_compute.
Defined.

(** ** Sources in batches *)

Section Batches.

Variable today : string.

Lemma sameFeed_fetched (f g : string → string → string → Result (list Job))
    (source : SourceRow) :
  (∀ url name, sameFeed (f url name today) (g url name today)) →
  eraseID <$> fetched f today source = eraseID <$> fetched g today source.
Proof.
  intros Hfg. unfold fetched. destruct (_ && _); [|done].
  specialize (Hfg (Js.template (URL source)) (Js.template (SourceName source))).
  by destruct (f _ _ today), (g _ _ today).
Qed.

Lemma sameFeed_fetched_all (f g : string → string → string → Result (list Job))
    (sources : list SourceRow) :
  (∀ url name, sameFeed (f url name today) (g url name today)) →
  eraseID <$> concat (fetched f today <$> sources)
  = eraseID <$> concat (fetched g today <$> sources).
Proof.
  intros Hfg. induction sources as [|s sources IH]; [done|].
  rewrite !fmap_cons. simpl. rewrite !fmap_app, IH. f_equal. by apply sameFeed_fetched.
Qed.

Lemma scrapeJobs_batches (f1 f2 f : string → string → string → Result (list Job))
    (batch1 batch2 : list SourceRow) :
  batch1 ≠ [] → batch2 ≠ [] →
  (∀ url name, sameFeed (f1 url name today) (f url name today)) →
  (∀ url name, sameFeed (f2 url name today) (f url name today)) →
  ∃ jobs1 jobs2 jobs,
    scrapeJobs f1 today batch1 = Ok jobs1 ∧
    scrapeJobs f2 today batch2 = Ok jobs2 ∧
    scrapeJobs f today (batch1 ++ batch2) = Ok jobs ∧
    eraseID <$> jobs = eraseID <$> (jobs1 ++ jobs2).
Proof.
  intros H1 H2 Hf1 Hf2. eexists _, _, _.
  split; [by apply scrapeJobs_fetched|]. split; [by apply scrapeJobs_fetched|].
  split; [apply scrapeJobs_fetched; by destruct batch1|].
  rewrite !fmap_app, concat_app, fmap_app.
  by rewrite (sameFeed_fetched_all f1 f), (sameFeed_fetched_all f2 f).
Qed.

End Batches.

(** X26. Scraping in batches gives what scraping at once gives,
    identifiers apart. Take a run on a batch of sources, a run on a second
    batch and a run on the two put end to end, neither batch empty, in
    which every feed answers the same: it fails in each run, or gives the
    same jobs but for their identifiers, which come from a counter that
    differs from run to run. Then [scrapeJobs] returns in the three runs,
    and the jobs of the whole are, identifiers apart, the jobs of the first
    batch followed by those of the second. *)
Theorem scrapeJobs_in_batches
    (fetch1 fetch2 fetch : string → string → string → Result (list Job)) (today : string)
    (batch1 batch2 : list SourceRow) :
  batch1 ≠ [] → batch2 ≠ [] →
  (∀ url name, sameFeed (fetch1 url name today) (fetch url name today)) →
  (∀ url name, sameFeed (fetch2 url name today) (fetch url name today)) →
  ∃ jobs1 jobs2 jobs,
    scrapeJobs fetch1 today batch1 = Ok jobs1 ∧
    scrapeJobs fetch2 today batch2 = Ok jobs2 ∧
    scrapeJobs fetch today (batch1 ++ batch2) = Ok jobs ∧
    eraseID <$> jobs = eraseID <$> (jobs1 ++ jobs2).
Proof. apply scrapeJobs_batches. Qed.

Lemma scrapeJobs_in_batches_witness :
  ∃ jobs1 jobs2 jobs,
    scrapeJobs mockFetch "2025-09-13" (take 2 mockSources) = Ok jobs1 ∧
    scrapeJobs mockFetch "2025-09-13" (drop 2 mockSources) = Ok jobs2 ∧
    scrapeJobs laterFetch "2025-09-13" (take 2 mockSources ++ drop 2 mockSources) = Ok jobs ∧
    eraseID <$> jobs = eraseID <$> (jobs1 ++ jobs2).
Proof.
  assert (∀ url name, sameFeed (mockFetch url name "2025-09-13")
                               (laterFetch url name "2025-09-13")) as Hsame.
  { intros url name. unfold laterFetch, mockFetch.
    destruct (String.eqb url _); [done|]. by destruct (String.eqb url _). }
  by apply scrapeJobs_in_batches.
Defined.

(** ** Identifiers through the pipeline *)

Section IdentifiersKept.

Variable generateUniqueID : nat → string.
Variable filters : list Filter.
Variable config : Config.

(** A listing that has an identifier keeps it, and the generator is not
    asked. *)
Lemma process_step_keeps_ID (other : nat → string) (st : ProcState) (job : Job) :
  (validRaw job = true → Js.truthy (ID job) = true) →
  process_step other filters config st job = process_step generateUniqueID filters config st job
  ∧ ∀ st', process_step generateUniqueID filters config st job = Ok st' →
           processedJobs st' = processedJobs st
           ∨ ∃ p, processedJobs st' = processedJobs st ++ [p] ∧
                  ID p = ID job ∧ Link p = Link job.
Proof.
  intros Hid. unfold process_step, validRaw in *.
  destruct (Js.truthy (Title job)), (Js.truthy (Link job)), (Js.truthy (Source job)); simpl;
    try (split; [done | intros st' [= <-]; by left]).
  rewrite Hid by done. simpl.
  destruct (bool_decide (dedupeBy config = Some "link")
            && bool_decide (Link job ∈ seenLinks st)).
  { split; [done|]. intros st' Heq. injection Heq as <-. by left. }
  destruct (for_of _ filters _) as [r|e]; simpl; [|done].
  split; [done|]. intros st' Heq. injection Heq as <-. right. by eexists.
Qed.

Lemma process_loop_keeps_ID (jobs : list Job) (st st' : ProcState) :
  (∀ job, job ∈ jobs → validRaw job = true → Js.truthy (ID job) = true) →
  for_of (process_step generateUniqueID filters config) jobs st = Ok st' →
  ∃ new, processedJobs st' = processedJobs st ++ new ∧
         ∀ p, p ∈ new → ∃ j, j ∈ jobs ∧ ID p = ID j ∧ Link p = Link j.
Proof.
  revert st. induction jobs as [|job jobs IH]; intros st Hid.
  - intros [= <-]. exists []. rewrite app_nil_r. split; [done|].
    intros p Hp. by apply elem_of_nil in Hp.
  - rewrite for_of_cons.
    destruct (process_step generateUniqueID filters config st job) as [mid|e] eqn:Hstep;
      [|done].
    simpl. intros Hrest.
    assert (∀ j, j ∈ jobs → validRaw j = true → Js.truthy (ID j) = true) as Hid'
      by (intros j Hj; apply Hid; by right).
    destruct (IH mid Hid' Hrest) as (new & Hnew & Hfrom).
    assert (validRaw job = true → Js.truthy (ID job) = true) as Hjob
      by (apply Hid; by left).
    destruct (process_step_keeps_ID generateUniqueID st job Hjob) as [_ Hcases].
    destruct (Hcases mid Hstep) as [Hmid|(p & Hmid & Hp & Hl)]; rewrite Hmid in Hnew.
    + exists new. split; [done|]. intros q Hq. destruct (Hfrom q Hq) as (j & Hj & Hq').
      exists j. split; [by right | done].
    + exists (p :: new). rewrite <- app_assoc in Hnew. split; [done|].
      intros q [->|Hq]%elem_of_cons.
      * exists job. split; [by left | done].
      * destruct (Hfrom q Hq) as (j & Hj & Hq'). exists j. split; [by right | done].
Qed.

End IdentifiersKept.

(** X28. [processJobs] never replaces an identifier: when every valid
    listing of the batch has one, as the listings the scraper makes do, the
    result does not depend on the fallback generator, which is not asked,
    and every entry of the output carries the identifier and the link of a
    listing of the batch. *)
Theorem processJobs_keeps_identifiers (generateUniqueID : nat → string)
    (rawJobs : list Job) (filters : list Filter) (config : option Config) :
  (∀ job, job ∈ rawJobs → validRaw job = true → Js.truthy (ID job) = true) →
  (∀ other : nat → string,
     processJobs other rawJobs filters config
       = processJobs generateUniqueID rawJobs filters config) ∧
  ∀ out, processJobs generateUniqueID rawJobs filters config = Ok out →
         ∀ p, p ∈ out → ∃ j, j ∈ rawJobs ∧ ID p = ID j ∧ Link p = Link j.
Proof.
  intros Hid. split.
  - intros other. unfold processJobs. destruct config as [c|]; [|done].
    destruct (_ || _); [done|].
    rewrite (for_of_ext (process_step other filters c)
                        (process_step generateUniqueID filters c)); [done|].
    intros st job Hjob. by apply process_step_keeps_ID, Hid.
  - intros out. unfold processJobs. destruct config as [c|]; [|done].
    destruct (_ || _); [done|].
    destruct (for_of _ rawJobs _) as [st'|e] eqn:Hloop; [|done]. simpl. intros [= <-].
    destruct (process_loop_keeps_ID generateUniqueID filters c rawJobs _ st' Hid Hloop)
      as (new & Hnew & Hfrom).
    simpl in Hnew. by rewrite Hnew.
Qed.

Lemma processJobs_keeps_identifiers_witness :
  (∀ other : nat → string,
     processJobs other mockJobs mockFilters (Some mockConfig)
       = processJobs mockIDs mockJobs mockFilters (Some mockConfig)) ∧
  ID <$> mockBatch = [Some "INFO-001"; Some "INFO-002"].
Proof.
  split; [|by vm_compute].
  apply (processJobs_keeps_identifiers mockIDs mockJobs mockFilters (Some mockConfig)).
  intros job Hjob _. apply list_elem_of_In in Hjob. vm_compute in Hjob.
  by destruct Hjob as [<-|[<-|[<-|[]]]].
Defined.

(** ** The rows a digest marks *)

Section MarkedRows.

Variable formatDate : option string → string.

Lemma eligibleJobs_NoDup (config : Config) (rows : list Job) :
  NoDup rows → NoDup (eligibleJobs config rows).
Proof.
  intros Hnd. destruct (eligibleJobs_prefix config rows) as [rest Hrest].
  assert (NoDup (sort byScoreDesc (List.filter (eligible config) rows))) as Hsorted.
  { rewrite (sort_perm (λ job, cellNumber (Score job))).
    by apply NoDup_ListNoDup, List.NoDup_filter, NoDup_ListNoDup. }
  rewrite Hrest in Hsorted. by apply NoDup_app in Hsorted as [? _].
Qed.

(** With identifiers that are unique in the tab, the row with the
    identifier of a selected row is that row. *)
Lemma sameID_selected (config : Config) (rows : list Job) (row : Job) :
  NoDup (ID <$> rows) → row ∈ rows →
  existsb (λ job, bool_decide (ID job = ID row)) (eligibleJobs config rows) = true
  ↔ row ∈ eligibleJobs config rows.
Proof.
  intros Hnd Hrow. rewrite sameID_elem. split.
  - intros (job & Hjob & Hid). pose proof (eligibleJobs_elem config rows job Hjob) as [Hin _].
    by rewrite <- (NoDup_fmap_inj ID rows job row Hnd Hin Hrow Hid).
  - intros Hsel. by exists row.
Qed.

End MarkedRows.

(** X29. With identifiers that are unique in the Jobs tab, the digest marks
    the rows it mails and no others: [updateNotifiedJobs] on the selection
    of [sendJobDigest] counts as many updated rows as the selection has,
    writes Notified and the day into each selected row and leaves every
    other row as it is. *)
Theorem updateNotifiedJobs_marks_the_selection (formatDate : option string → string)
    (config : Config) (rows : list Job) :
  NoDup (ID <$> rows) →
  (updateNotifiedJobs formatDate rows (eligibleJobs config rows) (dateFormat config)).1
    = length (eligibleJobs config rows) ∧
  (updateNotifiedJobs formatDate rows (eligibleJobs config rows) (dateFormat config)).2
    = (λ row, if bool_decide (row ∈ eligibleJobs config rows)
              then notified (formatDate (dateFormat config)) row else row) <$> rows.
Proof.
  intros Hnd. unfold updateNotifiedJobs. cbn [fst snd]. split.
  - apply Permutation_length, NoDup_Permutation.
    + apply NoDup_ListNoDup, List.NoDup_filter, NoDup_ListNoDup. by apply NoDup_fmap_1 in Hnd.
    + apply eligibleJobs_NoDup. by apply NoDup_fmap_1 in Hnd.
    + intros row. rewrite (list_elem_of_In (List.filter _ _)), filter_In, <- list_elem_of_In.
      split.
      * intros [Hrow Hsame]. by apply (sameID_selected config rows row Hnd Hrow).
      * intros Hsel. pose proof (eligibleJobs_elem config rows row Hsel) as [Hrow _].
        split; [done|]. by apply (sameID_selected config rows row Hnd Hrow).
  - apply list_fmap_ext. intros _ row Hrow%list_elem_of_lookup_2.
    unfold markNotified.
    destruct (decide (row ∈ eligibleJobs config rows)) as [Hsel|Hsel].
    + rewrite bool_decide_eq_true_2 by done.
      by rewrite (proj2 (sameID_selected config rows row Hnd Hrow) Hsel).
    + rewrite bool_decide_eq_false_2 by done.
      destruct (existsb _ _) eqn:Hsame; [|done].
      by apply (sameID_selected config rows row Hnd Hrow) in Hsame.
Qed.

Lemma updateNotifiedJobs_marks_the_selection_witness :
  (updateNotifiedJobs digestDay digestRows (eligibleJobs digestConfig digestRows)
                      (dateFormat digestConfig)).1 = 2%nat ∧
  Status <$> (updateNotifiedJobs digestDay digestRows (eligibleJobs digestConfig digestRows)
                                 (dateFormat digestConfig)).2
    = [Some "Notified"; Some "Notified"; Some "New"; Some "New"; Some "New"; Some "Ignore"].
Proof.
  assert (NoDup (ID <$> digestRows)) as Hnd
    by (apply (bool_decide_unpack (NoDup (ID <$> digestRows))); by vm_compute).
  pose proof (updateNotifiedJobs_marks_the_selection digestDay digestConfig digestRows Hnd)
    as [Hcount Hrows].
  split; [by rewrite Hcount | by vm_compute].
Defined.

(** ** The mail of a digest *)

Section MailTable.

Lemma table_loop (jobs : list Job) (table : list TableRow) :
  fold_left table_step jobs table = table ++ (tableRow <$> List.filter shown jobs).
Proof.
  revert table. induction jobs as [|job jobs IH]; intros table; simpl.
  - by rewrite app_nil_r.
  - rewrite IH. unfold table_step, shown.
    destruct (Js.truthy (Title job)), (Js.truthy (Link job)); simpl;
      by rewrite <- ?app_assoc.
Qed.

(** The table has a row for each job with a title and a link, in order. *)
Lemma buildHtmlTable_rows (jobs : list Job) :
  jobs ≠ [] → buildHtmlTable jobs = Ok (tableRow <$> List.filter shown jobs).
Proof. destruct jobs; [done|]. intros _. unfold buildHtmlTable. by rewrite table_loop. Qed.

Lemma missingFields_shown (job : Job) : missingFields job = false → shown job = true.
Proof.
  unfold missingFields, shown.
  destruct (Js.truthy (ID job)), (Js.truthy (DateFound job)), (Js.truthy (Title job)),
    (Js.truthy (Link job)); simpl; done.
Qed.

Lemma filter_all (P : Job → bool) (jobs : list Job) :
  Forall (λ job, P job = true) jobs → List.filter P jobs = jobs.
Proof.
  induction 1 as [|job jobs Hj _ IH]; [done|]. simpl. by rewrite Hj, IH.
Qed.

Lemma sendJobDigest_mail (formatDate : option string → string)
    (config : Config) (w w' : World) (r : Result nat) :
  sendJobDigest formatDate (Some config) w = (r, w') →
  outbox w' = outbox w
  ∨ ∃ mail rows,
      outbox w' = outbox w ++ [mail] ∧
      recipient mail = Js.template (emailRecipient config) ∧
      JobsTab w = Some rows ∧
      digest mail = eligibleJobs config rows ∧
      digest mail ≠ [] ∧
      r = Ok (length (digest mail)).
Proof.
  unfold sendJobDigest, sendEmail.
  destruct (_ || _); [intros [= _ <-]; by left|].
  destruct (openJobsSheet w) as [[|job jobs]|e] eqn:Hopen; try (intros [= _ <-]; by left).
  apply openJobsSheet_ok in Hopen as [_ Htab].
  destruct (eligibleJobs config (job :: jobs)) as [|sel sels] eqn:Hsel;
    [intros [= _ <-]; by left|].
  destruct (gmailFailure w); [intros [= _ <-]; by left|].
  intros [= <- <-]. right.
  exists {| recipient := Js.template (emailRecipient config); digest := sel :: sels |},
         (job :: jobs).
  simpl. by rewrite Hsel.
Qed.

End MailTable.

(** X30. [sendJobDigest] sends one mail at most, to the configured
    recipient and about its selection, which is never empty: the eligible
    rows of the Jobs tab, best score first, [topN] at most. The count it
    returns is the size of the selection. The table of the mail, though,
    has a row only for the selected jobs that have a title and a link, in
    the order of the selection: it can have fewer rows than the count, and
    none. Rows that have the fields [appendJobs] asks for all show. *)
Theorem sendJobDigest_mail_table (formatDate : option string → string)
    (config : Config) (w w' : World) (r : Result nat) :
  sendJobDigest formatDate (Some config) w = (r, w') →
  outbox w' = outbox w
  ∨ ∃ mail rows,
      outbox w' = outbox w ++ [mail] ∧
      recipient mail = Js.template (emailRecipient config) ∧
      JobsTab w = Some rows ∧
      digest mail = eligibleJobs config rows ∧
      digest mail ≠ [] ∧
      r = Ok (length (digest mail)) ∧
      buildHtmlTable (digest mail) = Ok (tableRow <$> List.filter shown (digest mail)) ∧
      (length (List.filter shown (digest mail)) ≤ length (digest mail))%nat ∧
      (Forall (λ job, missingFields job = false) (digest mail) →
       buildHtmlTable (digest mail) = Ok (tableRow <$> digest mail)).
Proof.
  intros [Hsame|(mail & rows & Hout & Hto & Htab & Hsel & Hne & Hr)]%sendJobDigest_mail;
    [by left|].
  right. exists mail, rows. do 6 (split; [done|]).
  split; [by apply buildHtmlTable_rows|]. split; [apply List.filter_length_le|].
  intros Hall. rewrite buildHtmlTable_rows by done. do 2 f_equal.
  apply filter_all. eapply Forall_impl; [exact Hall|]. apply missingFields_shown.
Qed.

Lemma sendJobDigest_mail_table_witness :
  ∃ mail table,
    outbox (sendJobDigest digestDay (Some digestConfig) blankTitleWorld).2 = [mail] ∧
    (sendJobDigest digestDay (Some digestConfig) blankTitleWorld).1 = Ok 2%nat ∧
    buildHtmlTable (digest mail) = Ok table ∧
    role <$> table = ["Job A"].
Proof.
  destruct (sendJobDigest_mail_table digestDay digestConfig blankTitleWorld
              (sendJobDigest digestDay (Some digestConfig) blankTitleWorld).2
              (sendJobDigest digestDay (Some digestConfig) blankTitleWorld).1)
    as [Hsame|(mail & rows & Hout & _ & [= <-] & Hsel & _ & Hr & Htable & _)].
  - by destruct (sendJobDigest digestDay (Some digestConfig) blankTitleWorld).
  - by vm_compute in Hsame.
  - exists mail, (tableRow <$> List.filter shown (digest mail)).
    split; [exact Hout|]. split; [by rewrite Hr, Hsel|]. split; [exact Htable|].
    rewrite Hsel. by vm_compute.
Defined.

(** ** Identifiers *)

Section Identifiers.

Lemma digit_of_pretty_char (d : N) :
  (d < 10)%N → digit_of (pretty_N_char d) = Some (Z.of_N d).
Proof.
  intros Hd.
  assert (d = 0 ∨ d = 1 ∨ d = 2 ∨ d = 3 ∨ d = 4 ∨ d = 5 ∨ d = 6 ∨ d = 7 ∨ d = 8 ∨ d = 9)%N
    as Hcases by lia.
  repeat (destruct Hcases as [->|Hcases]; [done|]). by subst.
Qed.

Lemma digitsPrefix_pretty_go (x : N) (s : string) :
  (0 < x)%N →
  Utils.digitsPrefix (pretty_N_go x s) None = Utils.digitsPrefix s (Some (Z.of_N x)).
Proof.
  revert s. induction (N.lt_wf_0 x) as [x _ IH]. intros s Hx.
  rewrite pretty_N_go_step by done.
  assert (x `mod` 10 < 10)%N as Hmod by (by apply N.mod_lt).
  pose proof (N.div_mod x 10 ltac:(done)) as Hdiv.
  destruct (decide (x `div` 10 = 0)%N) as [Hz|Hnz].
  - rewrite Hz, pretty_N_go_0. simpl. rewrite digit_of_pretty_char by done. simpl.
    do 2 f_equal. lia.
  - rewrite IH; [|apply N.div_lt; lia|lia]. simpl.
    rewrite digit_of_pretty_char by done. simpl. do 2 f_equal. lia.
Qed.

Lemma startsDigit_pretty_go (x : N) (s : string) :
  (0 < x)%N → startsDigit (pretty_N_go x s).
Proof.
  revert s. induction (N.lt_wf_0 x) as [x _ IH]. intros s Hx.
  rewrite pretty_N_go_step by done.
  destruct (decide (x `div` 10 = 0)%N) as [Hz|Hnz].
  - rewrite Hz, pretty_N_go_0. simpl. rewrite digit_of_pretty_char; [done|].
    by apply N.mod_lt.
  - apply IH; [apply N.div_lt; lia | by apply N.neq_0_lt_0].
Qed.

Lemma startsDigit_pretty (c : Z) : 0 ≤ c → startsDigit (pretty c).
Proof.
  destruct c as [|p|p]; [by eexists | | lia]. intros _.
  unfold pretty, pretty_Z, pretty, pretty_positive, pretty, pretty_N.
  rewrite decide_False by done. by apply startsDigit_pretty_go.
Qed.

Lemma digitsPrefix_pretty (c : Z) : 0 ≤ c → Utils.digitsPrefix (pretty c) None = Some c.
Proof.
  destruct c as [|p|p]; [done | | lia]. intros _.
  unfold pretty, pretty_Z, pretty, pretty_positive, pretty, pretty_N.
  rewrite decide_False by done. by rewrite digitsPrefix_pretty_go.
Qed.

(** On a numeral [parseInt] has no white space and no sign to skip. *)
Lemma parseInt_startsDigit (s : string) :
  startsDigit s → Utils.parseInt s = Utils.digitsPrefix s None.
Proof.
  destruct s as [|c s]; [done|]. intros [d Hd]. unfold Utils.parseInt.
  assert (Utils.isSpace c = false ∧ c ≠ "-"%char ∧ c ≠ "+"%char) as (Hs & Hm & Hp).
  { destruct c as [[] [] [] [] [] [] [] []]; by vm_compute in Hd |- *. }
  cbn [Utils.trimStart]. rewrite Hs.
  destruct (Ascii.eqb_spec c "-"); [done|]. destruct (Ascii.eqb_spec c "+"); [done|].
  destruct c as [[] [] [] [] [] [] [] []]; done.
Qed.

Lemma parseInt_pretty (c : Z) : 0 ≤ c → Utils.parseInt (pretty c) = Some c.
Proof.
  intros Hc. rewrite parseInt_startsDigit by (by apply startsDigit_pretty).
  by apply digitsPrefix_pretty.
Qed.

(** Zeros in front do not change the number. *)
Lemma digitsPrefix_zeros (k : nat) (s : string) (acc : option Z) :
  startsDigit s → default 0 acc = 0 →
  Utils.digitsPrefix (Utils.repeatChar k "0" +:+ s) acc = Utils.digitsPrefix s None.
Proof.
  intros Hs. revert acc. induction k as [|k IH]; intros acc Hacc; simpl.
  - destruct s as [|c s]; [done|]. destruct Hs as [d Hd]. simpl. rewrite Hd, Hacc. done.
  - rewrite Hacc. by apply IH.
Qed.

Lemma padStart_value (c : Z) :
  0 ≤ c → Utils.digitsPrefix (Utils.padStart 3 "0" (pretty c)) None = Some c.
Proof.
  intros Hc. unfold Utils.padStart.
  rewrite digitsPrefix_zeros by (by try apply startsDigit_pretty).
  by apply digitsPrefix_pretty.
Qed.

Lemma append_inj (p x y : string) : p +:+ x = p +:+ y → x = y.
Proof. induction p as [|c p IH]; simpl; [done|]. intros [= H]. by apply IH. Qed.

Lemma idOf_inj (type : option string) (a b : Z) :
  0 ≤ a → 0 ≤ b → idOf type a = idOf type b → a = b.
Proof.
  intros Ha Hb Hid. unfold idOf in Hid. do 2 apply append_inj in Hid.
  apply (f_equal (λ s, Utils.digitsPrefix s None)) in Hid.
  rewrite !padStart_value in Hid by done. by injection Hid.
Qed.

Lemma pretty_not_blank (c : Z) : 0 ≤ c → Js.or_else (Some (pretty c)) "0" = pretty c.
Proof.
  intros Hc. unfold Js.or_else. pose proof (startsDigit_pretty c Hc) as Hs.
  by destruct (pretty c).
Qed.

(** One call on a counter that reads [c]. *)
Lemma generateUniqueID_step (type : option string) (props : gmap string string) (c : Z) :
  counterOf type props = Some c → 0 ≤ c →
  Utils.generateUniqueID type props =
    (idOf type (c + 1), <[ Utils.counterKey type := pretty (c + 1) ]> props) ∧
  counterOf type (<[ Utils.counterKey type := pretty (c + 1) ]> props) = Some (c + 1).
Proof.
  unfold counterOf, Utils.generateUniqueID. intros -> Hc. split; [done|].
  rewrite lookup_insert_eq, pretty_not_blank by lia. apply parseInt_pretty. lia.
Qed.

Lemma generateMany_run (type : option string) (n : nat) (props : gmap string string)
    (c : Z) :
  counterOf type props = Some c → 0 ≤ c →
  (Utils.generateMany type n props).1 = (λ k, idOf type (c + 1 + Z.of_nat k)) <$> seq 0 n ∧
  counterOf type (Utils.generateMany type n props).2 = Some (c + Z.of_nat n) ∧
  ∀ key, key ≠ Utils.counterKey type →
         (Utils.generateMany type n props).2 !! key = props !! key.
Proof.
  revert props c. induction n as [|n IH]; intros props c Hread Hc.
  - simpl. rewrite Z.add_0_r. done.
  - destruct (generateUniqueID_step type props c Hread Hc) as [Hstep Hnext].
    cbn [Utils.generateMany]. rewrite Hstep.
    destruct (IH _ (c + 1) Hnext ltac:(lia)) as (Hids & Hcount & Hother).
    destruct (Utils.generateMany type n _) as [ids props''] eqn:Hmany. simpl in *.
    split; [|split].
    + rewrite Z.add_0_r. f_equal. rewrite Hids, <- fmap_S_seq, <- list_fmap_compose.
      apply list_fmap_ext. intros _ k _. simpl. f_equal. lia.
    + rewrite Hcount. f_equal. lia.
    + intros key Hkey. rewrite Hother by done. by apply lookup_insert_ne.
Qed.

End Identifiers.

(** X23. Identifiers are unique while the counter is a number: when the
    script property of a type reads as a number [c] that is not negative
    (an absent or blank property reads as 0), [n] calls in a row return the
    identifiers of the numbers [c + 1] to [c + n], printed with at least
    three digits after the type in upper case, which are pairwise
    different; afterwards the counter reads [c + n] and no other property
    has changed. The numbers are those a JavaScript number holds exactly. *)
Theorem generateUniqueID_unique (type : option string) (n : nat)
    (props : gmap string string) (c : Z) :
  counterOf type props = Some c → 0 ≤ c → c + Z.of_nat n < 2 ^ 53 →
  (Utils.generateMany type n props).1 = (λ k, idOf type (c + 1 + Z.of_nat k)) <$> seq 0 n ∧
  NoDup (Utils.generateMany type n props).1 ∧
  counterOf type (Utils.generateMany type n props).2 = Some (c + Z.of_nat n) ∧
  ∀ key, key ≠ Utils.counterKey type →
         (Utils.generateMany type n props).2 !! key = props !! key.
Proof.
  intros Hread Hc _.
  destruct (generateMany_run type n props c Hread Hc) as (Hids & Hcount & Hother).
  split; [done|]. split; [|by split].
  rewrite Hids. apply NoDup_fmap_2_strong; [|apply NoDup_seq].
  intros a b _ _ Hab. apply idOf_inj in Hab; lia.
Qed.

Lemma generateUniqueID_unique_witness :
  (Utils.generateMany (Some " info ") 3 {[ "INFO_COUNTER" := "8" ]}).1
    = ["INFO-009"; "INFO-010"; "INFO-011"] ∧
  NoDup (Utils.generateMany (Some " info ") 3 {[ "INFO_COUNTER" := "8" ]}).1 ∧
  counterOf (Some " info ") (Utils.generateMany (Some " info ") 3 {[ "INFO_COUNTER" := "8" ]}).2
    = Some 11.
Proof.
  pose proof (generateUniqueID_unique (Some " info ") 3 {[ "INFO_COUNTER" := "8" ]} 8
                eq_refl ltac:(done) eq_refl) as H.
  split; [by vm_compute|].
  exact (conj (proj1 (proj2 H)) (proj1 (proj2 (proj2 H)))).
Defined.

(** X24. A counter that is not a number stays so: when the script property
    of a type does not begin, after white space and a sign, with a digit,
    every call returns the same identifier, the type followed by NaN, and
    writes NaN back, so that the identifiers of that type are no longer
    unique. *)
Theorem generateUniqueID_not_a_number (type : option string) (n : nat)
    (props : gmap string string) :
  counterOf type props = None →
  (Utils.generateMany type n props).1
    = replicate n (Utils.toUpperCase (Utils.safeType type) +:+ "-NaN") ∧
  counterOf type (Utils.generateMany type n props).2 = None.
Proof.
  revert props. induction n as [|n IH]; intros props Hread; [done|].
  cbn [Utils.generateMany]. unfold Utils.generateUniqueID.
  unfold counterOf in Hread. rewrite Hread. simpl.
  assert (counterOf type (<[ Utils.counterKey type := "NaN" ]> props) = None) as Hnext.
  { unfold counterOf. by rewrite lookup_insert_eq. }
  destruct (IH _ Hnext) as [Hids Hcount].
  destruct (Utils.generateMany type n _) as [ids props'']. simpl in *.
  by rewrite Hids.
Qed.

Lemma generateUniqueID_not_a_number_witness :
  (Utils.generateMany (Some "WARN") 2 {[ "WARN_COUNTER" := "seven" ]}).1
    = ["WARN-NaN"; "WARN-NaN"] ∧
  counterOf (Some "WARN") (Utils.generateMany (Some "WARN") 2 {[ "WARN_COUNTER" := "seven" ]}).2
    = None.
Proof.
  exact (generateUniqueID_not_a_number (Some "WARN") 2 {[ "WARN_COUNTER" := "seven" ]} eq_refl).
Defined.

(** ** Dates *)

Section Dates.

Lemma occurs_app (c : ascii) (a b : string) :
  occurs c (a +:+ b) = occurs c a || occurs c b.
Proof. induction a as [|x a IH]; simpl; [done|]. by rewrite IH, orb_assoc. Qed.

Lemma dropChars_app (p b : string) : Utils.dropChars (String.length p) (p +:+ b) = b.
Proof. induction p as [|x p IH]; simpl; [by destruct b | done]. Qed.

Lemma startsWith_app (p b : string) : Js.startsWith (p +:+ b) p = true.
Proof. induction p as [|x p IH]; simpl; [done|]. by rewrite Ascii.eqb_refl. Qed.

Lemma replace_unfold (s p r : string) :
  Utils.replace s p r =
    if Js.startsWith s p then r +:+ Utils.dropChars (String.length p) s
    else match s with
         | EmptyString => EmptyString
         | String c s' => String c (Utils.replace s' p r)
         end.
Proof. by destruct s. Qed.

(** The first occurrence is the one after a text in which the pattern
    cannot begin. *)
Lemma replace_first (a b r : string) (c : ascii) (p : string) :
  occurs c a = false →
  Utils.replace (a +:+ String c p +:+ b) (String c p) r = a +:+ r +:+ b.
Proof.
  intros Ha. induction a as [|x a IH].
  - cbn [String.append]. rewrite replace_unfold.
    change (String c (p +:+ b)) with (String c p +:+ b).
    by rewrite startsWith_app, dropChars_app.
  - simpl in Ha. apply orb_false_iff in Ha as [Hx Ha].
    change (String x a +:+ String c p +:+ b) with (String x (a +:+ String c p +:+ b)).
    rewrite replace_unfold. cbn [Js.startsWith]. rewrite Ascii.eqb_sym, Hx.
    by rewrite IH.
Qed.

Lemma occurs_pretty_go (c : ascii) (x : N) (s : string) :
  numeric c = false → occurs c (pretty_N_go x s) = occurs c s.
Proof.
  intros Hc. revert s. induction (N.lt_wf_0 x) as [x _ IH]. intros s.
  destruct (decide (x = 0)%N) as [->|Hx]; [by rewrite pretty_N_go_0|].
  rewrite pretty_N_go_step by lia. rewrite IH by (apply N.div_lt; lia). cbn [occurs].
  assert (Ascii.eqb (pretty_N_char (x `mod` 10)) c = false) as ->; [|done].
  apply Ascii.eqb_neq. intros <-. revert Hc.
  unfold pretty_N_char. by repeat case_match.
Qed.

Lemma occurs_pretty (c : ascii) (z : Z) : numeric c = false → occurs c (pretty z) = false.
Proof.
  intros Hc.
  assert (∀ p : positive, occurs c (pretty p) = false) as Hpos.
  { intros p. unfold pretty, pretty_positive, pretty, pretty_N.
    rewrite decide_False by done. by rewrite occurs_pretty_go. }
  destruct z as [|p|p]; unfold pretty, pretty_Z.
  - cbn [occurs]. rewrite orb_false_r. apply Ascii.eqb_neq. by intros <-.
  - apply Hpos.
  - change ("-" +:+ pretty p) with (String "-" (pretty p)). cbn [occurs].
    rewrite Hpos, orb_false_r. apply Ascii.eqb_neq. by intros <-.
Qed.

Lemma occurs_padStart (c : ascii) (n : nat) (s : string) :
  numeric c = false → occurs c (Utils.padStart n "0" s) = occurs c s.
Proof.
  intros Hc. unfold Utils.padStart. rewrite occurs_app.
  assert (occurs c (Utils.repeatChar (n - String.length s) "0") = false) as ->; [|done].
  induction (n - String.length s)%nat as [|k IH]; cbn [Utils.repeatChar occurs]; [done|].
  rewrite IH, orb_false_r. apply Ascii.eqb_neq. by intros <-.
Qed.

End Dates.

(** X27. [formatDate] fills a pattern of year, month and day: on a format
    made of a text without y, the letters yyyy, a text without M, the
    letters MM, a text without d, the letters dd and a rest, none of the
    three texts holding a later letter of the pattern, the result is the
    same with the year, the month counted from 1 and the day in the places
    of the letters, month and day with two digits at least. The format
    yyyy-MM-dd, the one [getConfig] admits, is such a format. *)
Theorem formatDate_fills_pattern (date : Utils.Date) (a b c rest : string) :
  occurs "y" a = false → occurs "M" a = false → occurs "d" a = false →
  occurs "M" b = false → occurs "d" b = false → occurs "d" c = false →
  Utils.formatDate date (Some (a +:+ "yyyy" +:+ b +:+ "MM" +:+ c +:+ "dd" +:+ rest)) =
    a +:+ pretty (Utils.getFullYear date) +:+ b
      +:+ Utils.padStart 2 "0" (pretty (Utils.getMonth date + 1)) +:+ c
      +:+ Utils.padStart 2 "0" (pretty (Utils.getDate date)) +:+ rest.
Proof.
  intros Hya HMa Hda HMb Hdb Hdc. unfold Utils.formatDate.
  set (Y := pretty (Utils.getFullYear date)).
  set (M := Utils.padStart 2 "0" (pretty (Utils.getMonth date + 1))).
  set (D := Utils.padStart 2 "0" (pretty (Utils.getDate date))).
  rewrite (replace_first a _ Y "y" "yyy") by done.
  replace (a +:+ Y +:+ b +:+ "MM" +:+ c +:+ "dd" +:+ rest)
    with (((a +:+ Y) +:+ b) +:+ "MM" +:+ c +:+ "dd" +:+ rest) by (by rewrite !append_assoc).
  rewrite (replace_first ((a +:+ Y) +:+ b) _ M "M" "M")
    by (by rewrite !occurs_app, HMa, HMb; unfold Y; rewrite occurs_pretty).
  replace (((a +:+ Y) +:+ b) +:+ M +:+ c +:+ "dd" +:+ rest)
    with (((((a +:+ Y) +:+ b) +:+ M) +:+ c) +:+ "dd" +:+ rest) by (by rewrite !append_assoc).
  rewrite (replace_first ((((a +:+ Y) +:+ b) +:+ M) +:+ c) _ D "d" "d")
    by (by rewrite !occurs_app, Hda, Hdb, Hdc; unfold Y, M;
          rewrite occurs_padStart, !occurs_pretty).
  by rewrite !append_assoc.
Qed.

Lemma formatDate_fills_pattern_witness :
  Utils.formatDate (Utils.mkDate 2025 8 13 "2025-09-12") (Some "yyyy-MM-dd") = "2025-09-13".
Proof.
  exact (formatDate_fills_pattern (Utils.mkDate 2025 8 13 "2025-09-12") "" "-" "-" ""
           eq_refl eq_refl eq_refl eq_refl eq_refl eq_refl).
Defined.
